(** * mbox-to-markdown: the message extraction and classification engine

    A shallow embedding of the converter script of the repository
    ([class MboxParser], [class MarkdownGenerator] and the date options of
    [main]) and of the scripts that work on its output: the sender report
    ([extractMetadata], [extractSenderName], [groupEmailsBySender] and
    [processEmailsInChunks] of group-by-sender), the subject report
    ([normalizeText], [extractKeywords], [calculateSimilarity], [groupEmails]
    and [mergeGroups] of group-emails) and the batch files ([main] of
    create-llm-files), together with the properties of the specification
    that concern them and further properties of the code.

    Strings.  A JavaScript string is a sequence of UTF-16 code units.  The
    model uses [string] of the Standard Library, whose characters are the
    code units 0..255 (the Latin-1 range).  On that range every primitive
    below is the JavaScript one: [toLowerCase] maps A-Z and the upper-case
    letters of U+00C0..U+00DE onto code units of the same range, [trim]
    removes the white space and line terminators of the range, and
    [String.fromCharCode(parseInt(hex, 16))] of two hex digits is a code unit
    below 256.  Inputs with code units above 255 are outside the model.

    Regular expressions.  The patterns of the source are terms of a small
    abstract syntax ([Regex.regex]) run by a backtracking matcher with the
    priorities of the language: alternatives from left to right, greedy and
    lazy repetition, one capture group, lookahead.

    Objects.  [Record<string, string>] is a [gmap string string].  The
    script runs on Deno, where an object literal has no [__proto__] accessor,
    so every assignment [headers[k] = v] creates or overwrites the own
    property [k], and none of the keys read by the parser is inherited.

    Exceptions.  The only operation of the parser that can throw is [atob];
    it is an [option], and the [catch] around it in [decodeHeader] is its
    [None] case.  Nothing else throws, so the [catch] clauses of
    [parseEmail] and [parseDate] are never entered and every function of the
    parser is total in the model.  The loops over chunks and batches, which
    advance by a step that may be zero, run on fuel.

    Platform.  The date parser and the two date printers of the platform
    are parameters of the sections that use them, and so is the order in
    which [Object.entries] enumerates an object.  The disk is a map from
    paths to contents; writing creates or replaces a file, and reading a
    path that is not there throws.  The list of files a directory walk
    finds is an input of the function that processes it.  Numbers are
    natural numbers where the code counts; the one place where it divides
    and compares in floating point, the similarity threshold of the subject
    report, is a parameter that gets the two sizes.

    Left out.  Console output, and the [Math.random() < 0.01] sampling that
    only guards console output, do not influence any returned value.
    [parseFile] hands the archive to the external [csplit] tool and reads the
    pieces back from disk; the model of [parseFile] is its loop over these
    pieces.  The texts of the two reports ([generateMarkdownReport]) and the
    chunk loop of the subject report are left out as well.

    The file has three parts: the model, the vocabulary in which the
    properties are stated, and the properties with their proofs. *)

From Stdlib Require Import ZArith NArith Ascii String List Bool Lia.
From Stdlib Require Import DecimalString DecimalNat Sorted Permutation.
From stdpp Require Import base option gmap strings.

Local Open Scope Z_scope.

(** ** Code units *)

Definition LF : ascii := "010"%char.
Definition CR : ascii := "013"%char.
Definition TAB : ascii := "009"%char.
Definition nl : string := String LF "".

Definition code (c : ascii) : N := N_of_ascii c.

Definition inRange (lo hi : N) (c : ascii) : bool :=
  ((lo <=? code c) && (code c <=? hi))%N.

Definition isUpperAZ (c : ascii) : bool := inRange 65 90 c.
Definition isLowerAZ (c : ascii) : bool := inRange 97 122 c.
Definition isDigit (c : ascii) : bool := inRange 48 57 c.
Definition isLetter (c : ascii) : bool := isUpperAZ c || isLowerAZ c.

(** White space and line terminators removed by [String.prototype.trim]:
    TAB, LF, VT, FF, CR, SPACE and NO-BREAK SPACE (U+00A0). *)
Definition isWhite (c : ascii) : bool :=
  inRange 9 13 c || (code c =? 32)%N || (code c =? 160)%N.

(** [String.prototype.toLowerCase] on one code unit of the Latin-1 range:
    A-Z, and U+00C0..U+00DE except the multiplication sign U+00D7. *)
Definition lowerChar (c : ascii) : ascii :=
  if isUpperAZ c || (inRange 192 222 c && negb (code c =? 215)%N)
  then ascii_of_N (code c + 32)
  else c.

(** ** String primitives *)

Module JS.

Fixpoint toLowerCase (s : string) : string :=
  match s with
  | EmptyString => EmptyString
  | String c s' => String (lowerChar c) (toLowerCase s')
  end.

(** [s.startsWith(p)] *)
Fixpoint startsWith (s p : string) : bool :=
  match p, s with
  | EmptyString, _ => true
  | String _ _, EmptyString => false
  | String b p', String a s' => Ascii.eqb a b && startsWith s' p'
  end.

(** [s.includes(p)] *)
Fixpoint includes (s p : string) : bool :=
  startsWith s p ||
  match s with
  | EmptyString => false
  | String _ s' => includes s' p
  end.

(** [s.indexOf(p)], with [-1] when [p] does not occur. *)
Fixpoint indexOf (s p : string) : Z :=
  if startsWith s p then 0
  else match s with
       | EmptyString => -1
       | String _ s' =>
           let r := indexOf s' p in
           if r <? 0 then -1 else r + 1
       end.

Definition length (s : string) : Z := Z.of_nat (String.length s).

Fixpoint drop (n : nat) (s : string) : string :=
  match n, s with
  | O, _ => s
  | S _, EmptyString => EmptyString
  | S n', String _ s' => drop n' s'
  end.

Fixpoint take (n : nat) (s : string) : string :=
  match n, s with
  | O, _ => EmptyString
  | S _, EmptyString => EmptyString
  | S n', String c s' => String c (take n' s')
  end.

(** [s.substring(a)] and [s.substring(a, b)] for [a <= b]; negative
    arguments count as zero and both are clamped to the length. *)
Definition substringFrom (s : string) (a : Z) : string :=
  drop (Z.to_nat a) s.
Definition substring (s : string) (a b : Z) : string :=
  take (Z.to_nat b - Z.to_nat a) (drop (Z.to_nat a) s).

Fixpoint trimStart (s : string) : string :=
  match s with
  | EmptyString => EmptyString
  | String c s' => if isWhite c then trimStart s' else s
  end.

Definition isEmpty (s : string) : bool :=
  match s with EmptyString => true | _ => false end.

Fixpoint trimEnd (s : string) : string :=
  match s with
  | EmptyString => EmptyString
  | String c s' =>
      let r := trimEnd s' in
      if isWhite c && isEmpty r then EmptyString else String c r
  end.

Definition trim (s : string) : string := trimEnd (trimStart s).

(** [s.split(sep)] for a separator of one code unit; the result is never
    the empty array. *)
Fixpoint split (sep : ascii) (s : string) : list string :=
  match s with
  | EmptyString => [EmptyString]
  | String c s' =>
      if Ascii.eqb c sep then EmptyString :: split sep s'
      else match split sep s' with
           | h :: t => String c h :: t
           | [] => [String c EmptyString]
           end
  end.

(** [a.join(sep)] *)
Fixpoint join (sep : string) (l : list string) : string :=
  match l with
  | [] => EmptyString
  | [x] => x
  | x :: rest => x +:+ sep +:+ join sep rest
  end.

(** The longest prefix made of code units satisfying [p], and the rest. *)
Fixpoint span (p : ascii -> bool) (s : string) : string * string :=
  match s with
  | EmptyString => (EmptyString, EmptyString)
  | String c s' =>
      if p c then let '(a, b) := span p s' in (String c a, b)
      else (EmptyString, s)
  end.

Fixpoint filter (p : ascii -> bool) (s : string) : string :=
  match s with
  | EmptyString => EmptyString
  | String c s' => if p c then String c (filter p s') else filter p s'
  end.

(** Global replacement.  [m s] tells whether the pattern matches at the
start of [s]: [Some (r, n)] when it does, [n] being the length of the
match and [r] what replaces it.  Matches are looked for from left to right
and the search resumes behind each match ([skip] counts the code units of
the current match still to be passed over).  The patterns of this program
never match the empty string, and [n >= 1] is assumed. *)
Fixpoint replaceAllFrom (m : string -> option (string * nat))
    (skip : nat) (s : string) : string :=
  match s with
  | EmptyString => EmptyString
  | String c s' =>
      match skip with
      | S k => replaceAllFrom m k s'
      | O =>
          match m s with
          | Some (r, n) => r +:+ replaceAllFrom m (Nat.pred n) s'
          | None => String c (replaceAllFrom m O s')
          end
      end
  end.

Definition replaceAll (m : string -> option (string * nat)) (s : string)
  : string := replaceAllFrom m O s.

(** Splitting at the matches of a pattern; [m s] is the length of the match
at the start of [s], if any.  The code units of a match belong to no
piece.  As above, a match is at least one code unit long. *)
Fixpoint splitAllFrom (m : string -> option nat) (skip : nat) (s : string)
    : list string :=
  match s with
  | EmptyString => [EmptyString]
  | String c s' =>
      match skip with
      | S k => splitAllFrom m k s'
      | O =>
          match m s with
          | Some (S n) => EmptyString :: splitAllFrom m n s'
          | _ =>
              match splitAllFrom m O s' with
              | h :: t => String c h :: t
              | [] => [String c EmptyString]
              end
          end
      end
  end.

Definition splitAll (m : string -> option nat) (s : string) : list string :=
  splitAllFrom m O s.

(** A JavaScript string is falsy exactly when it is empty. *)
Definition truthy (s : string) : bool := negb (isEmpty s).

(** [a || b] on strings that may be [undefined]. *)
Definition orElse (a : option string) (b : option string) : option string :=
  match a with
  | Some s => if truthy s then Some s else b
  | None => b
  end.

End JS.

(** ** Regular expressions *)

Module Regex.

(** The constructs the patterns of the program are made of. *)
Inductive regex : Type :=
  | Eps                      (* the empty pattern *)
  | Cls (p : ascii -> bool)  (* one code unit of a class *)
  | Seq (r1 r2 : regex)      (* r1 r2 *)
  | Alt (r1 r2 : regex)      (* r1|r2 *)
  | Star (r : regex)         (* r*, greedy *)
  | LazyStar (r : regex)     (* r*?, lazy *)
  | Group (r : regex)        (* (r), the capture group *)
  | Ahead (r : regex).       (* (?=r) *)

(** One given code unit. *)
Definition Chr (c : ascii) : regex := Cls (fun x => Ascii.eqb x c).
(** [r+] *)
Definition Plus (r : regex) : regex := Seq r (Star r).
(** [r?] *)
Definition Opt (r : regex) : regex := Alt r Eps.
(** [r1 r2 ... rn] *)
Definition Cat (rs : list regex) : regex := fold_right Seq Eps rs.
(** A literal text. *)
Fixpoint Lit (s : string) : regex :=
  match s with
  | EmptyString => Eps
  | String c s' => Seq (Chr c) (Lit s')
  end.

(** The state of a match attempt: what is left of the input, how many code
units the match has taken so far, and the text of the capture group. *)
Record mstate := mkState {
  rest : string;        (* what is left of the input *)
  consumed : nat;       (* code units taken so far *)
  capture : option string
}.

Definition advance (st : mstate) (s' : string) : mstate :=
  mkState s' (S (consumed st)) (capture st).

(** The group, entered at [st] and left at [st'], captures what lies between. *)
Definition setCapture (st st' : mstate) : mstate :=
  mkState (rest st') (consumed st')
    (Some (JS.take (consumed st' - consumed st) (rest st))).

(** Backtracking matcher in continuation-passing style: [exec r st k] is the
first way, in the order of priority of the language, to match [r] from [st]
such that the continuation [k] succeeds on what follows.  An iteration of a
repetition that takes no code unit is rejected, so at most as many iterations
as code units left are needed. *)
Fixpoint exec (r : regex) (st : mstate) (k : mstate -> option mstate)
    {struct r} : option mstate :=
  match r with
  | Eps => k st
  | Cls p =>
      match rest st with
      | String c s' => if p c then k (advance st s') else None
      | EmptyString => None
      end
  | Seq r1 r2 => exec r1 st (fun st' => exec r2 st' k)
  | Alt r1 r2 =>
      match exec r1 st k with
      | Some res => Some res
      | None => exec r2 st k
      end
  | Star r1 =>
      (fix loop (fuel : nat) (st : mstate) {struct fuel} : option mstate :=
         match fuel with
         | O => k st
         | S fuel' =>
             match exec r1 st (fun st' =>
                     if (consumed st <? consumed st')%nat then loop fuel' st'
                     else None) with
             | Some res => Some res
             | None => k st
             end
         end) (String.length (rest st)) st
  | LazyStar r1 =>
      (fix loop (fuel : nat) (st : mstate) {struct fuel} : option mstate :=
         match k st with
         | Some res => Some res
         | None =>
             match fuel with
             | O => None
             | S fuel' =>
                 exec r1 st (fun st' =>
                   if (consumed st <? consumed st')%nat then loop fuel' st'
                   else None)
             end
         end) (String.length (rest st)) st
  | Group r1 => exec r1 st (fun st' => k (setCapture st st'))
  | Ahead r1 =>
      match exec r1 st Some with
      | Some _ => k st
      | None => None
      end
  end.

(** A match at the very start of [s]: its length and the text of the group
(the empty text when no group took part). *)
Definition matchAt (re : regex) (s : string) : option (nat * string) :=
  match exec re (mkState s 0 None) Some with
  | Some st => Some (consumed st, default "" (capture st))
  | None => None
  end.

(** [s.match(re)] without the [g] flag: the leftmost match; the result is
the text of the group. *)
Fixpoint matchFirst (re : regex) (s : string) : option string :=
  match matchAt re s with
  | Some (_, group) => Some group
  | None =>
      match s with
      | EmptyString => None
      | String _ s' => matchFirst re s'
      end
  end.

(** [s.match(re)] for a pattern that starts with [^]: a match at the start
of the input or none. *)
Definition matchAnchored (re : regex) (s : string) : option string :=
  match matchAt re s with
  | Some (_, group) => Some group
  | None => None
  end.

(** The matcher [s.replace(re, f)] runs with the [g] flag; [f] gets the
matched text and the text of the group. *)
Definition replacer (re : regex) (f : string -> string -> string) (s : string)
    : option (string * nat) :=
  match matchAt re s with
  | Some (n, group) => Some (f (JS.take n s) group, n)
  | None => None
  end.

Definition replace (re : regex) (f : string -> string -> string) (s : string)
    : string := JS.replaceAll (replacer re f) s.

(** [s.split(re)] for a pattern without capture group. *)
Definition splitter (re : regex) (s : string) : option nat :=
  match matchAt re s with
  | Some (n, _) => Some n
  | None => None
  end.

Definition split (re : regex) (s : string) : list string :=
  JS.splitAll (splitter re) s.

End Regex.

Import Regex(regex(..), Chr, Plus, Opt, Cat, Lit).
(** ** atob

    The platform function [atob] (forgiving base64 decoding): ASCII white
    space is removed; when the length is then a multiple of four, one or two
    trailing [=] are removed; a length congruent to 1 modulo 4, or a code
    unit outside the base64 alphabet, is an [InvalidCharacterError] ([None]
    here); two or three trailing sextets give one or two bytes. *)

Definition b64val (c : ascii) : option N :=
  if isUpperAZ c then Some (code c - 65)%N
  else if isLowerAZ c then Some (code c - 97 + 26)%N
  else if isDigit c then Some (code c - 48 + 52)%N
  else if Ascii.eqb c "+" then Some 62%N
  else if Ascii.eqb c "/" then Some 63%N
  else None.

Definition isAsciiWhite (c : ascii) : bool :=
  Ascii.eqb c TAB || Ascii.eqb c LF || Ascii.eqb c "012" || Ascii.eqb c CR
  || Ascii.eqb c " ".

Fixpoint b64vals (s : string) : option (list N) :=
  match s with
  | EmptyString => Some []
  | String c s' =>
      match b64val c, b64vals s' with
      | Some v, Some vs => Some (v :: vs)
      | _, _ => None
      end
  end.

Definition byteOf (n : N) : ascii := ascii_of_N (n mod 256).

Fixpoint b64bytes (vs : list N) : string :=
  match vs with
  | a :: b :: c :: d :: rest =>
      let w := (a * 262144 + b * 4096 + c * 64 + d)%N in
      String (byteOf (w / 65536)) (String (byteOf (w / 256))
        (String (byteOf w) (b64bytes rest)))
  | [a; b; c] =>
      let w := (a * 4096 + b * 64 + c)%N in
      String (byteOf (w / 1024)) (String (byteOf (w / 4)) EmptyString)
  | [a; b] => String (byteOf ((a * 64 + b) / 16)) EmptyString
  | _ => EmptyString
  end.

Definition stripPadding (s : string) : string :=
  let n := String.length s in
  if (n mod 4 =? 0)%nat then
    if JS.startsWith (JS.drop (n - 2) s) "==" && (2 <=? n)%nat then JS.take (n - 2) s
    else if JS.startsWith (JS.drop (n - 1) s) "=" && (1 <=? n)%nat then JS.take (n - 1) s
    else s
  else s.

Definition atob (data : string) : option string :=
  let d := stripPadding (JS.filter (fun c => negb (isAsciiWhite c)) data) in
  if (String.length d mod 4 =? 1)%nat then None
  else option_map b64bytes (b64vals d).

(** ** MboxParser.decodeHeader *)

Definition notQuestion (c : ascii) : bool := negb (Ascii.eqb c "?").

(** [[BQ]] under the [i] flag. *)
Definition isBQ (c : ascii) : bool :=
  Ascii.eqb c "B" || Ascii.eqb c "Q" || Ascii.eqb c "b" || Ascii.eqb c "q".

(** [/=\?[^?]+\?[BQ]\?([^?]+)\?=/gi] *)
Definition reEncodedWord : regex :=
  Cat [Chr "="; Chr "?"; Plus (Cls notQuestion); Chr "?"; Cls isBQ; Chr "?";
       Group (Plus (Cls notQuestion)); Chr "?"; Chr "="].

(** [(match, encoded) => { try { return atob(encoded); } catch { return match; } }] *)
Definition decodeReplacement (matched encoded : string) : string :=
  match atob encoded with
  | Some text => text
  | None => matched
  end.

Definition decodeHeader (value : string) : string :=
  JS.trim (Regex.replace reEncodedWord decodeReplacement value).

(** ** MboxParser.cleanBody *)

(** [/=\r?\n/g] *)
Definition reSoftBreak : regex := Cat [Chr "="; Opt (Chr CR); Chr LF].

(** [[0-9A-F]] *)
Definition isHexUpper (c : ascii) : bool := isDigit c || inRange 65 70 c.

(** [/=([0-9A-F]{2})/g] *)
Definition reHexEscape : regex :=
  Cat [Chr "="; Group (Cat [Cls isHexUpper; Cls isHexUpper])].

(** The value of one hex digit, and [parseInt(hex, 16)] on a text made of
hex digits. *)
Definition hexVal (c : ascii) : N :=
  if isDigit c then (code c - 48)%N
  else if inRange 65 70 c then (code c - 55)%N
  else (code c - 87)%N.

Definition parseIntHex (hex : string) : N :=
  fold_left (fun acc c => (acc * 16 + hexVal c)%N) (list_ascii_of_string hex) 0%N.

(** [String.fromCharCode(n)] for [n] below 256. *)
Definition fromCharCode (n : N) : string := String (ascii_of_N n) EmptyString.

(** [(_match, hex) => String.fromCharCode(parseInt(hex, 16))] *)
Definition hexReplacement (_matched hex : string) : string :=
  fromCharCode (parseIntHex hex).

Definition cleanBody (body : string) : string :=
  JS.trim (Regex.replace reHexEscape hexReplacement
             (Regex.replace reSoftBreak (fun _ _ => EmptyString) body)).

(** ** MboxParser.parseHeaders *)

(** [line.startsWith(' ') || line.startsWith('\t')] *)
Definition isContinuation (line : string) : bool :=
  JS.startsWith line " " || JS.startsWith line (String TAB "").

(** The local variables of the loop. *)
Record HeaderState := mkHeaderState {
  hs_headers : gmap string string;
  currentHeader : string;
  currentValue : string
}.

(** [if (currentHeader) headers[currentHeader] = this.decodeHeader(currentValue)] *)
Definition saveHeader (st : HeaderState) : gmap string string :=
  if JS.truthy (currentHeader st)
  then <[currentHeader st := decodeHeader (currentValue st)]> (hs_headers st)
  else hs_headers st.

(** One iteration of [for (const line of lines)]. *)
Definition headerStep (st : HeaderState) (line : string) : HeaderState :=
  if isContinuation line then
    mkHeaderState (hs_headers st) (currentHeader st)
      (currentValue st +:+ " " +:+ JS.trim line)
  else
    let saved := saveHeader st in
    let colonIndex := JS.indexOf line ":" in
    if 0 <? colonIndex then
      mkHeaderState saved
        (JS.trim (JS.substring line 0 colonIndex))
        (JS.trim (JS.substringFrom line (colonIndex + 1)))
    else
      mkHeaderState saved (currentHeader st) (currentValue st).

Definition headerLoop (st : HeaderState) (lines : list string) : HeaderState :=
  fold_left headerStep lines st.

Definition parseHeaderLines (lines : list string) : gmap string string :=
  saveHeader (headerLoop (mkHeaderState ∅ "" "") lines).

Definition parseHeaders (headerSection : string) : gmap string string :=
  parseHeaderLines (JS.split LF headerSection).

(** ** MboxParser.parseEmail *)

Record EmailData := mkEmailData {
  subject : string;
  from : string;
  to : string;
  date : string;
  messageId : string;
  body : string;
  headers : gmap string string
}.

(** How the fallback scan of [parseEmail] treats one line, following its
    chain of conditions from top to bottom. *)
Inductive LineKind :=
  | ContinuationLine   (* starts with a space or a tab: [continue] *)
  | HeaderLine         (* [headerEndLine = i] *)
  | EmptyLine          (* [headerEndLine = i; break] *)
  | BodyStart          (* [headerEndLine = i - 1; break] *)
  | OtherLine.         (* no branch taken *)

Definition classifyLine (i : Z) (line : string) : LineKind :=
  if isContinuation line then ContinuationLine
  else if JS.includes line ":" && (JS.length line <? 200) then HeaderLine
  else if JS.isEmpty (JS.trim line) then EmptyLine
  else if (0 <? i) && negb (JS.includes line ":") then BodyStart
  else OtherLine.

(** [for (let i = ...; i < contentLines.length; i++)], started at index [i]
    with the lines from [i] on; the result is the final [headerEndLine]. *)
Fixpoint scanHeaderEnd (i headerEndLine : Z) (lines : list string) : Z :=
  match lines with
  | [] => headerEndLine
  | line :: rest =>
      match classifyLine i line with
      | ContinuationLine => scanHeaderEnd (i + 1) headerEndLine rest
      | HeaderLine => scanHeaderEnd (i + 1) i rest
      | EmptyLine => i
      | BodyStart => i - 1
      | OtherLine => scanHeaderEnd (i + 1) headerEndLine rest
      end
  end.

(** The text after the mbox separator line, when the block starts with one. *)
Definition stripSeparator (block : string) : string :=
  let lines := JS.split LF block in
  let line0 := hd "" lines in
  let startIndex :=
    if JS.truthy line0 && JS.startsWith line0 "From "
    then JS.length line0 + 1 else 0 in
  JS.substringFrom block startIndex.

(** [headerSection] and [body] as the two approaches leave them. *)
Definition splitHeaderBody (content : string) : string * string :=
  let doubleNewlineIndex := JS.indexOf content (nl +:+ nl) in
  if negb (doubleNewlineIndex =? -1) then
    (JS.substring content 0 doubleNewlineIndex,
     cleanBody (JS.substringFrom content (doubleNewlineIndex + 2)))
  else
    let contentLines := JS.split LF content in
    let headerEndLine := scanHeaderEnd 0 (-1) contentLines in
    if 0 <=? headerEndLine then
      (JS.join nl (firstn (Z.to_nat (headerEndLine + 1)) contentLines),
       cleanBody (JS.join nl (skipn (Z.to_nat (headerEndLine + 1)) contentLines)))
    else
      (hd "" contentLines,
       cleanBody (JS.join nl (skipn 1 contentLines))).

(** The two places where [parseEmail] gives up with [return null]: the test
    [!headerSection], and the test on the placeholders of [from] and [to]. *)
Inductive DropReason := HeaderBoundaryFailure | RequiredFieldMissing.

(** [headers[k1] || headers[k2] || ... || dflt] *)
Definition firstTruthy (h : gmap string string) (keys : list string)
    (dflt : string) : string :=
  default dflt (foldr (fun k acc => JS.orElse (h !! k) acc) None keys).

Definition parseEmailOutcome (block : string) : DropReason + EmailData :=
  let content := stripSeparator block in
  let '(headerSection, body) := splitHeaderBody content in
  if negb (JS.truthy headerSection) then inl HeaderBoundaryFailure
  else
    let headers := parseHeaders headerSection in
    let subject := firstTruthy headers ["Subject"; "subject"] "(No Subject)" in
    let from := firstTruthy headers ["From"; "from"] "(No Sender)" in
    let to := firstTruthy headers ["To"; "to"] "(No Recipient)" in
    let date := firstTruthy headers ["Date"; "date"] "" in
    let messageId :=
      firstTruthy headers ["Message-ID"; "Message-Id"; "message-id"] "" in
    if String.eqb from "(No Sender)" || String.eqb to "(No Recipient)"
    then inl RequiredFieldMissing
    else inr (mkEmailData subject from to date messageId body headers).

Definition parseEmail (block : string) : option EmailData :=
  match parseEmailOutcome block with
  | inr email => Some email
  | inl _ => None
  end.

(** ** Address and name extraction *)

Definition notGt (c : ascii) : bool := negb (Ascii.eqb c ">").
Definition notLt (c : ascii) : bool := negb (Ascii.eqb c "<").

(** [/<([^>]+)>/] *)
Definition reAngle : regex := Cat [Chr "<"; Group (Plus (Cls notGt)); Chr ">"].

(** [[a-zA-Z0-9._%+-]] and [[a-zA-Z0-9.-]] *)
Definition isLocalChar (c : ascii) : bool :=
  isLetter c || isDigit c || Ascii.eqb c "." || Ascii.eqb c "_"
  || Ascii.eqb c "%" || Ascii.eqb c "+" || Ascii.eqb c "-".
Definition isDomainChar (c : ascii) : bool :=
  isLetter c || isDigit c || Ascii.eqb c "." || Ascii.eqb c "-".

(** [/([a-zA-Z0-9._%+-]+@[a-zA-Z0-9.-]+\.[a-zA-Z]{2,})/] *)
Definition reAddress : regex :=
  Group (Cat [Plus (Cls isLocalChar); Chr "@"; Plus (Cls isDomainChar); Chr ".";
              Cls isLetter; Cls isLetter; Star (Cls isLetter)]).

Definition extractEmail (field : string) : option string :=
  match Regex.matchFirst reAngle field with
  | Some group => Some group
  | None => Regex.matchFirst reAddress field
  end.

(** The apostrophe and the double quote, and the class holding both. *)
Definition APOSTROPHE : ascii := "039"%char.
Definition DQUOTE : ascii := "034"%char.
Definition isQuote (c : ascii) : bool :=
  Ascii.eqb c APOSTROPHE || Ascii.eqb c DQUOTE.

(** [.replace(/[QUOTES]/g, '')], [QUOTES] being the two quote characters. *)
Definition stripQuotes (s : string) : string :=
  Regex.replace (Cls isQuote) (fun _ _ => EmptyString) s.

(** [/^([^<]+)</] *)
Definition reNamePrefix : regex := Cat [Group (Plus (Cls notLt)); Chr "<"].

Definition extractName (field : string) : option string :=
  match Regex.matchAnchored reNamePrefix field with
  | Some group => Some (stripQuotes (JS.trim group))
  | None =>
      if negb (JS.includes field "@") then Some (stripQuotes (JS.trim field))
      else None
  end.

(** [.map(f).filter(x => x !== null)] *)
Definition mapNotNull (f : string -> option string) (l : list string)
    : list string := omap f l.

Definition extractEmails (field : string) : list string :=
  mapNotNull (fun recipient => extractEmail (JS.trim recipient))
    (JS.split "," field).

Definition extractNames (field : string) : list string :=
  mapNotNull (fun recipient => extractName (JS.trim recipient))
    (JS.split "," field).

(** ** MboxParser.isSelfEmail *)

(** The three lists imported from [config.ts]. *)
Record IdentityConfig := mkIdentityConfig {
  ignoredSenders : list string;
  myEmails : list string;
  myNames : list string
}.

(** [hay.toLowerCase().includes(fragment.toLowerCase())] *)
Definition includesCI (hay fragment : string) : bool :=
  JS.includes (JS.toLowerCase hay) (JS.toLowerCase fragment).

(** [x?.toLowerCase().includes(fragment.toLowerCase())], [undefined] being falsy. *)
Definition includesCIOpt (hay : option string) (fragment : string) : bool :=
  match hay with
  | Some h => includesCI h fragment
  | None => false
  end.

Section Classifier.

Variable config : IdentityConfig.

Definition isIgnoredSender (email : EmailData) (fromName : option string) : bool :=
  existsb (fun sender =>
    includesCI (from email) sender ||
    match fromName with
    | Some n => JS.truthy n && includesCI n sender
    | None => false
    end) (ignoredSenders config).

Definition isSelfEmail (email : EmailData) : bool :=
  let fromEmail := extractEmail (from email) in
  let fromName := extractName (from email) in
  let toEmails := extractEmails (to email) in
  let toNames := extractNames (to email) in
  if isIgnoredSender email fromName then true
  else
    let isFromMe :=
      existsb (fun addr => includesCIOpt fromEmail addr) (myEmails config)
      || existsb (fun name => includesCIOpt fromName name) (myNames config) in
    let isToMe :=
      existsb (fun addr =>
        existsb (fun myAddr => includesCI addr myAddr) (myEmails config)) toEmails
      || existsb (fun name =>
        existsb (fun myName => includesCI name myName) (myNames config)) toNames in
    isFromMe && isToMe.

End Classifier.

(** ** MboxParser.parseContent *)

(** [/\n(?=From )/] *)
Definition reDelimiter : regex := Cat [Chr LF; Ahead (Lit "From ")].

(** [content.split(/\n(?=From )/)] *)
Definition splitBlocks (content : string) : list string :=
  Regex.split reDelimiter content.

(** The local variables [emails] and [skippedSelfEmails]. *)
Record ParseState := mkParseState {
  emails : list EmailData;
  skippedSelfEmails : nat
}.

Section Parser.

Variable config : IdentityConfig.

(** The body of the loop over [emailBlocks]. *)
Definition processBlock (st : ParseState) (rawBlock : string) : ParseState :=
  let block := JS.trim rawBlock in
  if JS.truthy block then
    match parseEmail block with
    | Some email =>
        if isSelfEmail config email
        then mkParseState (emails st) (S (skippedSelfEmails st))
        else mkParseState (emails st ++ [email]) (skippedSelfEmails st)
    | None => st
    end
  else st.

Definition processBlocks (st : ParseState) (blocks : list string) : ParseState :=
  fold_left processBlock blocks st.

Definition parseContent (content : string) : list EmailData :=
  emails (processBlocks (mkParseState [] 0) (splitBlocks content)).

End Parser.

(** ** MarkdownGenerator.parseDate *)

(** [.] of a regular expression: any code unit but a line terminator. *)
Definition isLineTerminator (c : ascii) : bool := Ascii.eqb c LF || Ascii.eqb c CR.
Definition isDot (c : ascii) : bool := negb (isLineTerminator c).

(** [/\(.*?\)/g] *)
Definition reParenComment : regex := Cat [Chr "("; LazyStar (Cls isDot); Chr ")"].

(** [dateStr.replace(/\(.*?\)/g, '').trim()] *)
Definition stripParenComments (dateStr : string) : string :=
  JS.trim (Regex.replace reParenComment (fun _ _ => EmptyString) dateStr).

Section DateNormalizer.

(** The platform's date parser: [new Date(s).getTime()], with [None] for
    [NaN] (an invalid date).  Its grammar beyond ISO 8601 is left to the
    implementation by the language, so it is a parameter here. *)
Variable dateParse : string -> option Z.

Definition parseDate (dateStr : string) : option Z :=
  if negb (JS.truthy dateStr) then None
  else
    match dateParse dateStr with
    | Some t => Some t
    | None =>
        let cleanDateStr := stripParenComments dateStr in
        match dateParse cleanDateStr with
        | Some t => Some t
        | None => None
        end
    end.

End DateNormalizer.


(** ** MarkdownGenerator *)

(** [String(n)] for a non-negative integer [n]. *)
Definition decimal (n : nat) : string :=
  NilEmpty.string_of_uint (Nat.to_uint n).

(** [s.padStart(n, c)] for a filler [c] of one code unit. *)
Definition padStart (s : string) (n : nat) (c : ascii) : string :=
  string_of_list_ascii (List.repeat c (n - String.length s)) +:+ s.

(** [[a-zA-Z0-9\s-]]; in the Latin-1 range [\s] is the white space that
    [trim] removes. *)
Definition isSubjectChar (c : ascii) : bool :=
  isLetter c || isDigit c || isWhite c || Ascii.eqb c "-".

(** [/[^a-zA-Z0-9\s-]/g] and [/\s+/g] *)
Definition reSpecial : regex := Cls (fun c => negb (isSubjectChar c)).
Definition reSpaces : regex := Plus (Cls isWhite).

Section MarkdownGenerator.

(** The platform's date parser, as in [parseDate], and its two printers of
    a valid date given by its time value: [date.toISOString()] and
    [date.toLocaleString()], the second depending on the locale and the time
    zone of the machine. *)
Variable dateParse : string -> option Z.
Variable toISOString : Z -> string.
Variable toLocaleString : Z -> string.

(** [Object.entries(headers)]: the own properties in the order in which the
    platform enumerates them. *)
Variable entries : gmap string string -> list (string * string).

(** [date ? date.toISOString().split('T')[0] : 'unknown-date'], for
    [date = this.parseDate(dateStr)]. *)
Definition isoDay (dateStr : string) : string :=
  match parseDate dateParse dateStr with
  | Some t => hd "" (JS.split "T" (toISOString t))
  | None => "unknown-date"
  end.

Definition generateFilename (email : EmailData) (index : nat) : string :=
  let subject :=
    JS.substring
      (Regex.replace reSpaces (fun _ _ => "-")
         (Regex.replace reSpecial (fun _ _ => EmptyString) (subject email)))
      0 50 in
  let dateStr := isoDay (date email) in
  padStart (decimal (index + 1)) 4 "0" +:+ "-" +:+ dateStr +:+ "-"
  +:+ (if JS.truthy subject then subject else "no-subject") +:+ ".md".

Definition emailToMarkdown (email : EmailData) : string :=
  let formattedDate :=
    match parseDate dateParse (date email) with
    | Some t => toLocaleString t
    | None => date email
    end in
  "# " +:+ subject email +:+ nl
  +:+ nl
  +:+ "## Email Metadata" +:+ nl
  +:+ nl
  +:+ "- **From:** " +:+ from email +:+ nl
  +:+ "- **To:** " +:+ to email +:+ nl
  +:+ "- **Date:** " +:+ formattedDate +:+ nl
  +:+ "- **Message ID:** " +:+ messageId email +:+ nl
  +:+ nl
  +:+ "## Email Body" +:+ nl
  +:+ nl
  +:+ body email +:+ nl
  +:+ nl
  +:+ "---" +:+ nl
  +:+ nl
  +:+ "### Raw Headers" +:+ nl
  +:+ "```" +:+ nl
  +:+ JS.join nl (map (fun kv => fst kv +:+ ": " +:+ snd kv) (entries (headers email)))
  +:+ nl
  +:+ "```" +:+ nl.

(** The text [createIndexFile] writes to [INDEX.md]. *)
Definition indexContent (emails : list EmailData) : string :=
  "# Email Archive Index" +:+ nl
  +:+ nl
  +:+ "Total emails: " +:+ decimal (List.length emails) +:+ nl
  +:+ nl
  +:+ "## Emails by Date" +:+ nl
  +:+ nl
  +:+ JS.join nl
        (imap (fun index email =>
                 let formattedDate := isoDay (date email) in
                 let filename := generateFilename email index in
                 "- [" +:+ formattedDate +:+ "] [" +:+ subject email +:+ "](./"
                 +:+ filename +:+ ") - From: " +:+ from email)
           emails)
  +:+ nl.

(** The files of the disk, by path.  [Deno.writeTextFile] creates the file
    or replaces its content. *)
Definition writeTextFile (path content : string) (fs : gmap string string)
    : gmap string string := <[path := content]> fs.

(** [for (let i = ...; i < emails.length; i++)], from index [i] on. *)
Fixpoint saveLoop (outputDir : string) (i : nat) (emails : list EmailData)
    (fs : gmap string string) : gmap string string :=
  match emails with
  | [] => fs
  | email :: rest =>
      let filename := generateFilename email i in
      let markdown := emailToMarkdown email in
      let filePath := outputDir +:+ "/" +:+ filename in
      saveLoop outputDir (S i) rest (writeTextFile filePath markdown fs)
  end.

Definition createIndexFile (emails : list EmailData) (outputDir : string)
    (fs : gmap string string) : gmap string string :=
  writeTextFile (outputDir +:+ "/INDEX.md") (indexContent emails) fs.

Definition saveEmailsAsMarkdown (emails : list EmailData) (outputDir : string)
    (fs : gmap string string) : gmap string string :=
  createIndexFile emails outputDir (saveLoop outputDir 0 emails fs).

(** ** The date filters of [main]

    [None] stands for [Deno.exit(1)], taken when a bound is given that the
    date parser rejects. *)

(** [if (boundStr) { bound = new Date(boundStr); ... emails.filter(...) }] *)
Definition filterByBound (boundStr : option string) (keep : Z -> Z -> bool)
    (emails : list EmailData) : option (list EmailData) :=
  match boundStr with
  | Some s =>
      if JS.truthy s then
        match dateParse s with
        | Some bound =>
            Some (List.filter
                    (fun email =>
                       match parseDate dateParse (date email) with
                       | Some emailDate => keep emailDate bound
                       | None => false
                       end) emails)
        | None => None
        end
      else Some emails
  | None => Some emails
  end.

Definition filterByDates (sinceDateStr untilDateStr : option string)
    (emails : list EmailData) : option (list EmailData) :=
  match filterByBound sinceDateStr Z.geb emails with
  | Some emails' => filterByBound untilDateStr Z.ltb emails'
  | None => None
  end.

End MarkdownGenerator.

(** ** The sender report (group-by-sender) *)

Module GroupBySender.

Record EmailMetadata := mkEmailMetadata {
  subject : string;
  from : string;
  to : string;
  date : string;
  filePath : string
}.

Record SenderGroup := mkSenderGroup {
  sender : string;
  count : nat;
  emails : list EmailMetadata
}.

(** [/^# (.+)/] *)
Definition reSubjectLine : regex := Cat [Lit "# "; Group (Plus (Cls isDot))].

(** [/\*\*From:\*\* (.+)/], [/\*\*To:\*\* (.+)/] and [/\*\*Date:\*\* (.+)/] *)
Definition reFrom : regex := Cat [Lit "**From:** "; Group (Plus (Cls isDot))].
Definition reTo : regex := Cat [Lit "**To:** "; Group (Plus (Cls isDot))].
Definition reDate : regex := Cat [Lit "**Date:** "; Group (Plus (Cls isDot))].

(** [extractMetadata], the disk being a map from paths to contents; reading
    a path that is not there throws, and the [catch] returns [null]. *)
Definition extractMetadata (fs : gmap string string) (filePath : string)
    : option EmailMetadata :=
  match fs !! filePath with
  | None => None
  | Some content =>
      let subjectMatch := Regex.matchAnchored reSubjectLine content in
      let subject := match subjectMatch with Some g => g | None => "" end in
      let fromMatch := Regex.matchFirst reFrom content in
      let toMatch := Regex.matchFirst reTo content in
      let dateMatch := Regex.matchFirst reDate content in
      match fromMatch, toMatch with
      | Some from, Some to =>
          if negb (JS.truthy subject) then None
          else Some (mkEmailMetadata subject from to
                       (match dateMatch with Some g => g | None => "" end)
                       filePath)
      | _, _ => None
      end
  end.

(** [/^([^<]+)(?:<.+>)?/] *)
Definition reSenderName : regex :=
  Cat [Group (Plus (Cls notLt)); Opt (Cat [Chr "<"; Plus (Cls isDot); Chr ">"])].

Definition extractSenderName (from : string) : string :=
  match Regex.matchAnchored reSenderName from with
  | Some g => JS.trim g
  | None => JS.trim from
  end.

(** [senderMap], a [Map] from sender names to groups, is the list of its
    groups in the order in which they were inserted; the key of a group is
    its field [sender].  The body of the loop of [groupEmailsBySender]:
    create the group of [senderName] when there is none, then count the
    message and append it. *)
Fixpoint addToGroup (senderName : string) (email : EmailMetadata)
    (senderMap : list SenderGroup) : list SenderGroup :=
  match senderMap with
  | [] => [mkSenderGroup senderName 1 [email]]
  | group :: rest =>
      if String.eqb (sender group) senderName
      then mkSenderGroup (sender group) (S (count group)) (emails group ++ [email])
           :: rest
      else group :: addToGroup senderName email rest
  end.

(** [.sort((a, b) => b.count - a.count)].  The sort of the language is
    stable: groups come out by decreasing count, and groups of equal count
    in the order they had.  The groups are inserted from the last to the
    first, each in front of the first group that has no greater count. *)
Fixpoint insertByCount (g : SenderGroup) (sorted : list SenderGroup)
    : list SenderGroup :=
  match sorted with
  | [] => [g]
  | h :: t =>
      if (count h <=? count g)%nat then g :: h :: t
      else h :: insertByCount g t
  end.

Definition sortByCount (groups : list SenderGroup) : list SenderGroup :=
  fold_right insertByCount [] groups.

Definition groupEmailsBySender (emails : list EmailMetadata) : list SenderGroup :=
  sortByCount
    (fold_left (fun senderMap email =>
                  addToGroup (extractSenderName (from email)) email senderMap)
       emails []).

(** The merge of one group of a chunk into [allSenderGroups], the map of
    the groups of all chunks so far: the counts are added and the messages
    appended when the sender has a group already, and the group is inserted
    as it is otherwise. *)
Fixpoint mergeGroup (allSenderGroups : list SenderGroup) (group : SenderGroup)
    : list SenderGroup :=
  match allSenderGroups with
  | [] => [group]
  | existingGroup :: rest =>
      if String.eqb (sender existingGroup) (sender group)
      then mkSenderGroup (sender existingGroup)
             (count existingGroup + count group)
             (emails existingGroup ++ emails group)
           :: rest
      else existingGroup :: mergeGroup rest group
  end.

(** [for (let i = ...; i < emailFiles.length; i += chunkSize)], entered with
    the index [i] and the map built so far.  [emailFiles] is the list of the
    files found by the directory walk and [chunkSize] a natural number.  The
    loop has no bound of its own, so the model runs it on [fuel]: [None]
    when the fuel is used up before the loop is left. *)
Fixpoint chunkLoop (fuel : nat) (fs : gmap string string)
    (emailFiles : list string) (chunkSize i : nat)
    (allSenderGroups : list SenderGroup) : option (list SenderGroup) :=
  match fuel with
  | O => None
  | S fuel' =>
      if (i <? List.length emailFiles)%nat then
        (* emailFiles.slice(i, i + chunkSize) *)
        let chunk := firstn chunkSize (skipn i emailFiles) in
        let chunkEmails := omap (extractMetadata fs) chunk in
        let merged :=
          if (0 <? List.length chunkEmails)%nat
          then fold_left mergeGroup (groupEmailsBySender chunkEmails)
                 allSenderGroups
          else allSenderGroups in
        chunkLoop fuel' fs emailFiles chunkSize (i + chunkSize) merged
      else Some allSenderGroups
  end.

Definition processEmailsInChunks (fuel : nat) (fs : gmap string string)
    (emailFiles : list string) (chunkSize : nat) : option (list SenderGroup) :=
  match chunkLoop fuel fs emailFiles chunkSize 0 [] with
  | Some allSenderGroups => Some (sortByCount allSenderGroups)
  | None => None
  end.

End GroupBySender.


(** ** MboxParser.parseFile

    [parseFile] has the external tool [csplit] cut the archive into files
    and lists them with [Deno.readDir]; [pieces] are the contents of these
    files in the order of that listing.  The loop over them is modelled
    here: unlike [parseContent] it neither trims a piece nor skips an empty
    one. *)

Section FileParser.

Variable config : IdentityConfig.

Definition processPiece (st : ParseState) (content : string) : ParseState :=
  match parseEmail content with
  | Some email =>
      if isSelfEmail config email
      then mkParseState (emails st) (S (skippedSelfEmails st))
      else mkParseState (emails st ++ [email]) (skippedSelfEmails st)
  | None => st
  end.

Definition parseFile (pieces : list string) : list EmailData :=
  emails (fold_left processPiece pieces (mkParseState [] 0)).

End FileParser.


(** ** The batch files (create-llm-files)

    The script copies the messages of the output directory into at most
    [TARGET_FILE_COUNT] batch files.  [emailFiles] is the list of the
    files found by the directory walk.  Paths are kept as the script writes
    them, [join(TARGET_DIR, name)] being [llm_ready/name]. *)

Module LlmFiles.

Definition TARGET_DIR : string := "llm_ready".
Definition TARGET_FILE_COUNT : nat := 300.

(** [join(TARGET_DIR, name)] *)
Definition targetPath (name : string) : string := TARGET_DIR +:+ "/" +:+ name.

(** [Math.ceil(n / TARGET_FILE_COUNT)] *)
Definition emailsPerFile (n : nat) : nat :=
  ((n + (TARGET_FILE_COUNT - 1)) / TARGET_FILE_COUNT)%nat.

(** [`emails_batch_${String(num).padStart(3, '0')}.md`] *)
Definition batchName (num : nat) : string :=
  "emails_batch_" +:+ padStart (decimal num) 3 "0" +:+ ".md".

(** [s.replace(pattern, '')] for a pattern that is a text: the first
    occurrence is removed. *)
Definition removeFirst (pattern s : string) : string :=
  let i := JS.indexOf s pattern in
  if i <? 0 then s
  else JS.substring s 0 i +:+ JS.substringFrom s (i + JS.length pattern).

(** [emailFile.split("/").pop()?.replace(".md", "") || "unknown"] *)
Definition referenceName (emailFile : string) : string :=
  let name := removeFirst ".md" (List.last (JS.split "/" emailFile) "") in
  if JS.truthy name then name else "unknown".

(** What a run leaves: the loop was left with [fileCounter] and the disk
    [fs], or a file could not be read and the run stopped with the disk as
    it was then, or the fuel of the model was used up. *)
Inductive Outcome :=
  | Finished (fileCounter : nat) (fs : gmap string string)
  | Threw (fs : gmap string string)
  | OutOfFuel.

(** [for (const emailFile of chunk)]: the text of a batch, [None] when a
    file cannot be read. *)
Fixpoint appendEmails (fs : gmap string string) (chunk : list string)
    (combinedContent : string) : option string :=
  match chunk with
  | [] => Some combinedContent
  | emailFile :: rest =>
      match fs !! emailFile with
      | None => None
      | Some content =>
          let filename := referenceName emailFile in
          appendEmails fs rest
            (combinedContent
             +:+ (nl +:+ "---" +:+ nl +:+ nl +:+ "## Email: " +:+ filename +:+ nl
                  +:+ nl)
             +:+ (content +:+ nl))
      end
  end.

(** The first two lines of a batch. *)
Definition batchHeading (fileCounter chunkLength : nat) : string :=
  ("# Email Batch " +:+ decimal fileCounter +:+ nl +:+ nl)
  +:+ ("This file contains " +:+ decimal chunkLength +:+ " emails from batch "
       +:+ decimal fileCounter +:+ "." +:+ nl +:+ nl).

(** [for (let i = ...; i < emailFiles.length; i += emailsPerFile)], entered
    with the index [i], the counter and the disk. *)
Fixpoint batchLoop (fuel : nat) (emailFiles : list string)
    (emailsPerFile i fileCounter : nat) (fs : gmap string string) : Outcome :=
  match fuel with
  | O => OutOfFuel
  | S fuel' =>
      if (i <? List.length emailFiles)%nat then
        let fileCounter := S fileCounter in
        let chunk := firstn emailsPerFile (skipn i emailFiles) in
        let targetFilePath := targetPath (batchName fileCounter) in
        match appendEmails fs chunk
                (batchHeading fileCounter (List.length chunk)) with
        | None => Threw fs
        | Some combinedContent =>
            batchLoop fuel' emailFiles emailsPerFile (i + emailsPerFile)
              fileCounter (writeTextFile targetFilePath combinedContent fs)
        end
      else Finished fileCounter fs
  end.

Definition indexContent (emailFilesLength fileCounter : nat) : string :=
  "# Email Collection Index" +:+ nl +:+ nl
  +:+ "This collection contains " +:+ decimal emailFilesLength
  +:+ " emails distributed across " +:+ decimal fileCounter +:+ " files."
  +:+ nl +:+ nl +:+ "## Files" +:+ nl +:+ nl
  +:+ JS.join nl
        (map (fun i =>
                let num := (i + 1)%nat in
                "- [Batch " +:+ decimal num +:+ "](./emails_batch_"
                +:+ padStart (decimal num) 3 "0"
                +:+ ".md) - Contains emails from batch " +:+ decimal num)
           (seq 0 fileCounter))
  +:+ nl.

(** [if (await fileExists(source)) await Deno.copyFile(source, target)] *)
Definition copyIfExists (source target : string) (fs : gmap string string)
    : gmap string string :=
  match fs !! source with
  | Some content => writeTextFile target content fs
  | None => fs
  end.

Definition main (fuel : nat) (emailFiles : list string)
    (fs : gmap string string) : Outcome :=
  let emailsPerFile := emailsPerFile (List.length emailFiles) in
  match batchLoop fuel emailFiles emailsPerFile 0 0 fs with
  | Finished fileCounter fs1 =>
      let fs2 :=
        writeTextFile (targetPath "INDEX.md")
          (indexContent (List.length emailFiles) fileCounter) fs1 in
      let fs3 :=
        copyIfExists "./output/email-groups.md" (targetPath "email-groups.md")
          fs2 in
      let fs4 :=
        copyIfExists "./output/sender-groups.md" (targetPath "sender-groups.md")
          fs3 in
      Finished fileCounter fs4
  | other => other
  end.

End LlmFiles.


(** ** The subject report (group-emails)

    The script groups the messages whose subjects share keywords.  A
    similarity is the quotient of two set sizes, computed in floating point
    and compared with the threshold of the command line; the model keeps the
    two sizes, and the comparison [a / b >= threshold] is a parameter. *)

Module GroupEmails.

Record EmailMetadata := mkEmailMetadata {
  subject : string;
  from : string;
  to : string;
  date : string;
  filePath : string
}.

Record EmailGroup := mkEmailGroup {
  name : string;
  count : nat;
  emails : list EmailMetadata;
  keywords : list string
}.

(** [\w] *)
Definition isWordChar (c : ascii) : bool :=
  isLetter c || isDigit c || Ascii.eqb c "_".

(** [/[^\w\s]/g] *)
Definition rePunctuation : regex :=
  Cls (fun c => negb (isWordChar c || isWhite c)).

Definition normalizeText (text : string) : string :=
  JS.trim
    (Regex.replace reSpaces (fun _ _ => " ")
       (Regex.replace rePunctuation (fun _ _ => EmptyString)
          (JS.toLowerCase text))).

Definition stopwords : list string :=
  ["a"; "about"; "above"; "after"; "again"; "against"; "all"; "am"; "an";
   "and"; "any"; "are"; "aren't"; "as"; "at"; "be"; "because"; "been";
   "before"; "being"; "below"; "between"; "both"; "but"; "by"; "can't";
   "cannot"; "could"; "couldn't"; "did"; "didn't"; "do"; "does"; "doesn't";
   "doing"; "don't"; "down"; "during"; "each"; "few"; "for"; "from";
   "further"; "had"; "hadn't"; "has"; "hasn't"; "have"; "haven't";
   "having"; "he"; "he'd"; "he'll"; "he's"; "her"; "here"; "here's";
   "hers"; "herself"; "him"; "himself"; "his"; "how"; "how's"; "i"; "i'd";
   "i'll"; "i'm"; "i've"; "if"; "in"; "into"; "is"; "isn't"; "it"; "it's";
   "its"; "itself"; "let's"; "me"; "more"; "most"; "mustn't"; "my";
   "myself"; "no"; "nor"; "not"; "of"; "off"; "on"; "once"; "only"; "or";
   "other"; "ought"; "our"; "ours"; "ourselves"; "out"; "over"; "own";
   "same"; "shan't"; "she"; "she'd"; "she'll"; "she's"; "should";
   "shouldn't"; "so"; "some"; "such"; "than"; "that"; "that's"; "the";
   "their"; "theirs"; "them"; "themselves"; "then"; "there"; "there's";
   "these"; "they"; "they'd"; "they'll"; "they're"; "they've"; "this";
   "those"; "through"; "to"; "too"; "under"; "until"; "up"; "very"; "was";
   "wasn't"; "we"; "we'd"; "we'll"; "we're"; "we've"; "were"; "weren't";
   "what"; "what's"; "when"; "when's"; "where"; "where's"; "which";
   "while"; "who"; "who's"; "whom"; "why"; "why's"; "with"; "won't";
   "would"; "wouldn't"; "you"; "you'd"; "you'll"; "you're"; "you've";
   "your"; "yours"; "yourself"; "yourselves"; "re"; "fw"].

(** [array.includes(x)] and [set.has(x)] *)
Definition has (l : list string) (x : string) : bool :=
  existsb (String.eqb x) l.

Definition extractKeywords (subject : string) : list string :=
  let normalized := normalizeText subject in
  List.filter
    (fun word => (2 <? String.length word)%nat && negb (has stopwords word))
    (JS.split " " normalized).

(** [new Set(l)]: the elements of [l] without repetition, in the order of
    their first occurrence. *)
Fixpoint uniq (l : list string) : list string :=
  match l with
  | [] => []
  | x :: rest => x :: List.filter (fun y => negb (String.eqb y x)) (uniq rest)
  end.

(** The sizes of the intersection and of the union of two lists of
    keywords taken as sets; the similarity is the first divided by the
    second. *)
Definition overlap (keywords1 keywords2 : list string) : nat * nat :=
  let set1 := uniq keywords1 in
  let set2 := uniq keywords2 in
  let intersection := uniq (List.filter (has set2) set1) in
  let union := uniq (set1 ++ set2) in
  (List.length intersection, List.length union).

(** [calculateSimilarity], as a numerator and a denominator; [return 0] is
    zero over one. *)
Definition calculateSimilarity (subject1 subject2 : string) : nat * nat :=
  let keywords1 := extractKeywords subject1 in
  let keywords2 := extractKeywords subject2 in
  if (List.length keywords1 =? 0)%nat || (List.length keywords2 =? 0)%nat
  then (0%nat, 1%nat)
  else overlap keywords1 keywords2.

(** [for (const keyword of otherKeywords)
       if (!keywords.includes(keyword)) keywords.push(keyword)] *)
Definition addKeywords (keywords otherKeywords : list string) : list string :=
  fold_left (fun ks keyword => if has ks keyword then ks else ks ++ [keyword])
    otherKeywords keywords.

(** [.sort((a, b) => b.count - a.count)], a stable sort. *)
Fixpoint insertByCount (g : EmailGroup) (sorted : list EmailGroup)
    : list EmailGroup :=
  match sorted with
  | [] => [g]
  | h :: t =>
      if (count h <=? count g)%nat then g :: h :: t
      else h :: insertByCount g t
  end.

Definition sortByCount (groups : list EmailGroup) : list EmailGroup :=
  fold_right insertByCount [] groups.

Section Grouping.

(** [atLeast a b] is [a / b >= threshold] in the arithmetic of the
    language. *)
Variable atLeast : nat -> nat -> bool.

(** [calculateSimilarity(subject1, subject2) >= threshold] *)
Definition similar (subject1 subject2 : string) : bool :=
  atLeast (fst (calculateSimilarity subject1 subject2))
    (snd (calculateSimilarity subject1 subject2)).

(** The body of the inner loop of [groupEmails]: [group] is the group
    being built around [email], [processedEmails] the set of the paths of
    the messages that have a group. *)
Definition considerOther (email : EmailMetadata)
    (st : EmailGroup * gset string) (otherEmail : EmailMetadata)
    : EmailGroup * gset string :=
  let group := fst st in
  let processedEmails := snd st in
  if decide (filePath otherEmail ∈ processedEmails) then st
  else if similar (subject email) (subject otherEmail) then
    (mkEmailGroup (name group) (S (count group))
       (emails group ++ [otherEmail])
       (addKeywords (keywords group) (extractKeywords (subject otherEmail))),
     processedEmails ∪ {[filePath otherEmail]})
  else st.

(** The body of the outer loop. *)
Definition startGroup (allEmails : list EmailMetadata)
    (st : list EmailGroup * gset string) (email : EmailMetadata)
    : list EmailGroup * gset string :=
  let groups := fst st in
  let processedEmails := snd st in
  if decide (filePath email ∈ processedEmails) then st
  else
    let built :=
      fold_left (considerOther email) allEmails
        (mkEmailGroup "" 1 [email] (extractKeywords (subject email)),
         processedEmails ∪ {[filePath email]}) in
    let group := fst built in
    let groupName :=
      if (0 <? List.length (keywords group))%nat
      then JS.join " " (firstn 3 (keywords group))
      else "Group " +:+ decimal (List.length groups + 1) in
    (groups ++ [mkEmailGroup groupName (count group) (emails group)
                  (keywords group)],
     snd built).

Definition groupEmails (emails : list EmailMetadata) : list EmailGroup :=
  sortByCount (fst (fold_left (startGroup emails) emails ([], ∅))).

(** [mergeGroups] for one new group: it joins the first existing group
    whose keywords are similar enough, and is appended when there is
    none. *)
Fixpoint mergeGroup (existingGroups : list EmailGroup) (newGroup : EmailGroup)
    : list EmailGroup :=
  match existingGroups with
  | [] => [newGroup]
  | existingGroup :: rest =>
      let sizes := overlap (keywords existingGroup) (keywords newGroup) in
      if atLeast (fst sizes) (snd sizes) then
        mkEmailGroup (name existingGroup)
          (count existingGroup + count newGroup)
          (emails existingGroup ++ emails newGroup)
          (addKeywords (keywords existingGroup) (keywords newGroup))
        :: rest
      else existingGroup :: mergeGroup rest newGroup
  end.

Definition mergeGroups (existingGroups newGroups : list EmailGroup)
    : list EmailGroup :=
  fold_left mergeGroup newGroups existingGroups.

End Grouping.

End GroupEmails.


(** * Vocabulary of the properties *)

(** ** Texts *)

(** Every code unit of [s] satisfies [p]. *)
Fixpoint allChars (p : ascii -> bool) (s : string) : bool :=
  match s with
  | EmptyString => true
  | String c s' => p c && allChars p s'
  end.

(** No newline among the code units of [p]. *)
Definition noLF (p : string) : bool :=
  allChars (fun c => negb (Ascii.eqb c LF)) p.

(** The first, or the last, code unit of [s] is white space. *)
Definition headWhite (s : string) : bool :=
  match s with
  | EmptyString => false
  | String c _ => isWhite c
  end.

Fixpoint lastWhite (s : string) : bool :=
  match s with
  | EmptyString => false
  | String c EmptyString => isWhite c
  | String _ s' => lastWhite s'
  end.

Fixpoint repeatChar (c : ascii) (n : nat) : string :=
  match n with
  | O => EmptyString
  | S n' => String c (repeatChar c n')
  end.

(** [piece] put in front of the first block. *)
Definition prependToFirst (piece : string) (blocks : list string) : list string :=
  match blocks with
  | h :: t => (piece +:+ h) :: t
  | [] => [piece]
  end.

(** ** What the matcher does on the patterns of the program *)

(** [c*] for a class [c], greedy: as many code units as possible, fewer
when what follows fails. *)
Fixpoint starCls (p : ascii -> bool) (k : Regex.mstate -> option Regex.mstate)
    (s : string) (n : nat) (cap : option string) : option Regex.mstate :=
  match s with
  | String c s' =>
      if p c then
        match starCls p k s' (S n) cap with
        | Some res => Some res
        | None => k (Regex.mkState s n cap)
        end
      else k (Regex.mkState s n cap)
  | EmptyString => k (Regex.mkState "" n cap)
  end.

(** [c*?] for a class [c], lazy: as few code units as possible. *)
Fixpoint lazyCls (p : ascii -> bool) (k : Regex.mstate -> option Regex.mstate)
    (s : string) (n : nat) (cap : option string) : option Regex.mstate :=
  match k (Regex.mkState s n cap) with
  | Some res => Some res
  | None =>
      match s with
      | String c s' => if p c then lazyCls p k s' (S n) cap else None
      | EmptyString => None
      end
  end.

(** The delimiter pattern at the start of [s]: a newline followed by [From ]. *)
Definition matchDelimiter (s : string) : option nat :=
  match s with
  | String c rest =>
      if Ascii.eqb c LF && JS.startsWith rest "From " then Some 1%nat else None
  | EmptyString => None
  end.

(** The encoded-word pattern at the start of [s]: the captured payload and
the length of the match.  Both [[^?]+] are followed by a literal [?], so
each is the whole run of code units up to the next [?]. *)
Definition matchEncodedWord (s : string) : option (string * nat) :=
  match s with
  | String c0 (String c1 r1) =>
      if Ascii.eqb c0 "=" && Ascii.eqb c1 "?" then
        let '(charset, r2) := JS.span notQuestion r1 in
        match r2 with
        | String q1 (String e (String q2 r3)) =>
            let '(encoded, r4) := JS.span notQuestion r3 in
            match r4 with
            | String q3 (String c4 _) =>
                if JS.truthy charset && Ascii.eqb q1 "?" && isBQ e
                   && Ascii.eqb q2 "?" && JS.truthy encoded
                   && Ascii.eqb q3 "?" && Ascii.eqb c4 "="
                then Some (encoded,
                           (String.length charset + String.length encoded + 7)%nat)
                else None
            | _ => None
            end
        | _ => None
        end
      else None
  | _ => None
  end.

(** The encoded-word pattern with its replacement. *)
Definition decodeWord (s : string) : option (string * nat) :=
  match matchEncodedWord s with
  | Some (encoded, n) => Some (decodeReplacement (JS.take n s) encoded, n)
  | None => None
  end.

(** The soft-break pattern with its replacement. *)
Definition matchSoftBreak (s : string) : option (string * nat) :=
  match s with
  | String c0 (String c1 r) =>
      if Ascii.eqb c0 "=" then
        if Ascii.eqb c1 CR then
          match r with
          | String c2 _ => if Ascii.eqb c2 LF then Some (EmptyString, 3%nat) else None
          | EmptyString => None
          end
        else if Ascii.eqb c1 LF then Some (EmptyString, 2%nat)
        else None
      else None
  | _ => None
  end.

(** The character an escape [=xy] stands for. *)
Definition hexChar (x y : ascii) : ascii := ascii_of_N (hexVal x * 16 + hexVal y).

(** The hex-escape pattern with its replacement. *)
Definition matchHexEscape (s : string) : option (string * nat) :=
  match s with
  | String c0 (String x (String y _)) =>
      if Ascii.eqb c0 "=" && isHexUpper x && isHexUpper y
      then Some (String (hexChar x y) EmptyString, 3%nat)
      else None
  | _ => None
  end.

(** What may stand inside a parenthesized comment that the pattern takes. *)
Definition inComment (c : ascii) : bool := negb (Ascii.eqb c ")") && isDot c.
Definition notParen (c : ascii) : bool := negb (Ascii.eqb c "(").

(** The comment pattern with its replacement: the lazy repetition stops at
the first closing parenthesis and fails at a line terminator. *)
Definition matchParenComment (s : string) : option (string * nat) :=
  match s with
  | String c rest =>
      if Ascii.eqb c "(" then
        let '(inner, after) := JS.span inComment rest in
        if JS.startsWith after ")"
        then Some (EmptyString, (String.length inner + 2)%nat)
        else None
      else None
  | EmptyString => None
  end.

(** What the matcher [m] answers at each position of [a] does not depend on
the text [t] that follows [a], and no match found in [a] reaches beyond it. *)
Fixpoint stable (m : string -> option (string * nat)) (a t : string) : Prop :=
  match a with
  | EmptyString => True
  | String _ a' =>
      m (a +:+ t) = m a
      /\ (forall r n, m a = Some (r, n) -> (1 <= n <= String.length a)%nat)
      /\ stable m a' t
  end.

(** ** The classifier *)

(** [fragment] occurs in [hay] when both are put in lower case. *)
Definition substringCI (fragment hay : string) : Prop :=
  exists pre post,
    JS.toLowerCase hay = pre +:+ JS.toLowerCase fragment +:+ post.

Section ClassifierVocabulary.

Variable config : IdentityConfig.

(** Clause (a): an ignored-sender fragment occurs in the raw [from] field
or in the display name extracted from it. *)
Definition ignoredSenderMatch (email : EmailData) : Prop :=
  exists sender, In sender (ignoredSenders config) /\
    (substringCI sender (from email) \/
     exists n, extractName (from email) = Some n /\ substringCI sender n).

(** The address extracted from [from] matches a configured address, or the
name extracted from [from] matches a configured name. *)
Definition fromIsMe (email : EmailData) : Prop :=
  (exists addr e, In addr (myEmails config) /\
     extractEmail (from email) = Some e /\ substringCI addr e) \/
  (exists name n, In name (myNames config) /\
     extractName (from email) = Some n /\ substringCI name n).

(** The same for some address or some name extracted from [to]. *)
Definition toIncludesMe (email : EmailData) : Prop :=
  (exists e addr, In e (extractEmails (to email)) /\
     In addr (myEmails config) /\ substringCI addr e) \/
  (exists n name, In n (extractNames (to email)) /\
     In name (myNames config) /\ substringCI name n).

End ClassifierVocabulary.

Definition bounceConfig : IdentityConfig :=
  mkIdentityConfig ["Mail Delivery Subsystem"] [] [].

Definition selfConfig : IdentityConfig := mkIdentityConfig [] ["a@x.com"] [].

Definition mailFromTo (f t : string) : EmailData :=
  mkEmailData "(No Subject)" f t "" "" "" ∅.

(** ** The splitter *)

(** The newline-then-[From ] text the split looks for. *)
Definition delimiter : string := nl +:+ "From ".

(** A well-formed message of an archive: a text that starts with its
delimiter line ([From ] at its very beginning), ends with a newline, and
has no other line that starts with [From ]. *)
Definition wellFormedMessage (m : string) : Prop :=
  exists u, m = u +:+ nl /\
    JS.startsWith m "From " = true /\
    JS.includes m delimiter = false.

(** The archive made of the messages [ms], one after the other. *)
Fixpoint archive (ms : list string) : string :=
  match ms with
  | [] => ""
  | m :: rest => m +:+ archive rest
  end.

(** Plain concatenation of blocks. *)
Definition concatBlocks (blocks : list string) : string := JS.join "" blocks.

(** The blocks [parseContent] hands to [parseEmail]. *)
Definition parsedBlocks (content : string) : list string :=
  List.filter JS.truthy (map JS.trim (splitBlocks content)).

Definition twoMessages : list string :=
  [ "From a" +:+ nl +:+ "x" +:+ nl; "From b" +:+ nl +:+ "y" +:+ nl ].

(** ** Header parsing and record assembly *)

(** Texts without a colon. *)
Definition noColon (s : string) : Prop := JS.includes s ":" = false.

(** [headers[k1] || headers[k2] || ... || dflt] resolves to [v]: the value of
the first listed key that is present with a non-empty value, else the
placeholder. *)
Fixpoint resolves (h : gmap string string) (keys : list string)
    (dflt v : string) : Prop :=
  match keys with
  | [] => v = dflt
  | k :: rest =>
      (h !! k = Some v /\ v <> "")
      \/ ((h !! k = None \/ h !! k = Some "") /\ resolves h rest dflt v)
  end.

(** The key a line starts: the text before its first colon, trimmed. *)
Definition keyOf (line : string) : string :=
  JS.trim (JS.substring line 0 (JS.indexOf line ":")).

(** [k] is not empty and comes from a line of [lines] that is not a
continuation line and has its first colon after its first code unit. *)
Definition keyOrigin (lines : list string) (k : string) : Prop :=
  k <> "" /\
  exists line, In line lines /\ isContinuation line = false
    /\ 0 < JS.indexOf line ":" /\ k = keyOf line.

Definition originInv (lines : list string) (st : HeaderState) : Prop :=
  (forall k v, hs_headers st !! k = Some v -> keyOrigin lines k)
  /\ (currentHeader st <> "" -> keyOrigin lines (currentHeader st)).

(** Two states of the loop that no later step can tell apart: they differ
at most in the value gathered while no header has been started. *)
Definition sameHeaders (s1 s2 : HeaderState) : Prop :=
  hs_headers s1 = hs_headers s2
  /\ currentHeader s1 = currentHeader s2
  /\ (currentHeader s1 <> "" -> currentValue s1 = currentValue s2).

(** A line that starts no header: a continuation line, or a line without a
colon after its first code unit. *)
Definition startsNothing (line : string) : Prop :=
  isContinuation line = true \/ JS.indexOf line ":" <= 0.

(** ** Body and header-word decoding *)

(** The two passes of [cleanBody]. *)
Definition removeSoftBreaks (s : string) : string :=
  Regex.replace reSoftBreak (fun _ _ => EmptyString) s.
Definition decodeHexEscapes (s : string) : string :=
  Regex.replace reHexEscape hexReplacement s.

(** [=?charset?e?payload?=] *)
Definition encodedWord (charset : string) (e : ascii) (payload : string) : string :=
  "=?" +:+ charset +:+ "?" +:+ String e "?" +:+ payload +:+ "?=".

(** The replacement pass of [decodeHeader]. *)
Definition decodeWords (value : string) : string :=
  Regex.replace reEncodedWord decodeReplacement value.

(** The pattern [re] matches at no position of [s]. *)
Definition noMatch (re : regex) (s : string) : Prop :=
  forall pre post, s = pre +:+ post -> Regex.matchAt re post = None.

(** A body written as texts with an escape [=xy] behind each, and a last
text; and the same with each escape replaced by its character. *)
Definition withEscapes (pieces : list (string * ascii * ascii)) (last : string)
    : string :=
  fold_right (fun '(t, x, y) acc => t +:+ String "=" (String x (String y acc)))
    last pieces.

Definition withoutEscapes (pieces : list (string * ascii * ascii)) (last : string)
    : string :=
  fold_right (fun '(t, x, y) acc => t +:+ String (hexChar x y) acc) last pieces.

Definition plainBeforeEscape (piece : string * ascii * ascii) : Prop :=
  let '(t, x, y) := piece in
  noMatch reHexEscape t /\ isHexUpper x = true /\ isHexUpper y = true.

(** The three parts of an encoded word. *)
Record EncodedWord := mkEncodedWord {
  charsetOf : string;
  encodingOf : ascii;
  payloadOf : string
}.

Definition wordText (w : EncodedWord) : string :=
  encodedWord (charsetOf w) (encodingOf w) (payloadOf w).

(** What the decoder leaves in place of the word. *)
Definition wordDecoded (w : EncodedWord) : string :=
  default (wordText w) (atob (payloadOf w)).

Definition wellFormedWord (w : EncodedWord) : Prop :=
  charsetOf w <> "" /\ payloadOf w <> ""
  /\ allChars notQuestion (charsetOf w) = true
  /\ allChars notQuestion (payloadOf w) = true
  /\ isBQ (encodingOf w) = true.

(** A header value written as texts with an encoded word behind each, and
a last text; and the same with each word decoded. *)
Definition withWords (pieces : list (string * EncodedWord)) (last : string)
    : string :=
  fold_right (fun '(t, w) acc => t +:+ wordText w +:+ acc) last pieces.

Definition withWordsDecoded (pieces : list (string * EncodedWord)) (last : string)
    : string :=
  fold_right (fun '(t, w) acc => t +:+ wordDecoded w +:+ acc) last pieces.

Definition plainBeforeWord (piece : string * EncodedWord) : Prop :=
  JS.includes (fst piece) "=?" = false /\ wellFormedWord (snd piece).

(** The replacement pass of [stripParenComments]. *)
Definition removeParenComments (s : string) : string :=
  Regex.replace reParenComment (fun _ _ => EmptyString) s.

(** ** Sample inputs *)

Definition sampleBlock : string :=
  "From alice Mon Jan  1 00:00:00 2024" +:+ nl +:+
  "From: Alice <alice@x.com>" +:+ nl +:+
  "To: Bob <bob@y.org>" +:+ nl +:+
  "Subject: Hi" +:+ nl +:+ nl +:+
  "Caf=E9 =" +:+ nl +:+ "au lait" +:+ nl.

Definition helloWorld : string := "hello" +:+ nl +:+ "world".

Definition noRecipientBlock : string :=
  "From: Alice <alice@x.com>" +:+ nl +:+ "Subject: Hi" +:+ nl +:+ nl +:+ "text".

Definition upperCaseBlock : string :=
  "FROM: Alice <alice@x.com>" +:+ nl +:+ "TO: Bob <bob@y.org>" +:+ nl +:+
  "SUBJECT: Hi" +:+ nl +:+ nl +:+ "text".

Definition upperSubjectBlock : string :=
  "From: Alice <alice@x.com>" +:+ nl +:+ "To: Bob <bob@y.org>" +:+ nl +:+
  "SUBJECT: Hi" +:+ nl +:+ nl +:+ "text".

(** A subject line of 209 code units whose colon is at index 7. *)
Definition longLine : string := "Subject: " +:+ repeatChar "x" 200.

Definition longLineBlock : string :=
  "From: Alice <alice@x.com>" +:+ nl +:+ "To: Bob <bob@y.org>" +:+ nl +:+ longLine.

Definition leadingContinuation : string :=
  " stray: text" +:+ nl +:+ "Subject: a" +:+ nl +:+ " b".

Definition utcExample : string := "Mon, 12 Jan 2023 15:30:45 +0000 (UTC)".

(** A date parser that knows one date only, the RFC 2822 form of
2023-01-12T15:30:45Z, in milliseconds since the epoch. *)
Definition oneDateParse (s : string) : option Z :=
  if String.eqb s "Mon, 12 Jan 2023 15:30:45 +0000" then Some 1673537445000
  else None.

(** ** More on the splitter and the assembly *)

(** The number of positions of [s] where the delimiter starts. *)
Fixpoint countDelimiters (s : string) : nat :=
  ((if JS.startsWith s delimiter then 1 else 0) +
   match s with
   | EmptyString => 0
   | String _ s' => countDelimiters s'
   end)%nat.

(** The records [parseEmail] gets out of the blocks handed to it, in order. *)
Definition parsedRecords (content : string) : list EmailData :=
  omap parseEmail (parsedBlocks content).


(** ** More on the header loop *)

(** A line that starts a header: not a continuation line, with a colon that
    is not its first character. *)
Definition startsHeader (line : string) : bool :=
  negb (isContinuation line) && (0 <? JS.indexOf line ":").

(** The value such a line starts with: what follows its first colon, trimmed. *)
Definition valueOf (line : string) : string :=
  JS.trim (JS.substringFrom line (JS.indexOf line ":" + 1)).

(** The value after the continuation lines [conts] have been added to it. *)
Definition foldedValue (value : string) (conts : list string) : string :=
  fold_left (fun v l => v +:+ " " +:+ JS.trim l) conts value.

(** No line of [lines] starts a header named [k]. *)
Definition noneStarts (k : string) (lines : list string) : bool :=
  forallb (fun l => negb (startsHeader l && String.eqb (keyOf l) k)) lines.

(** [lines] is empty or begins with a line that starts a header. *)
Definition startsAfresh (lines : list string) : bool :=
  match lines with
  | [] => true
  | q :: _ => startsHeader q
  end.

(** Neither the first nor the last code unit of [s] is white space. *)
Definition trimmed (s : string) : Prop :=
  headWhite s = false /\ lastWhite s = false.

(** Every stored value is the result of [decodeHeader]. *)
Definition decodedValues (h : gmap string string) : Prop :=
  forall k v, h !! k = Some v -> exists raw, v = decodeHeader raw.


(** ** More on the classifier *)

(** Every entry of the three lists of [c1] is an entry of the same list of [c2]. *)
Definition configIncluded (c1 c2 : IdentityConfig) : Prop :=
  List.incl (ignoredSenders c1) (ignoredSenders c2)
  /\ List.incl (myEmails c1) (myEmails c2)
  /\ List.incl (myNames c1) (myNames c2).


(** ** File names *)

(** The code units a file name is made of, next to the dots of its
    extension: letters, digits and the hyphen. *)
Definition isSafeChar (c : ascii) : bool :=
  isLetter c || isDigit c || Ascii.eqb c "-".

(** The number a text of decimal digits denotes. *)
Definition readDecimal (s : string) : option nat :=
  option_map Nat.of_uint (NilEmpty.uint_of_string s).

(** The platform functions used by the samples: a parser that knows one
    date, and the printers of that date. *)
Definition sampleISO (t : Z) : string := "2023-01-12T15:30:45.000Z".
Definition sampleLocale (t : Z) : string := "1/12/2023, 3:30:45 PM".
Definition sampleEntries (h : gmap string string) : list (string * string) :=
  map_to_list h.
Definition sampleMail (s : string) : EmailData :=
  mkEmailData s "Ann <ann@x.com>" "bob@y.com" "" "" "Hi" ∅.


(** ** Patterns without capture group *)

Fixpoint groupFree (r : regex) : bool :=
  match r with
  | Eps => true
  | Cls _ => true
  | Seq r1 r2 => groupFree r1 && groupFree r2
  | Alt r1 r2 => groupFree r1 && groupFree r2
  | Star r1 => groupFree r1
  | LazyStar r1 => groupFree r1
  | Group _ => false
  | Ahead _ => true
  end.

(** ** The sender report *)

(** The sender name under which a message is counted. *)
Definition senderOf (email : GroupBySender.EmailMetadata) : string :=
  GroupBySender.extractSenderName (GroupBySender.from email).

(** The messages of [emails] counted under [name], in their order. *)
Definition sentBy (name : string) (emails : list GroupBySender.EmailMetadata)
    : list GroupBySender.EmailMetadata :=
  List.filter (fun email => String.eqb (senderOf email) name) emails.

(** The order of the report: no group before one with a greater count. *)
Definition byDecreasingCount (a b : GroupBySender.SenderGroup) : Prop :=
  (GroupBySender.count b <= GroupBySender.count a)%nat.

(** A group holds exactly the messages of [emails] of its sender, in their
    order, and counts them. *)
Definition groupOf (emails : list GroupBySender.EmailMetadata)
    (g : GroupBySender.SenderGroup) : Prop :=
  GroupBySender.emails g = sentBy (GroupBySender.sender g) emails
  /\ GroupBySender.count g = List.length (GroupBySender.emails g)
  /\ (1 <= GroupBySender.count g)%nat.


(** What the loop of [groupEmailsBySender] keeps true of its map, the
    messages [processed] being those it has seen: no sender has two groups,
    each group is the group of its sender, every sender seen has a group,
    and the counts add up to the number of messages seen. *)
Definition groupsInv (processed : list GroupBySender.EmailMetadata)
    (senderMap : list GroupBySender.SenderGroup) : Prop :=
  List.NoDup (map GroupBySender.sender senderMap)
  /\ Forall (groupOf processed) senderMap
  /\ (forall e, In e processed ->
        In (senderOf e) (map GroupBySender.sender senderMap))
  /\ list_sum (map GroupBySender.count senderMap) = List.length processed.

Definition metaFrom (f : string) : GroupBySender.EmailMetadata :=
  GroupBySender.mkEmailMetadata "s" f "t" "" "p".


(** ** Reading a saved message back *)

(** The pattern of a line of metadata: the label, then the rest of the line. *)
Definition reField (label : string) : regex :=
  Cat [Lit label; Group (Plus (Cls isDot))].

(** [b] and [label] differ at a position both have. *)
Fixpoint clash (b label : string) : bool :=
  match b, label with
  | String x b', String y label' => negb (Ascii.eqb x y) || clash b' label'
  | _, _ => false
  end.

(** [label] starts nowhere in [piece], whatever follows [piece]. *)
Fixpoint clearOf (label piece : string) : bool :=
  match piece with
  | EmptyString => true
  | String _ piece' => clash piece label && clearOf label piece'
  end.

(** A value that fills its line: not empty, without line terminator. *)
Definition plainField (v : string) : bool :=
  JS.truthy v && allChars isDot v.

(** The date as [emailToMarkdown] prints it. *)
Definition formattedDate (dateParse : string -> option Z)
    (toLocaleString : Z -> string) (email : EmailData) : string :=
  match parseDate dateParse (date email) with
  | Some t => toLocaleString t
  | None => date email
  end.


(** ** The date options *)

(** The time value of the date of a message lies in the window from
    [since] (included) to [until] (excluded). *)
Definition inWindow (dateParse : string -> option Z) (since until : Z)
    (email : EmailData) : bool :=
  match parseDate dateParse (date email) with
  | Some d => (since <=? d) && (d <? until)
  | None => false
  end.


(** ** Chunks *)

(** The metadata of the files that [extractMetadata] can read, in order. *)
Definition readable (fs : gmap string string) (files : list string)
    : list GroupBySender.EmailMetadata :=
  omap (GroupBySender.extractMetadata fs) files.

(** A group of the map while the groups [pending] of a chunk are merged
    into it: it holds the messages seen before the chunk when its sender is
    still pending, and those of the chunk as well when it is not. *)
Definition mergingGroup (processed chunk : list GroupBySender.EmailMetadata)
    (pending : list GroupBySender.SenderGroup) (g : GroupBySender.SenderGroup)
    : Prop :=
  GroupBySender.count g = List.length (GroupBySender.emails g)
  /\ (1 <= GroupBySender.count g)%nat
  /\ (In (GroupBySender.sender g) (map GroupBySender.sender pending) ->
      GroupBySender.emails g = sentBy (GroupBySender.sender g) processed)
  /\ (~ In (GroupBySender.sender g) (map GroupBySender.sender pending) ->
      GroupBySender.emails g
      = sentBy (GroupBySender.sender g) (processed ++ chunk)).

(** The report of a list of messages: one group for every sender, each the
    group of its sender, by decreasing count. *)
Definition reportOf (emails : list GroupBySender.EmailMetadata)
    (groups : list GroupBySender.SenderGroup) : Prop :=
  List.NoDup (map GroupBySender.sender groups)
  /\ Forall (groupOf emails) groups
  /\ (forall e, In e emails ->
        In (senderOf e) (map GroupBySender.sender groups))
  /\ list_sum (map GroupBySender.count groups) = List.length emails
  /\ StronglySorted byDecreasingCount groups.


(** ** Batches *)

(** The batch number [j], counted from zero, of files cut into batches of
    [size], and its text as the files of the disk [fs] give it. *)
Definition batchOf (size : nat) (emailFiles : list string) (j : nat)
    : list string :=
  firstn size (skipn (j * size) emailFiles).

Definition batchText (fs : gmap string string) (size : nat)
    (emailFiles : list string) (j : nat) : option string :=
  LlmFiles.appendEmails fs (batchOf size emailFiles j)
    (LlmFiles.batchHeading (S j) (List.length (batchOf size emailFiles j))).


(** ** The subject report *)

(** The code units of a keyword: small letters, digits and the underscore. *)
Definition isKeywordChar (c : ascii) : bool :=
  isLowerAZ c || isDigit c || Ascii.eqb c "_".

(** All the messages of a list of groups, group after group. *)
Definition groupedEmails (groups : list GroupEmails.EmailGroup)
    : list GroupEmails.EmailMetadata :=
  concat (map GroupEmails.emails groups).

(** A group built by [groupEmails]: it counts its messages, and all of
    them but the first are similar enough to the first. *)
Definition seededGroup (atLeast : nat -> nat -> bool)
    (g : GroupEmails.EmailGroup) : Prop :=
  GroupEmails.count g = List.length (GroupEmails.emails g)
  /\ exists seed members,
       GroupEmails.emails g = seed :: members
       /\ Forall (fun other =>
                    GroupEmails.similar atLeast (GroupEmails.subject seed)
                      (GroupEmails.subject other) = true) members.

Definition byDecreasingSize (a b : GroupEmails.EmailGroup) : Prop :=
  (GroupEmails.count b <= GroupEmails.count a)%nat.

(** A threshold of one half on small sizes, for the samples. *)
Definition atLeastHalf (a b : nat) : bool := (0 <? b)%nat && (b <=? 2 * a)%nat.

Definition subjectMeta (s p : string) : GroupEmails.EmailMetadata :=
  GroupEmails.mkEmailMetadata s "f" "t" "" p.


(** What the inner loop of [groupEmails] keeps true of the group it builds
    around [seed] and of the set of the paths that have a group, [before]
    being that set when the group was started. *)
Definition innerInv (atLeast : nat -> nat -> bool)
    (allEmails : list GroupEmails.EmailMetadata) (before : gset string)
    (seed : GroupEmails.EmailMetadata)
    (st : GroupEmails.EmailGroup * gset string) : Prop :=
  (forall p, p ∈ snd st
             <-> p ∈ before
                 \/ In p (map GroupEmails.filePath (GroupEmails.emails (fst st))))
  /\ List.NoDup (map GroupEmails.filePath (GroupEmails.emails (fst st)))
  /\ (forall e, In e (GroupEmails.emails (fst st)) -> In e allEmails)
  /\ (forall e, In e (GroupEmails.emails (fst st)) ->
        GroupEmails.filePath e ∉ before)
  /\ GroupEmails.count (fst st) = List.length (GroupEmails.emails (fst st))
  /\ exists members,
       GroupEmails.emails (fst st) = seed :: members
       /\ Forall (fun other =>
                    GroupEmails.similar atLeast (GroupEmails.subject seed)
                      (GroupEmails.subject other) = true) members.

(** And what the outer loop keeps true of the groups and of that set. *)
Definition outerInv (atLeast : nat -> nat -> bool)
    (allEmails : list GroupEmails.EmailMetadata)
    (st : list GroupEmails.EmailGroup * gset string) : Prop :=
  (forall p, p ∈ snd st
             <-> In p (map GroupEmails.filePath (groupedEmails (fst st))))
  /\ List.NoDup (map GroupEmails.filePath (groupedEmails (fst st)))
  /\ (forall e, In e (groupedEmails (fst st)) -> In e allEmails)
  /\ Forall (seededGroup atLeast) (fst st).


(** ** More on the fallback scan *)

(** A line the fallback scan takes for a header line. *)
Definition headerLike (line : string) : bool :=
  negb (isContinuation line) && JS.includes line ":" && (JS.length line <? 200).

(** No comma in [s]. *)
Definition noComma (s : string) : bool :=
  allChars (fun c => negb (Ascii.eqb c ",")) s.

(** * Properties *)

(** ** Strings *)

Lemma app_cons c (s t : string) : String c s +:+ t = String c (s +:+ t).
Proof. reflexivity. Qed.

Lemma app_empty_l (s : string) : "" +:+ s = s.
Proof. reflexivity. Qed.

Lemma app_empty_r (s : string) : s +:+ "" = s.
Proof. induction s as [|c s IH]; [reflexivity|]. rewrite app_cons, IH. reflexivity. Qed.

Lemma app_assoc_s (a b c : string) : (a +:+ b) +:+ c = a +:+ b +:+ c.
Proof.
  induction a as [|x a IH]; [reflexivity|].
  rewrite !app_cons, IH. reflexivity.
Qed.

Lemma app_length_s (a b : string) :
  String.length (a +:+ b) = (String.length a + String.length b)%nat.
Proof.
  induction a as [|x a IH]; [reflexivity|].
  rewrite app_cons. simpl. rewrite IH. reflexivity.
Qed.

Lemma app_eq_empty (a b : string) : a +:+ b = "" -> a = "" /\ b = "".
Proof. destruct a; [auto|]. rewrite app_cons. discriminate. Qed.

Lemma ascii_eqb_true (a b : ascii) : Ascii.eqb a b = true <-> a = b.
Proof. apply Ascii.eqb_eq. Qed.

Lemma startsWith_spec (s p : string) :
  JS.startsWith s p = true <-> exists post, s = p +:+ post.
Proof.
  revert s. induction p as [|b p IH]; intros s.
  - split; [intros _; exists s; reflexivity | destruct s; reflexivity].
  - destruct s as [|a s]; simpl.
    + split; [discriminate | intros [post H]; rewrite app_cons in H; discriminate].
    + rewrite andb_true_iff, ascii_eqb_true, IH. split.
      * intros [-> [post ->]]. exists post. reflexivity.
      * intros [post H]. rewrite app_cons in H. injection H as -> ->. eauto.
Qed.

(** [includes] is the substring test. *)
Lemma includes_spec (s p : string) :
  JS.includes s p = true <-> exists pre post, s = pre +:+ p +:+ post.
Proof.
  induction s as [|a s IH].
  - change (JS.includes "" p) with (JS.startsWith "" p || false).
    rewrite orb_true_iff. split.
    + intros [H | H]; [|discriminate].
      apply startsWith_spec in H as [post H]. exists "", post. exact H.
    + intros [pre [post H]]. left. apply startsWith_spec.
      symmetry in H. apply app_eq_empty in H as [-> H]. exists post.
      symmetry. exact H.
  - change (JS.includes (String a s) p)
      with (JS.startsWith (String a s) p || JS.includes s p).
    rewrite orb_true_iff, IH. split.
    + intros [H | [pre [post H]]].
      * apply startsWith_spec in H as [post H]. exists "", post. exact H.
      * exists (String a pre), post. rewrite app_cons, H. reflexivity.
    + intros [pre [post H]]. destruct pre as [|x pre].
      * left. apply startsWith_spec. exists post. exact H.
      * right. rewrite app_cons in H. injection H as _ H. eauto.
Qed.

Lemma toLowerCase_empty (s : string) : JS.toLowerCase s = "" -> s = "".
Proof. destruct s; [reflexivity | discriminate]. Qed.

Lemma truthy_false (s : string) : JS.truthy s = false <-> s = "".
Proof. destruct s; simpl; split; (reflexivity || discriminate). Qed.

Lemma truthy_true (s : string) : JS.truthy s = true <-> s <> "".
Proof.
  destruct s; simpl; split; try reflexivity; try discriminate; try congruence.
Qed.

Lemma includes_unfold (s p : string) :
  JS.includes s p =
  JS.startsWith s p ||
  match s with EmptyString => false | String _ s' => JS.includes s' p end.
Proof. destruct s; reflexivity. Qed.

Lemma indexOf_unfold (s p : string) :
  JS.indexOf s p =
  if JS.startsWith s p then 0
  else match s with
       | EmptyString => -1
       | String _ s' => let r := JS.indexOf s' p in if r <? 0 then -1 else r + 1
       end.
Proof. destruct s; reflexivity. Qed.

Lemma indexOf_missing_iff (s p : string) :
  JS.includes s p = false -> JS.indexOf s p = -1.
Proof.
  induction s as [|c s IH]; rewrite includes_unfold, indexOf_unfold;
    intros H; apply orb_false_iff in H as [-> H]; [reflexivity|].
  cbv zeta. rewrite (IH H). reflexivity.
Qed.

Lemma indexOf_range (s p : string) : -1 <= JS.indexOf s p.
Proof.
  induction s as [|c s IH]; rewrite indexOf_unfold;
    destruct (JS.startsWith _ p); try lia.
  cbv zeta. destruct (JS.indexOf s p <? 0) eqn:E; lia.
Qed.

Lemma includes_drop (n : nat) (s p : string) :
  JS.includes s p = false -> JS.includes (JS.drop n s) p = false.
Proof.
  revert s. induction n as [|n IH]; intros s H; [destruct s; exact H|].
  destruct s as [|c s]; [exact H|]. simpl JS.drop. apply IH.
  rewrite includes_unfold in H. apply orb_false_iff in H as [_ H]. exact H.
Qed.

Lemma includes_cons_false (c : ascii) (s p : string) :
  JS.includes (String c s) p = false ->
  JS.startsWith (String c s) p = false /\ JS.includes s p = false.
Proof.
  change (JS.includes (String c s) p)
    with (JS.startsWith (String c s) p || JS.includes s p).
  apply orb_false_iff.
Qed.

Lemma split_cons (sep c : ascii) (s : string) :
  JS.split sep (String c s) =
  if Ascii.eqb c sep then "" :: JS.split sep s
  else prependToFirst (String c "") (JS.split sep s).
Proof.
  simpl. destruct (Ascii.eqb c sep); [reflexivity|].
  destruct (JS.split sep s); reflexivity.
Qed.

Lemma split_nonempty (sep : ascii) (s : string) : JS.split sep s <> [].
Proof.
  destruct s as [|c s]; [discriminate|]. rewrite split_cons.
  destruct (Ascii.eqb c sep); [discriminate|].
  destruct (JS.split sep s); discriminate.
Qed.

Lemma span_run (p : ascii -> bool) (run : string) (c : ascii) (rest : string) :
  allChars p run = true -> p c = false ->
  JS.span p (run +:+ String c rest) = (run, String c rest).
Proof.
  intros Hrun Hc. induction run as [|x run IH].
  - change ("" +:+ String c rest) with (String c rest). simpl. rewrite Hc.
    reflexivity.
  - rewrite app_cons. simpl in *. apply andb_true_iff in Hrun as [-> Hrun].
    rewrite (IH Hrun). reflexivity.
Qed.

Lemma take_app_exact (w rest : string) : JS.take (String.length w) (w +:+ rest) = w.
Proof.
  induction w as [|c w IH]; [destruct rest; reflexivity|].
  rewrite app_cons. simpl. rewrite IH. reflexivity.
Qed.

Lemma span_eq (p : ascii -> bool) (s : string) :
  s = fst (JS.span p s) +:+ snd (JS.span p s).
Proof.
  induction s as [|c s IH]; [reflexivity|]. simpl.
  destruct (p c); [|reflexivity].
  destruct (JS.span p s) as [a b]. simpl in *. rewrite app_cons, <- IH.
  reflexivity.
Qed.

Lemma take_span (p : ascii -> bool) (s : string) :
  JS.take (String.length (fst (JS.span p s))) s = fst (JS.span p s).
Proof.
  induction s as [|c s IH]; [reflexivity|]. simpl.
  destruct (p c); [|reflexivity]. destruct (JS.span p s) as [a b]. simpl in *.
  rewrite IH. reflexivity.
Qed.

Lemma startsWith_empty (s : string) : JS.startsWith s "" = true.
Proof. destruct s; reflexivity. Qed.

(** ** The matcher *)

Lemma exec_eps (st : Regex.mstate) (k : Regex.mstate -> option Regex.mstate) :
  Regex.exec Eps st k = k st.
Proof. reflexivity. Qed.

Lemma exec_seq (r1 r2 : regex) (st : Regex.mstate)
    (k : Regex.mstate -> option Regex.mstate) :
  Regex.exec (Seq r1 r2) st k
  = Regex.exec r1 st (fun st' => Regex.exec r2 st' k).
Proof. reflexivity. Qed.

Lemma exec_alt (r1 r2 : regex) (st : Regex.mstate)
    (k : Regex.mstate -> option Regex.mstate) :
  Regex.exec (Alt r1 r2) st k
  = match Regex.exec r1 st k with
    | Some res => Some res
    | None => Regex.exec r2 st k
    end.
Proof. reflexivity. Qed.

Lemma exec_group (r : regex) (st : Regex.mstate)
    (k : Regex.mstate -> option Regex.mstate) :
  Regex.exec (Group r) st k
  = Regex.exec r st (fun st' => k (Regex.setCapture st st')).
Proof. reflexivity. Qed.

Lemma exec_ahead (r : regex) (st : Regex.mstate)
    (k : Regex.mstate -> option Regex.mstate) :
  Regex.exec (Ahead r) st k
  = match Regex.exec r st Some with
    | Some _ => k st
    | None => None
    end.
Proof. reflexivity. Qed.

Lemma exec_cls_cons (p : ascii -> bool) (c : ascii) (s : string) (n : nat)
    (cap : option string) (k : Regex.mstate -> option Regex.mstate) :
  Regex.exec (Cls p) (Regex.mkState (String c s) n cap) k
  = if p c then k (Regex.mkState s (S n) cap) else None.
Proof. reflexivity. Qed.

Lemma exec_cls_nil (p : ascii -> bool) (n : nat) (cap : option string)
    (k : Regex.mstate -> option Regex.mstate) :
  Regex.exec (Cls p) (Regex.mkState "" n cap) k = None.
Proof. reflexivity. Qed.

Lemma exec_chr_cons (x c : ascii) (s : string) (n : nat)
    (cap : option string) (k : Regex.mstate -> option Regex.mstate) :
  Regex.exec (Chr x) (Regex.mkState (String c s) n cap) k
  = if Ascii.eqb c x then k (Regex.mkState s (S n) cap) else None.
Proof. reflexivity. Qed.

Lemma exec_chr_nil (x : ascii) (n : nat) (cap : option string)
    (k : Regex.mstate -> option Regex.mstate) :
  Regex.exec (Chr x) (Regex.mkState "" n cap) k = None.
Proof. reflexivity. Qed.

(** The greedy repetition of a class runs like [starCls]. *)
Lemma exec_star_cls (p : ascii -> bool) (st : Regex.mstate)
    (k : Regex.mstate -> option Regex.mstate) :
  Regex.exec (Star (Cls p)) st k
  = starCls p k (Regex.rest st) (Regex.consumed st) (Regex.capture st).
Proof.
  destruct st as [s n cap]. simpl.
  generalize (Nat.le_refl (String.length s)).
  generalize (String.length s) at 2 3. intros fuel. revert n fuel.
  induction s as [|c s IH]; intros n fuel Hf.
  - destruct fuel; reflexivity.
  - destruct fuel as [|fuel]; [simpl in Hf; lia|]. simpl.
    destruct (p c); [|reflexivity].
    unfold Regex.advance. simpl.
    assert ((n <? S n)%nat = true) as -> by (apply Nat.ltb_lt; lia).
    rewrite IH by (simpl in Hf; lia). reflexivity.
Qed.

(** The lazy repetition of a class runs like [lazyCls]. *)
Lemma exec_lazy_cls (p : ascii -> bool) (st : Regex.mstate)
    (k : Regex.mstate -> option Regex.mstate) :
  Regex.exec (LazyStar (Cls p)) st k
  = lazyCls p k (Regex.rest st) (Regex.consumed st) (Regex.capture st).
Proof.
  destruct st as [s n cap]. simpl.
  generalize (Nat.le_refl (String.length s)).
  generalize (String.length s) at 2 3. intros fuel. revert n fuel.
  induction s as [|c s IH]; intros n fuel Hf.
  - destruct fuel; simpl; destruct (k _); reflexivity.
  - destruct fuel as [|fuel]; [simpl in Hf; lia|]. simpl.
    destruct (k _); [reflexivity|].
    destruct (p c); [|reflexivity].
    unfold Regex.advance. simpl.
    assert ((n <? S n)%nat = true) as -> by (apply Nat.ltb_lt; lia).
    rewrite IH by (simpl in Hf; lia). reflexivity.
Qed.

Arguments Regex.exec : simpl never.

(** When what follows cannot start with a code unit of the class, the
greedy repetition takes the whole run and nothing is given back. *)
Lemma starCls_blocked (p : ascii -> bool) (k : Regex.mstate -> option Regex.mstate)
    (s : string) (n : nat) (cap : option string) :
  (forall c s' n', p c = true -> k (Regex.mkState (String c s') n' cap) = None) ->
  starCls p k s n cap
  = k (Regex.mkState (snd (JS.span p s))
         (n + String.length (fst (JS.span p s))) cap).
Proof.
  intros Hk. revert n. induction s as [|c s IH]; intros n.
  - simpl. rewrite Nat.add_0_r. reflexivity.
  - simpl. destruct (p c) eqn:Hc.
    + rewrite IH. destruct (JS.span p s) as [a b]. simpl.
      replace (n + S (String.length a))%nat with (S (n + String.length a)) by lia.
      destruct (k (Regex.mkState b (S (n + String.length a)) cap)) eqn:E;
        [reflexivity|].
      apply (Hk c s n Hc).
    + simpl. rewrite Nat.add_0_r. reflexivity.
Qed.

Lemma exec_plus_cls (p : ascii -> bool) (s : string) (n : nat)
    (cap : option string) (k : Regex.mstate -> option Regex.mstate) :
  (forall c s' n', p c = true -> k (Regex.mkState (String c s') n' cap) = None) ->
  Regex.exec (Plus (Cls p)) (Regex.mkState s n cap) k
  = if JS.truthy (fst (JS.span p s))
    then k (Regex.mkState (snd (JS.span p s))
              (n + String.length (fst (JS.span p s))) cap)
    else None.
Proof.
  intros Hk. unfold Plus. rewrite exec_seq.
  destruct s as [|c s]; [reflexivity|]. rewrite exec_cls_cons. simpl JS.span.
  destruct (p c) eqn:Hc; [|reflexivity].
  rewrite exec_star_cls. simpl Regex.rest. simpl Regex.consumed.
  simpl Regex.capture. rewrite starCls_blocked by exact Hk.
  destruct (JS.span p s) as [a b]. simpl.
  replace (n + S (String.length a))%nat with (S (n + String.length a)) by lia.
  reflexivity.
Qed.

(** A literal text matches when the input starts with it. *)
Lemma exec_lit (p s : string) (n : nat) (cap : option string)
    (k : Regex.mstate -> option Regex.mstate) :
  Regex.exec (Lit p) (Regex.mkState s n cap) k
  = if JS.startsWith s p
    then k (Regex.mkState (JS.drop (String.length p) s) (n + String.length p) cap)
    else None.
Proof.
  revert s n. induction p as [|b p IH]; intros s n.
  - simpl Lit. rewrite exec_eps, startsWith_empty. simpl. rewrite Nat.add_0_r.
    destruct s; reflexivity.
  - simpl Lit. rewrite exec_seq. destruct s as [|a s]; [reflexivity|].
    rewrite exec_chr_cons. simpl JS.startsWith.
    destruct (Ascii.eqb a b); [|reflexivity]. rewrite IH. simpl.
    replace (n + S (String.length p))%nat with (S n + String.length p)%nat by lia.
    reflexivity.
Qed.

(** ** The patterns of the program *)

Ltac exec_step :=
  rewrite ?exec_seq, ?exec_alt, ?exec_group, ?exec_chr_cons, ?exec_chr_nil,
    ?exec_cls_cons, ?exec_cls_nil, ?exec_eps; cbv beta.

Lemma replacer_softBreak (s : string) :
  Regex.replacer reSoftBreak (fun _ _ => EmptyString) s = matchSoftBreak s.
Proof.
  unfold Regex.replacer, Regex.matchAt, reSoftBreak, Cat, Opt. simpl fold_right.
  destruct s as [|c0 [|c1 r]]; repeat exec_step; try reflexivity.
  - destruct (Ascii.eqb c0 "="); repeat exec_step; reflexivity.
  - unfold matchSoftBreak. destruct (Ascii.eqb c0 "="); repeat exec_step;
      [|reflexivity].
    destruct (Ascii.eqb_spec c1 CR) as [-> | Hcr]; repeat exec_step.
    + destruct r as [|c2 r]; repeat exec_step; [reflexivity|].
      destruct (Ascii.eqb c2 LF); repeat exec_step; reflexivity.
    + destruct (Ascii.eqb c1 LF); repeat exec_step; reflexivity.
Qed.

Lemma replacer_hexEscape (s : string) :
  Regex.replacer reHexEscape hexReplacement s = matchHexEscape s.
Proof.
  unfold Regex.replacer, Regex.matchAt, reHexEscape, Cat. simpl fold_right.
  destruct s as [|c0 [|x [|y r]]]; repeat exec_step; try reflexivity.
  - destruct (Ascii.eqb c0 "="); repeat exec_step; reflexivity.
  - destruct (Ascii.eqb c0 "="); repeat exec_step; [|reflexivity].
    destruct (isHexUpper x); repeat exec_step; reflexivity.
  - unfold matchHexEscape.
    destruct (Ascii.eqb c0 "="); repeat exec_step; [|reflexivity].
    destruct (isHexUpper x); repeat exec_step; [|reflexivity].
    destruct (isHexUpper y); repeat exec_step; reflexivity.
Qed.

Lemma notQuestion_blocks (c : ascii) (s : string) (n : nat) (cap : option string)
    (r : regex) (k : Regex.mstate -> option Regex.mstate) :
  notQuestion c = true ->
  Regex.exec (Seq (Chr "?") r) (Regex.mkState (String c s) n cap) k = None.
Proof.
  intros Hc. rewrite exec_seq, exec_chr_cons.
  unfold notQuestion in Hc. apply negb_true_iff in Hc. rewrite Hc. reflexivity.
Qed.

Lemma matchAt_encodedWord (s : string) :
  Regex.matchAt reEncodedWord s =
  match matchEncodedWord s with
  | Some (encoded, n) => Some (n, encoded)
  | None => None
  end.
Proof.
  unfold Regex.matchAt, reEncodedWord, Cat. simpl fold_right.
  destruct s as [|c0 [|c1 r1]].
  - reflexivity.
  - rewrite exec_seq, exec_chr_cons. destruct (Ascii.eqb c0 "="); [|reflexivity].
    rewrite exec_seq. reflexivity.
  - rewrite exec_seq, exec_chr_cons. unfold matchEncodedWord.
    destruct (Ascii.eqb c0 "="); [|reflexivity].
    rewrite exec_seq, exec_chr_cons. destruct (Ascii.eqb c1 "?"); [|reflexivity].
    simpl andb. cbv iota.
    rewrite exec_seq, exec_plus_cls
      by (intros; apply notQuestion_blocks; assumption).
    destruct (JS.span notQuestion r1) as [charset r2]. simpl fst. simpl snd.
    destruct (JS.truthy charset) eqn:Hcs.
    2:{ destruct r2 as [|q1 [|e [|q2 r3]]]; try reflexivity.
        destruct (JS.span notQuestion r3) as [encoded r4].
        destruct r4 as [|q3 [|c4 r5]]; reflexivity. }
    destruct r2 as [|q1 r2]; [reflexivity|].
    rewrite exec_seq, exec_chr_cons.
    destruct (Ascii.eqb q1 "?") eqn:Hq1.
    2:{ destruct r2 as [|e [|q2 r3]]; try reflexivity.
        destruct (JS.span notQuestion r3) as [encoded r4].
        destruct r4 as [|q3 [|c4 r5]]; reflexivity. }
    destruct r2 as [|e r2]; [reflexivity|].
    rewrite exec_seq, exec_cls_cons.
    destruct (isBQ e) eqn:He.
    2:{ destruct r2 as [|q2 r3]; try reflexivity.
        destruct (JS.span notQuestion r3) as [encoded r4].
        destruct r4 as [|q3 [|c4 r5]]; reflexivity. }
    destruct r2 as [|q2 r3]; [reflexivity|].
    rewrite exec_seq, exec_chr_cons.
    destruct (Ascii.eqb q2 "?") eqn:Hq2.
    2:{ destruct (JS.span notQuestion r3) as [encoded r4].
        destruct r4 as [|q3 [|c4 r5]]; reflexivity. }
    rewrite exec_seq, exec_group, exec_plus_cls
      by (intros; unfold Regex.setCapture; simpl;
          apply notQuestion_blocks; assumption).
    pose proof (take_span notQuestion r3) as Ht.
    destruct (JS.span notQuestion r3) as [encoded r4]. simpl fst in *. simpl snd in *.
    destruct (JS.truthy encoded) eqn:Hen.
    2:{ destruct r4 as [|q3 [|c4 r5]]; reflexivity. }
    unfold Regex.setCapture. simpl Regex.rest. simpl Regex.consumed.
    destruct r4 as [|q3 r4]; [reflexivity|].
    rewrite exec_seq, exec_chr_cons.
    destruct (Ascii.eqb q3 "?"); [|destruct r4; reflexivity].
    destruct r4 as [|c4 r5]; [reflexivity|].
    rewrite exec_seq, exec_chr_cons. destruct (Ascii.eqb c4 "="); [|reflexivity].
    rewrite exec_eps. simpl.
    replace (String.length charset + String.length encoded - String.length charset)%nat
      with (String.length encoded) by lia.
    rewrite Ht. repeat f_equal. lia.
Qed.

Lemma replacer_encodedWord (s : string) :
  Regex.replacer reEncodedWord decodeReplacement s = decodeWord s.
Proof.
  unfold Regex.replacer, decodeWord. rewrite matchAt_encodedWord.
  destruct (matchEncodedWord s) as [[encoded n]|]; reflexivity.
Qed.

(** The lazy repetition of [.] in front of a closing parenthesis. *)
Lemma lazyCls_paren (s : string) (n : nat) (cap : option string) :
  lazyCls isDot (fun st => Regex.exec (Seq (Chr ")") Eps) st Some) s n cap
  = if JS.startsWith (snd (JS.span inComment s)) ")"
    then Some (Regex.mkState (JS.drop 1 (snd (JS.span inComment s)))
                 (S (n + String.length (fst (JS.span inComment s)))) cap)
    else None.
Proof.
  revert n. induction s as [|c s IH]; intros n; [reflexivity|].
  simpl lazyCls. rewrite exec_seq, exec_chr_cons. simpl JS.span.
  assert (inComment c = negb (Ascii.eqb c ")") && isDot c) as Hin by reflexivity.
  destruct (Ascii.eqb c ")") eqn:Hc.
  - rewrite exec_eps, Hin. simpl. rewrite Hc, startsWith_empty, Nat.add_0_r.
    reflexivity.
  - simpl in Hin. rewrite Hin. destruct (isDot c).
    + rewrite IH. destruct (JS.span inComment s) as [a b]. simpl.
      replace (n + S (String.length a))%nat with (S (n + String.length a)) by lia.
      reflexivity.
    + simpl. rewrite Hc. reflexivity.
Qed.

Lemma replacer_parenComment (s : string) :
  Regex.replacer reParenComment (fun _ _ => EmptyString) s = matchParenComment s.
Proof.
  unfold Regex.replacer, Regex.matchAt, reParenComment, Cat. simpl fold_right.
  destruct s as [|c rest]; [reflexivity|].
  rewrite exec_seq, exec_chr_cons. unfold matchParenComment.
  destruct (Ascii.eqb c "("); [|reflexivity].
  rewrite exec_seq, exec_lazy_cls. simpl Regex.rest. simpl Regex.consumed.
  simpl Regex.capture. rewrite lazyCls_paren.
  destruct (JS.span inComment rest) as [inner after]. simpl fst. simpl snd.
  destruct (JS.startsWith after ")"); [|reflexivity].
  simpl. repeat f_equal. lia.
Qed.

Lemma splitter_delimiter (s : string) :
  Regex.splitter reDelimiter s = matchDelimiter s.
Proof.
  unfold Regex.splitter, Regex.matchAt, reDelimiter. cbv [Cat fold_right].
  destruct s as [|c rest]; [reflexivity|].
  rewrite exec_seq, exec_chr_cons. unfold matchDelimiter.
  destruct (Ascii.eqb c LF); [|reflexivity].
  rewrite exec_seq, exec_ahead, exec_lit.
  destruct (JS.startsWith rest "From "); [|reflexivity].
  rewrite exec_eps. reflexivity.
Qed.

(** ** Global replacement and splitting *)

Lemma replaceAllFrom_ext (m1 m2 : string -> option (string * nat)) :
  (forall s, m1 s = m2 s) ->
  forall s k, JS.replaceAllFrom m1 k s = JS.replaceAllFrom m2 k s.
Proof.
  intros H s. induction s as [|c s IH]; intros k; [reflexivity|].
  simpl. destruct k as [|k]; [|apply IH].
  rewrite H. destruct (m2 (String c s)) as [[r n]|]; rewrite IH; reflexivity.
Qed.

Lemma splitAllFrom_ext (m1 m2 : string -> option nat) :
  (forall s, m1 s = m2 s) ->
  forall s k, JS.splitAllFrom m1 k s = JS.splitAllFrom m2 k s.
Proof.
  intros H s. induction s as [|c s IH]; intros k; [reflexivity|].
  simpl. destruct k as [|k]; [|apply IH].
  rewrite H. destruct (m2 (String c s)) as [[|n]|]; rewrite IH; reflexivity.
Qed.

Lemma removeSoftBreaks_direct (s : string) :
  removeSoftBreaks s = JS.replaceAll matchSoftBreak s.
Proof. apply replaceAllFrom_ext, replacer_softBreak. Qed.

Lemma decodeHexEscapes_direct (s : string) :
  decodeHexEscapes s = JS.replaceAll matchHexEscape s.
Proof. apply replaceAllFrom_ext, replacer_hexEscape. Qed.

Lemma decodeWords_direct (s : string) :
  decodeWords s = JS.replaceAll decodeWord s.
Proof. apply replaceAllFrom_ext, replacer_encodedWord. Qed.

Lemma removeParenComments_direct (s : string) :
  removeParenComments s = JS.replaceAll matchParenComment s.
Proof. apply replaceAllFrom_ext, replacer_parenComment. Qed.

Lemma splitBlocks_direct (s : string) :
  splitBlocks s = JS.splitAll matchDelimiter s.
Proof. apply splitAllFrom_ext, splitter_delimiter. Qed.
Section ReplaceAll.

Variable m : string -> option (string * nat).

Lemma replaceAllFrom_skip (w rest : string) :
  JS.replaceAllFrom m (String.length w) (w +:+ rest) = JS.replaceAll m rest.
Proof.
  induction w as [|c w IH]; [destruct rest; reflexivity|].
  rewrite app_cons. simpl. exact IH.
Qed.

(** A match at the very start is replaced, and the search goes on behind it. *)
Lemma replaceAll_match (w rest r : string) :
  w <> "" -> m (w +:+ rest) = Some (r, String.length w) ->
  JS.replaceAll m (w +:+ rest) = r +:+ JS.replaceAll m rest.
Proof.
  intros Hw Hm. destruct w as [|c w]; [contradiction|].
  unfold JS.replaceAll at 1. rewrite app_cons in *. simpl.
  rewrite Hm. simpl. rewrite replaceAllFrom_skip. reflexivity.
Qed.

Lemma replaceAllFrom_app (a t : string) (k : nat) :
  (k <= String.length a)%nat -> stable m a t ->
  JS.replaceAllFrom m k (a +:+ t)
  = JS.replaceAllFrom m k a +:+ JS.replaceAll m t.
Proof.
  revert k. induction a as [|c a IH]; intros k Hk Hst.
  - simpl in Hk. assert (k = 0%nat) as -> by lia. destruct t; reflexivity.
  - destruct Hst as [Hm [Hb Hst]]. rewrite app_cons.
    destruct k as [|k].
    + simpl. rewrite <- app_cons, Hm.
      destruct (m (String c a)) as [[r n]|] eqn:E.
      * destruct (Hb r n eq_refl) as [H1 H2]. simpl in H2.
        rewrite IH by (assumption || lia). rewrite app_assoc_s. reflexivity.
      * rewrite IH by (assumption || lia). reflexivity.
    + simpl. simpl in Hk. apply IH; [lia | exact Hst].
Qed.

Lemma replaceAll_app (a t : string) :
  stable m a t -> JS.replaceAll m (a +:+ t) = JS.replaceAll m a +:+ JS.replaceAll m t.
Proof. intros H. apply replaceAllFrom_app; [lia | exact H]. Qed.

(** Where the matcher finds nothing, nothing is replaced. *)
Lemma replaceAll_none (a : string) :
  (forall pre post, a = pre +:+ post -> m post = None) ->
  JS.replaceAll m a = a.
Proof.
  induction a as [|c a IH]; intros H; [reflexivity|].
  unfold JS.replaceAll in *. simpl. rewrite (H "" (String c a) eq_refl).
  rewrite IH; [reflexivity|]. intros pre post ->. apply (H (String c pre)).
  reflexivity.
Qed.

End ReplaceAll.

Lemma replace_noMatch (re : regex) (f : string -> string -> string) (s : string) :
  noMatch re s -> Regex.replace re f s = s.
Proof.
  intros H. unfold Regex.replace. apply replaceAll_none.
  intros pre post Hs. unfold Regex.replacer. rewrite (H pre post Hs). reflexivity.
Qed.

Lemma splitBlocks_cons (c : ascii) (rest : string) :
  splitBlocks (String c rest) =
  if Ascii.eqb c LF && JS.startsWith rest "From "
  then "" :: splitBlocks rest
  else prependToFirst (String c "") (splitBlocks rest).
Proof.
  rewrite !splitBlocks_direct. unfold JS.splitAll. simpl.
  destruct (Ascii.eqb c LF && JS.startsWith rest "From "); [reflexivity|].
  destruct (JS.splitAllFrom matchDelimiter 0 rest); reflexivity.
Qed.

(** ** Trimming *)

Lemma trimStart_spec (s : string) :
  exists l, s = l +:+ JS.trimStart s /\ allChars isWhite l = true
    /\ headWhite (JS.trimStart s) = false.
Proof.
  induction s as [|c s [l [Hs [Hl Hh]]]].
  - exists "". repeat split.
  - simpl. destruct (isWhite c) eqn:Hc.
    + exists (String c l). rewrite app_cons, <- Hs. simpl. rewrite Hc, Hl. auto.
    + exists "". simpl. rewrite Hc. auto.
Qed.

Lemma trimEnd_spec (s : string) :
  exists r, s = JS.trimEnd s +:+ r /\ allChars isWhite r = true
    /\ lastWhite (JS.trimEnd s) = false
    /\ headWhite (JS.trimEnd s) = headWhite s && negb (JS.isEmpty (JS.trimEnd s)).
Proof.
  induction s as [|c s [r [Hs [Hr [Hl Hh]]]]].
  - exists "". repeat split.
  - simpl. destruct (JS.trimEnd s) as [|d t] eqn:Ht.
    + destruct (isWhite c) eqn:Hc; simpl.
      * exists (String c r). simpl. rewrite Hc, Hr. rewrite app_empty_l in Hs.
        rewrite <- Hs. auto.
      * exists r. rewrite app_cons, <- Hs. simpl. rewrite Hc. auto.
    + rewrite andb_false_r. exists r. rewrite app_cons, <- Hs. simpl.
      rewrite andb_true_r. auto.
Qed.

(** [trim] takes white space away at both ends, and nothing else. *)
Lemma trim_spec (s : string) :
  exists l r, s = l +:+ JS.trim s +:+ r
    /\ allChars isWhite l = true /\ allChars isWhite r = true
    /\ headWhite (JS.trim s) = false /\ lastWhite (JS.trim s) = false.
Proof.
  destruct (trimStart_spec s) as [l [Hs [Hl Hh]]].
  destruct (trimEnd_spec (JS.trimStart s)) as [r [Ht [Hr [Hlast Hhead]]]].
  exists l, r. unfold JS.trim. rewrite <- Ht, <- Hs.
  repeat split; try assumption. rewrite Hhead, Hh. reflexivity.
Qed.

Lemma trimEnd_fixed (s : string) : lastWhite s = false -> JS.trimEnd s = s.
Proof.
  induction s as [|c s IH]; [reflexivity|]. intros H. simpl.
  destruct s as [|d s].
  - simpl in *. rewrite H. reflexivity.
  - rewrite (IH H). rewrite andb_false_r. reflexivity.
Qed.

Lemma trim_fixed (s : string) :
  headWhite s = false -> lastWhite s = false -> JS.trim s = s.
Proof.
  intros Hh Hl. unfold JS.trim. destruct s as [|c s]; [reflexivity|].
  simpl in Hh. simpl JS.trimStart. rewrite Hh. apply trimEnd_fixed, Hl.
Qed.

Lemma lastWhite_app (a b : string) : b <> "" -> lastWhite (a +:+ b) = lastWhite b.
Proof.
  intros Hb. induction a as [|c a IH]; [reflexivity|].
  rewrite app_cons. simpl. rewrite IH.
  destruct (a +:+ b) eqn:E; [|reflexivity].
  apply app_eq_empty in E as [_ E]. contradiction.
Qed.


(** ** The model at work *)

Example split_lines :
  JS.split LF ("a" +:+ nl +:+ nl +:+ "b") = ["a"; ""; "b"].
Proof. reflexivity. Qed.

Example trim_both :
  JS.trim (" " +:+ nl +:+ "a b" +:+ String TAB " ") = "a b".
Proof. reflexivity. Qed.

Example lower_mixed :
  JS.toLowerCase "Mail Delivery <A@X.com>" = "mail delivery <a@x.com>".
Proof. reflexivity. Qed.

Example indexOf_missing : JS.indexOf "abc" "d" = -1.
Proof. reflexivity. Qed.

Example atob_hello : atob "SGVsbG8=" = Some "Hello".
Proof. reflexivity. Qed.

Example atob_bad_length : atob "Hello" = None.
Proof. reflexivity. Qed.

Example atob_bad_char : atob "Caf=E9" = None.
Proof. reflexivity. Qed.

Example matchAt_encodedWord_hello :
  Regex.matchAt reEncodedWord "=?UTF-8?B?SGVsbG8=?= rest" = Some (20%nat, "SGVsbG8=").
Proof. vm_compute. reflexivity. Qed.

Example matchAt_address_backtracks :
  Regex.matchAt reAddress "bob.s@mail.example.org-x.y now"
  = Some (22%nat, "bob.s@mail.example.org").
Proof. vm_compute. reflexivity. Qed.

Example matchAt_paren_lazy :
  Regex.matchAt reParenComment "(UTC) (x)" = Some (5%nat, "").
Proof. vm_compute. reflexivity. Qed.

Example decodeHeader_hello : decodeHeader "=?UTF-8?B?SGVsbG8=?=" = "Hello".
Proof. vm_compute. reflexivity. Qed.

Example decodeHeader_mixed :
  decodeHeader "Re: =?utf-8?b?SGVsbG8=?= and =?UTF-8?Q?Caf=E9?= " =
  "Re: Hello and =?UTF-8?Q?Caf=E9?=".
Proof. vm_compute. reflexivity. Qed.

Example cleanBody_latin1 :
  cleanBody "Caf=E9" = "Caf" +:+ String (ascii_of_N 233) "".
Proof. vm_compute. reflexivity. Qed.

Example cleanBody_soft : cleanBody ("line1=" +:+ nl +:+ "line2") = "line1line2".
Proof. vm_compute. reflexivity. Qed.

Example cleanBody_soft_crlf :
  cleanBody ("line1=" +:+ String CR nl +:+ "line2 =4" +:+ "1=zz") = "line1line2 A=zz".
Proof. vm_compute. reflexivity. Qed.

Example parseHeaders_folded :
  parseHeaders ("Subject: a" +:+ nl +:+ String TAB "b" +:+ nl +:+ "To: x@y.org")
  = <["To" := "x@y.org"]> (<["Subject" := "a b"]> ∅).
Proof. vm_compute. reflexivity. Qed.

Example parseEmail_sample :
  option_map (fun e => (subject e, from e, to e, date e, messageId e, body e))
    (parseEmail sampleBlock)
  = Some ("Hi", "Alice <alice@x.com>", "Bob <bob@y.org>", "", "",
          "Caf" +:+ String (ascii_of_N 233) " au lait").
Proof. vm_compute. reflexivity. Qed.

Example extractEmail_angle : extractEmail "Alice <alice@x.com>" = Some "alice@x.com".
Proof. vm_compute. reflexivity. Qed.

Example extractEmail_bare :
  extractEmail "write to bob.s@mail.example.org-x.y now" = Some "bob.s@mail.example.org".
Proof. vm_compute. reflexivity. Qed.

Example extractEmail_none : extractEmail "undisclosed recipients" = None.
Proof. vm_compute. reflexivity. Qed.

Example extractName_quoted :
  extractName (String DQUOTE "Alice A." +:+ String DQUOTE " <alice@x.com>") = Some "Alice A.".
Proof. vm_compute. reflexivity. Qed.

Example extractName_bare_address : extractName "alice@x.com" = None.
Proof. vm_compute. reflexivity. Qed.

Example extractNames_two :
  extractNames "Bob <b@x.com>, carol@x.com, Dave" = ["Bob"; "Dave"].
Proof. vm_compute. reflexivity. Qed.

Example splitBlocks_two :
  splitBlocks (archive twoMessages)
  = [ "From a" +:+ nl +:+ "x"; "From b" +:+ nl +:+ "y" +:+ nl ].
Proof. vm_compute. reflexivity. Qed.

Example stripParenComments_utc :
  stripParenComments utcExample = "Mon, 12 Jan 2023 15:30:45 +0000".
Proof. vm_compute. reflexivity. Qed.

Example bounce_excluded :
  isSelfEmail bounceConfig
    (mailFromTo "Mail Delivery Subsystem <bounce@x.com>" "B <b@x.com>") = true.
Proof. vm_compute. reflexivity. Qed.

Example from_me_only_kept :
  isSelfEmail selfConfig (mailFromTo "A <a@x.com>" "B <b@x.com>") = false.
Proof. vm_compute. reflexivity. Qed.

Example from_me_to_me_excluded :
  isSelfEmail selfConfig (mailFromTo "A <A@X.com>" "B <b@x.com>, a@x.com") = true.
Proof. vm_compute. reflexivity. Qed.

(** ** The self-email classifier *)

Lemma includesCI_spec (hay fragment : string) :
  includesCI hay fragment = true <-> substringCI fragment hay.
Proof. apply includes_spec. Qed.

Lemma substringCI_of_empty (fragment hay : string) :
  substringCI fragment "" -> substringCI fragment hay.
Proof.
  intros [pre [post H]]. simpl in H. symmetry in H.
  apply app_eq_empty in H as [_ H]. apply app_eq_empty in H as [H _].
  exists "", (JS.toLowerCase hay). rewrite H. reflexivity.
Qed.

Section ClassifierProps.

Variable config : IdentityConfig.

Lemma isIgnoredSender_spec (email : EmailData) :
  isIgnoredSender config email (extractName (from email)) = true
  <-> ignoredSenderMatch config email.
Proof.
  unfold isIgnoredSender, ignoredSenderMatch. rewrite existsb_exists.
  split.
  - intros [sender [Hin H]]. exists sender. split; [exact Hin|].
    apply orb_true_iff in H as [H | H].
    + left. apply includesCI_spec, H.
    + right. destruct (extractName (from email)) as [n|]; [|discriminate].
      apply andb_true_iff in H as [_ H]. exists n. split; [reflexivity|].
      apply includesCI_spec, H.
  - intros [sender [Hin [H | [n [Hn H]]]]]; exists sender; (split; [exact Hin|]);
      apply orb_true_iff.
    + left. apply includesCI_spec, H.
    + rewrite Hn. destruct (JS.truthy n) eqn:Ht.
      * right. simpl. apply includesCI_spec, H.
      * left. apply truthy_false in Ht. subst n.
        apply includesCI_spec, substringCI_of_empty, H.
Qed.

Lemma isFromMe_spec (email : EmailData) :
  existsb (fun addr => includesCIOpt (extractEmail (from email)) addr) (myEmails config)
  || existsb (fun name => includesCIOpt (extractName (from email)) name) (myNames config)
  = true <-> fromIsMe config email.
Proof.
  unfold fromIsMe. rewrite orb_true_iff, !existsb_exists. split.
  - intros [[addr [Hin H]] | [name [Hin H]]]; [left | right].
    + destruct (extractEmail (from email)) as [e|]; [|discriminate].
      exists addr, e. repeat split; [exact Hin | apply includesCI_spec, H].
    + destruct (extractName (from email)) as [n|]; [|discriminate].
      exists name, n. repeat split; [exact Hin | apply includesCI_spec, H].
  - intros [[addr [e [Hin [He H]]]] | [name [n [Hin [Hn H]]]]]; [left | right].
    + exists addr. split; [exact Hin|]. rewrite He. apply includesCI_spec, H.
    + exists name. split; [exact Hin|]. rewrite Hn. apply includesCI_spec, H.
Qed.

Lemma isToMe_spec (email : EmailData) :
  existsb (fun addr =>
    existsb (fun myAddr => includesCI addr myAddr) (myEmails config))
    (extractEmails (to email))
  || existsb (fun name =>
    existsb (fun myName => includesCI name myName) (myNames config))
    (extractNames (to email))
  = true <-> toIncludesMe config email.
Proof.
  unfold toIncludesMe. rewrite orb_true_iff, !existsb_exists. split.
  - intros [[e [Hin H]] | [n [Hin H]]]; [left | right];
      apply existsb_exists in H as [x [Hx H]];
      eexists _, x; repeat split; eauto; apply includesCI_spec, H.
  - intros [[e [addr [Hin [Ha H]]]] | [n [name [Hin [Ha H]]]]]; [left | right];
      eexists; (split; [exact Hin|]); apply existsb_exists;
      eexists; (split; [exact Ha|]); apply includesCI_spec, H.
Qed.

Lemma isSelfEmail_spec (email : EmailData) :
  isSelfEmail config email = true
  <-> ignoredSenderMatch config email \/ (fromIsMe config email /\ toIncludesMe config email).
Proof.
  unfold isSelfEmail.
  destruct (isIgnoredSender config email (extractName (from email))) eqn:Hig.
  - apply isIgnoredSender_spec in Hig. tauto.
  - assert (~ ignoredSenderMatch config email) as Hn.
    { intros H. apply isIgnoredSender_spec in H. congruence. }
    rewrite andb_true_iff, isFromMe_spec, isToMe_spec. tauto.
Qed.

(** C1.  The classifier excludes a message exactly when (a) an
    ignored-sender fragment occurs, whatever the case, in the raw [from]
    field or in the display name extracted from it, or (b) the address or
    name extracted from [from] matches a configured self address or name and
    an address or name extracted from [to] does too.  A from-is-me match
    without a to-is-me match does not exclude (when no ignored sender
    matches), and an ignored-sender match excludes whatever [to] holds. *)
Theorem isSelfEmail_decision_rule (email : EmailData) :
  (isSelfEmail config email = true
     <-> ignoredSenderMatch config email \/ (fromIsMe config email /\ toIncludesMe config email))
  /\ (fromIsMe config email -> ~ toIncludesMe config email -> ~ ignoredSenderMatch config email ->
      isSelfEmail config email = false)
  /\ (ignoredSenderMatch config email ->
      forall to', isSelfEmail config
        (mkEmailData (subject email) (from email) to' (date email)
           (messageId email) (body email) (headers email)) = true).
Proof.
  split; [apply isSelfEmail_spec|]. split.
  - intros _ Hto Hig. apply not_true_is_false. intros H.
    apply isSelfEmail_spec in H. tauto.
  - intros Hig to'. apply isSelfEmail_spec. left. exact Hig.
Qed.

End ClassifierProps.

Lemma isSelfEmail_decision_rule_witness :
  isSelfEmail selfConfig (mailFromTo "A <a@x.com>" "B <b@x.com>") = false
  /\ isSelfEmail bounceConfig
       (mailFromTo "Mail Delivery Subsystem <bounce@x.com>" "anyone") = true.
Proof.
  split.
  - apply (isSelfEmail_decision_rule selfConfig
             (mailFromTo "A <a@x.com>" "B <b@x.com>")).
    + left. exists "a@x.com", "a@x.com". split; [left; reflexivity|].
      split; [reflexivity|]. exists "", "". reflexivity.
    + intros H. apply isToMe_spec in H. vm_compute in H. discriminate.
    + intros [sender [[] _]].
  - apply (isSelfEmail_decision_rule bounceConfig
             (mailFromTo "Mail Delivery Subsystem <bounce@x.com>" "B <b@x.com>")).
    exists "Mail Delivery Subsystem". split; [left; reflexivity|].
    left. exists "", " <bounce@x.com>". reflexivity.
Defined.

(** ** The splitter *)

Lemma startsWith_before_nl (p u rest : string) :
  noLF p = true ->
  JS.startsWith (u +:+ nl +:+ rest) p = JS.startsWith (u +:+ nl) p.
Proof.
  revert u. induction p as [|b p IH]; intros u Hp.
  - destruct u; reflexivity.
  - unfold noLF in *. simpl in Hp. apply andb_true_iff in Hp as [Hb Hp].
    destruct u as [|a u].
    + change (JS.startsWith ("" +:+ nl +:+ rest) (String b p))
        with (Ascii.eqb LF b && JS.startsWith rest p).
      change (JS.startsWith ("" +:+ nl) (String b p))
        with (Ascii.eqb LF b && JS.startsWith "" p).
      rewrite Ascii.eqb_sym. apply negb_true_iff in Hb. rewrite Hb. reflexivity.
    + rewrite !app_cons. simpl. rewrite (IH u Hp). reflexivity.
Qed.

Lemma startsWith_drop_nl (p u : string) :
  noLF p = true -> JS.startsWith (u +:+ nl) p = JS.startsWith u p.
Proof.
  revert u. induction p as [|b p IH]; intros u Hp.
  - destruct u; reflexivity.
  - unfold noLF in *. simpl in Hp. apply andb_true_iff in Hp as [Hb Hp].
    destruct u as [|a u].
    + change (JS.startsWith ("" +:+ nl) (String b p))
        with (Ascii.eqb LF b && JS.startsWith "" p).
      rewrite Ascii.eqb_sym. apply negb_true_iff in Hb. rewrite Hb. reflexivity.
    + rewrite app_cons. simpl. rewrite (IH u Hp). reflexivity.
Qed.

Lemma splitBlocks_nonempty (s : string) : splitBlocks s <> [].
Proof.
  destruct s as [|c s]; [discriminate|]. rewrite splitBlocks_cons.
  destruct (_ && _); [discriminate|]. destruct (splitBlocks s); discriminate.
Qed.

(** A text [u +:+ nl] without the delimiter inside is cut nowhere but,
    possibly, at its final newline. *)
Lemma splitBlocks_chunk (u rest : string) :
  JS.includes (u +:+ nl) delimiter = false ->
  splitBlocks (u +:+ nl +:+ rest) =
  if JS.startsWith rest "From " then u :: splitBlocks rest
  else prependToFirst (u +:+ nl) (splitBlocks rest).
Proof.
  induction u as [|c u IH]; intros Hu.
  - change ("" +:+ nl +:+ rest) with (String LF rest).
    rewrite splitBlocks_cons. simpl.
    destruct (JS.startsWith rest "From "); reflexivity.
  - rewrite !app_cons in *. apply includes_cons_false in Hu as [Hc Hu].
    rewrite splitBlocks_cons, (IH Hu).
    assert (Ascii.eqb c LF && JS.startsWith (u +:+ nl +:+ rest) "From " = false) as ->.
    { rewrite startsWith_before_nl by reflexivity.
      unfold delimiter in Hc. simpl in Hc. exact Hc. }
    destruct (JS.startsWith rest "From "); [reflexivity|].
    destruct (splitBlocks rest); reflexivity.
Qed.

(** Joining the pieces with the newline the split removed gives the input back. *)
Lemma join_splitBlocks (s : string) : JS.join nl (splitBlocks s) = s.
Proof.
  induction s as [|c s IH]; [reflexivity|].
  rewrite splitBlocks_cons.
  destruct (Ascii.eqb c LF && JS.startsWith s "From ") eqn:Hcut.
  - apply andb_true_iff in Hcut as [Hc _]. apply Ascii.eqb_eq in Hc. subst c.
    pose proof (splitBlocks_nonempty s) as Hne.
    destruct (splitBlocks s) as [|h t] eqn:Hs; [contradiction|].
    change (JS.join nl ("" :: h :: t)) with ("" +:+ nl +:+ JS.join nl (h :: t)).
    rewrite IH. reflexivity.
  - pose proof (splitBlocks_nonempty s) as Hne.
    destruct (splitBlocks s) as [|h t] eqn:Hs; [contradiction|].
    rewrite <- IH. simpl. destruct t; reflexivity.
Qed.

Lemma archive_startsWith (ms : list string) :
  Forall wellFormedMessage ms ->
  JS.startsWith (archive ms) "From " = negb (Nat.eqb (List.length ms) 0).
Proof.
  intros H. destruct H as [|m ms [u [-> [Hs _]]] _]; [reflexivity|].
  simpl. rewrite app_assoc_s, startsWith_before_nl by reflexivity. exact Hs.
Qed.

Lemma trim_keeps_From (b : string) :
  JS.startsWith b "From " = true -> JS.truthy (JS.trim b) = true.
Proof.
  destruct b as [|c b]; [discriminate|]. simpl. intros H.
  apply andb_true_iff in H as [Hc _]. apply Ascii.eqb_eq in Hc. subst c.
  unfold JS.trim. simpl. destruct (JS.trimEnd b); reflexivity.
Qed.

Lemma splitBlocks_archive (ms : list string) :
  Forall wellFormedMessage ms -> ms <> [] ->
  List.length (splitBlocks (archive ms)) = List.length ms
  /\ Forall (fun b => JS.startsWith b "From " = true) (splitBlocks (archive ms)).
Proof.
  induction ms as [|m ms IH]; intros Hwf Hne; [contradiction|].
  inversion Hwf as [|? ? [u [-> [Hs Hd]]] Hwf']; subst.
  simpl. rewrite app_assoc_s, (splitBlocks_chunk _ _ Hd).
  rewrite (archive_startsWith ms Hwf').
  destruct ms as [|m' ms'].
  - simpl. split; [reflexivity|]. constructor; [|constructor].
    rewrite app_empty_r. exact Hs.
  - destruct (IH Hwf') as [Hlen Hall]; [discriminate|].
    simpl negb. cbv iota. split.
    + simpl. f_equal. exact Hlen.
    + constructor; [|exact Hall].
      rewrite <- (startsWith_drop_nl "From " u) by reflexivity. exact Hs.
Qed.

Lemma parsedBlocks_all (blocks : list string) :
  Forall (fun b => JS.startsWith b "From " = true) blocks ->
  List.length (List.filter JS.truthy (map JS.trim blocks)) = List.length blocks.
Proof.
  induction 1 as [|b bs Hb _ IH]; [reflexivity|].
  simpl. rewrite (trim_keeps_From b Hb). simpl. f_equal. exact IH.
Qed.

Lemma twoMessages_wellFormed : Forall wellFormedMessage twoMessages.
Proof.
  repeat constructor.
  - exists ("From a" +:+ nl +:+ "x"). repeat split; reflexivity.
  - exists ("From b" +:+ nl +:+ "y"). repeat split; reflexivity.
Qed.

(** C2, as stated, fails: the split drops the newline in front of every
    delimiter line but the first, so the blocks put end to end are shorter
    than the archive; and so are the trimmed blocks handed to the parser. *)
Lemma splitBlocks_concat_loses_newlines :
  Forall wellFormedMessage twoMessages
  /\ splitBlocks (archive twoMessages)
     = [ "From a" +:+ nl +:+ "x"; "From b" +:+ nl +:+ "y" +:+ nl ]
  /\ concatBlocks (splitBlocks (archive twoMessages)) <> archive twoMessages
  /\ concatBlocks (parsedBlocks (archive twoMessages)) <> archive twoMessages.
Proof.
  split; [exact twoMessages_wellFormed|].
  split; [vm_compute; reflexivity|]. split; vm_compute; discriminate.
Qed.

(** C2, amended.  For an archive of N well-formed messages the split yields
    exactly N blocks (for N = 0 the one empty piece of the empty archive is
    skipped), all N of them non-empty and handed to the parser, and the split
    pieces joined in order with one newline between consecutive pieces
    reproduce the archive exactly. *)
Theorem splitBlocks_count_and_join (ms : list string) :
  Forall wellFormedMessage ms ->
  List.length (parsedBlocks (archive ms)) = List.length ms
  /\ (ms <> [] -> List.length (splitBlocks (archive ms)) = List.length ms)
  /\ JS.join nl (splitBlocks (archive ms)) = archive ms.
Proof.
  intros Hwf. split; [|split].
  - destruct ms as [|m ms']; [reflexivity|].
    destruct (splitBlocks_archive (m :: ms') Hwf) as [Hlen Hall]; [discriminate|].
    unfold parsedBlocks. rewrite (parsedBlocks_all _ Hall). exact Hlen.
  - intros Hne. apply (splitBlocks_archive ms Hwf Hne).
  - apply join_splitBlocks.
Qed.

Lemma splitBlocks_count_and_join_witness :
  List.length (parsedBlocks (archive twoMessages)) = 2%nat
  /\ JS.join nl (splitBlocks (archive twoMessages)) = archive twoMessages.
Proof.
  destruct (splitBlocks_count_and_join twoMessages twoMessages_wellFormed)
    as [Hn [_ Hj]].
  split; [exact Hn | exact Hj].
Defined.

(** ** Header parsing and record assembly *)

Lemma noColon_cons (c : ascii) (s : string) :
  noColon (String c s) <-> Ascii.eqb c ":" = false /\ noColon s.
Proof.
  unfold noColon. rewrite includes_unfold. simpl JS.startsWith.
  assert (JS.startsWith s "" = true) as -> by (destruct s; reflexivity).
  rewrite andb_true_r. apply orb_false_iff.
Qed.

Lemma noColon_empty : noColon "".
Proof. reflexivity. Qed.

Lemma noColon_app (a b : string) : noColon a -> noColon b -> noColon (a +:+ b).
Proof.
  induction a as [|c a IH]; intros Ha Hb; [exact Hb|].
  rewrite app_cons. apply noColon_cons. apply noColon_cons in Ha as [Hc Ha].
  auto.
Qed.

Lemma noColon_drop (n : nat) (s : string) : noColon s -> noColon (JS.drop n s).
Proof. apply includes_drop. Qed.

Lemma noColon_take (n : nat) (s : string) : noColon s -> noColon (JS.take n s).
Proof.
  revert s. induction n as [|n IH]; intros s H; [destruct s; reflexivity|].
  destruct s as [|c s]; [reflexivity|]. simpl JS.take.
  apply noColon_cons in H as [Hc H]. apply noColon_cons. auto.
Qed.

Lemma noColon_split (s : string) : noColon s -> Forall noColon (JS.split LF s).
Proof.
  induction s as [|c s IH]; intros H.
  - constructor; [exact H | constructor].
  - apply noColon_cons in H as [Hc H]. specialize (IH H). rewrite split_cons.
    destruct (Ascii.eqb c LF).
    + constructor; [exact noColon_empty | exact IH].
    + destruct IH as [|h t Hh Ht]; simpl.
      * constructor; [|constructor]. apply noColon_cons. split; [exact Hc|].
        exact noColon_empty.
      * constructor; [|exact Ht]. rewrite app_cons. apply noColon_cons. auto.
Qed.

Lemma noColon_join (ls : list string) :
  Forall noColon ls -> noColon (JS.join nl ls).
Proof.
  induction 1 as [|l ls Hl Hls IH]; [exact noColon_empty|].
  destruct ls as [|l' ls']; [exact Hl|].
  change (JS.join nl (l :: l' :: ls')) with (l +:+ nl +:+ JS.join nl (l' :: ls')).
  apply noColon_app; [exact Hl|]. apply noColon_app; [reflexivity | exact IH].
Qed.

(** A header section without a colon starts no header at all. *)
Lemma headerLoop_noColon (lines : list string) (v : string) :
  Forall noColon lines ->
  exists v', headerLoop (mkHeaderState ∅ "" v) lines = mkHeaderState ∅ "" v'.
Proof.
  intros H. revert v. induction H as [|l ls Hl _ IH]; intros v; [eauto|].
  unfold headerLoop in *. simpl fold_left. unfold headerStep at 2.
  destruct (isContinuation l); simpl; [apply IH|].
  unfold saveHeader. simpl.
  rewrite (indexOf_missing_iff l ":" Hl). simpl. apply IH.
Qed.

Lemma parseHeaders_noColon (section : string) :
  noColon section -> parseHeaders section = ∅.
Proof.
  intros H. unfold parseHeaders, parseHeaderLines.
  destruct (headerLoop_noColon _ "" (noColon_split _ H)) as [v' ->].
  reflexivity.
Qed.

Lemma splitHeaderBody_noColon (content : string) :
  noColon content -> noColon (fst (splitHeaderBody content)).
Proof.
  intros H. unfold splitHeaderBody.
  destruct (negb _); [apply noColon_take, noColon_drop, H|].
  pose proof (noColon_split content H) as Hl. cbv zeta.
  destruct (0 <=? _); simpl.
  - apply noColon_join, Forall_take, Hl.
  - destruct Hl; [exact noColon_empty | assumption].
Qed.

Lemma parseEmailOutcome_noColon (block : string) :
  noColon block ->
  parseEmailOutcome block =
  inl (if JS.isEmpty (fst (splitHeaderBody (stripSeparator block)))
       then HeaderBoundaryFailure else RequiredFieldMissing).
Proof.
  intros H. unfold parseEmailOutcome.
  assert (noColon (stripSeparator block)) as Hc by apply noColon_drop, H.
  pose proof (splitHeaderBody_noColon _ Hc) as Hs.
  destruct (splitHeaderBody (stripSeparator block)) as [section body0].
  simpl in *. unfold JS.truthy. rewrite negb_involutive.
  destruct (JS.isEmpty section); [reflexivity|].
  rewrite (parseHeaders_noColon section Hs). reflexivity.
Qed.

(** Without a blank line the header section is empty exactly when the first
    line of the content is. *)
Lemma fallback_section_empty (content : string) :
  JS.includes content (nl +:+ nl) = false ->
  JS.isEmpty (fst (splitHeaderBody content))
  = JS.isEmpty (hd "" (JS.split LF content)).
Proof.
  intros Hb. unfold splitHeaderBody.
  rewrite (indexOf_missing_iff _ _ Hb). simpl negb. cbv iota zeta.
  pose proof (split_nonempty LF content) as Hne.
  destruct (JS.split LF content) as [|l0 rest]; [contradiction|].
  destruct l0 as [|c l0]; [reflexivity|].
  destruct (0 <=? scanHeaderEnd 0 (-1) (String c l0 :: rest)) eqn:E; [|reflexivity].
  apply Z.leb_le in E.
  destruct (Z.to_nat (scanHeaderEnd 0 (-1) (String c l0 :: rest) + 1)) as [|k] eqn:Ek;
    [lia|].
  simpl. destruct (firstn k rest); reflexivity.
Qed.

Lemma noColon_trimStart (s : string) : noColon s -> noColon (JS.trimStart s).
Proof.
  induction s as [|c s IH]; intros H; [exact H|].
  simpl. destruct (isWhite c); [|exact H].
  apply noColon_cons in H as [_ H]. auto.
Qed.

Lemma noColon_trimEnd (s : string) : noColon s -> noColon (JS.trimEnd s).
Proof.
  induction s as [|c s IH]; intros H; [exact H|].
  simpl. apply noColon_cons in H as [Hc H].
  destruct (isWhite c && JS.isEmpty (JS.trimEnd s)); [exact noColon_empty|].
  apply noColon_cons. auto.
Qed.

(** C3, as stated, fails: the fallback takes the first line of such a block
    as its header section, and the block is dropped by the test on the
    required fields, not by the test on the header section. *)
Lemma colonless_block_not_boundary_failure :
  JS.includes helloWorld (nl +:+ nl) = false
  /\ noColon helloWorld
  /\ splitHeaderBody (stripSeparator helloWorld) = ("hello", "world")
  /\ parseEmailOutcome helloWorld = inl RequiredFieldMissing
  /\ parseEmailOutcome helloWorld <> inl HeaderBoundaryFailure.
Proof. repeat split; try reflexivity. vm_compute. discriminate. Qed.

(** C3, amended.  A block without a blank line and without a colon yields no
    record and changes nothing in the state of [parseContent].  It is given
    up at the test of the header section only when the first line of its
    content is empty; otherwise the fallback takes a non-empty prefix as the
    header section, no header comes out of it, and the block is given up at
    the test of the required fields. *)
Theorem colonless_block_dropped (block : string) :
  JS.includes block (nl +:+ nl) = false ->
  noColon block ->
  parseEmail block = None
  /\ parseEmailOutcome block =
     inl (if JS.isEmpty (hd "" (JS.split LF (stripSeparator block)))
          then HeaderBoundaryFailure else RequiredFieldMissing)
  /\ parseHeaders (fst (splitHeaderBody (stripSeparator block))) = ∅
  /\ forall config st, processBlock config st block = st.
Proof.
  intros Hb Hc.
  assert (parseEmailOutcome block =
     inl (if JS.isEmpty (hd "" (JS.split LF (stripSeparator block)))
          then HeaderBoundaryFailure else RequiredFieldMissing)) as Ho.
  { rewrite (parseEmailOutcome_noColon block Hc). f_equal.
    rewrite fallback_section_empty; [reflexivity|].
    apply includes_drop, Hb. }
  split; [unfold parseEmail; rewrite Ho; reflexivity|].
  split; [exact Ho|]. split.
  - apply parseHeaders_noColon, splitHeaderBody_noColon, noColon_drop, Hc.
  - intros config st. unfold processBlock.
    destruct (JS.truthy (JS.trim block)); [|reflexivity].
    unfold parseEmail. rewrite parseEmailOutcome_noColon; [reflexivity|].
    apply noColon_trimEnd, noColon_trimStart, Hc.
Qed.

Lemma colonless_block_dropped_witness :
  parseEmail helloWorld = None
  /\ parseEmailOutcome helloWorld = inl RequiredFieldMissing.
Proof.
  destruct (colonless_block_dropped helloWorld) as [Hn [Ho _]];
    [reflexivity | reflexivity |].
  split; [exact Hn | exact Ho].
Defined.

Lemma firstTruthy_resolves (h : gmap string string) (keys : list string)
    (dflt : string) :
  resolves h keys dflt (firstTruthy h keys dflt).
Proof.
  unfold firstTruthy. induction keys as [|k rest IH]; [reflexivity|].
  simpl. unfold JS.orElse at 1. destruct (h !! k) as [v|] eqn:Hk.
  - destruct v as [|c v]; simpl.
    + right. split; [right; reflexivity | exact IH].
    + left. split; [reflexivity | discriminate].
  - right. split; [left; reflexivity | exact IH].
Qed.

Lemma resolves_found (h : gmap string string) (keys : list string)
    (dflt v : string) :
  resolves h keys dflt v -> v <> dflt ->
  v <> "" /\ exists k, In k keys /\ h !! k = Some v.
Proof.
  induction keys as [|k rest IH]; simpl; intros H Hv; [contradiction|].
  destruct H as [[Hk Hne] | [_ H]].
  - split; [exact Hne|]. exists k. auto.
  - destruct (IH H Hv) as [Hne [k' [Hin Hk']]]. split; [exact Hne|].
    exists k'. auto.
Qed.

Lemma parseEmail_Some (block : string) (email : EmailData) :
  parseEmail block = Some email ->
  let h := parseHeaders (fst (splitHeaderBody (stripSeparator block))) in
  headers email = h
  /\ subject email = firstTruthy h ["Subject"; "subject"] "(No Subject)"
  /\ from email = firstTruthy h ["From"; "from"] "(No Sender)"
  /\ to email = firstTruthy h ["To"; "to"] "(No Recipient)"
  /\ date email = firstTruthy h ["Date"; "date"] ""
  /\ messageId email =
     firstTruthy h ["Message-ID"; "Message-Id"; "message-id"] ""
  /\ from email <> "(No Sender)" /\ to email <> "(No Recipient)".
Proof.
  unfold parseEmail, parseEmailOutcome.
  destruct (splitHeaderBody (stripSeparator block)) as [section body0].
  destruct (negb (JS.truthy section)); [discriminate|].
  simpl fst. cbv zeta.
  destruct (String.eqb _ "(No Sender)") eqn:Hf; [discriminate|].
  destruct (String.eqb _ "(No Recipient)") eqn:Ht; [discriminate|].
  simpl. intros [= <-]. simpl.
  apply String.eqb_neq in Hf, Ht. repeat split; assumption.
Qed.

Lemma processBlocks_app (config : IdentityConfig) (st : ParseState)
    (l1 l2 : list string) :
  processBlocks config st (l1 ++ l2)
  = processBlocks config (processBlocks config st l1) l2.
Proof. apply fold_left_app. Qed.

(** C4.  A record comes out of a block only when a non-empty [from] and a
    non-empty [to] were found among its parsed headers; when either resolves
    to its placeholder the block gives no record; and a block that gives no
    record leaves the processing of the other blocks as it would be without
    it. *)
Theorem parseEmail_requires_from_and_to :
  (forall block email, parseEmail block = Some email ->
     headers email = parseHeaders (fst (splitHeaderBody (stripSeparator block)))
     /\ from email <> "" /\ to email <> ""
     /\ from email <> "(No Sender)" /\ to email <> "(No Recipient)"
     /\ (headers email !! "From" = Some (from email)
         \/ headers email !! "from" = Some (from email))
     /\ (headers email !! "To" = Some (to email)
         \/ headers email !! "to" = Some (to email)))
  /\ (forall block,
        let h := parseHeaders (fst (splitHeaderBody (stripSeparator block))) in
        firstTruthy h ["From"; "from"] "(No Sender)" = "(No Sender)"
        \/ firstTruthy h ["To"; "to"] "(No Recipient)" = "(No Recipient)" ->
        parseEmail block = None)
  /\ (forall config st before block after,
        parseEmail (JS.trim block) = None ->
        processBlocks config st (before ++ block :: after)
        = processBlocks config st (before ++ after)).
Proof.
  split; [|split].
  - intros block email H.
    destruct (parseEmail_Some block email H)
      as [Hh [_ [Hf [Ht [_ [_ [Hnf Hnt]]]]]]].
    pose proof (firstTruthy_resolves (headers email) ["From"; "from"] "(No Sender)") as Rf.
    pose proof (firstTruthy_resolves (headers email) ["To"; "to"] "(No Recipient)") as Rt.
    rewrite <- Hh in Hf, Ht. rewrite <- Hf in Rf. rewrite <- Ht in Rt.
    destruct (resolves_found _ _ _ _ Rf Hnf) as [Ef [kf [Hkf Hvf]]].
    destruct (resolves_found _ _ _ _ Rt Hnt) as [Et [kt [Hkt Hvt]]].
    repeat split; try assumption.
    + destruct Hkf as [<- | [<- | []]]; auto.
    + destruct Hkt as [<- | [<- | []]]; auto.
  - intros block h H. unfold parseEmail.
    destruct (parseEmailOutcome block) as [r|email] eqn:Ho; [reflexivity|].
    exfalso.
    assert (parseEmail block = Some email) as Hs
      by (unfold parseEmail; rewrite Ho; reflexivity).
    destruct (parseEmail_Some block email Hs)
      as [_ [_ [Hf [Ht [_ [_ [Hnf Hnt]]]]]]].
    fold h in Hf, Ht. destruct H as [H | H]; congruence.
  - intros config st before block after H.
    rewrite !processBlocks_app.
    change (processBlocks config (processBlocks config st before) (block :: after))
      with (processBlocks config
              (processBlock config (processBlocks config st before) block) after).
    f_equal. unfold processBlock. rewrite H.
    destruct (JS.truthy (JS.trim block)); reflexivity.
Qed.

Lemma parseEmail_requires_from_and_to_witness :
  (exists email, parseEmail sampleBlock = Some email
     /\ from email <> "" /\ to email <> "")
  /\ parseEmail noRecipientBlock = None
  /\ processBlocks selfConfig (mkParseState [] 0)
       ([sampleBlock] ++ noRecipientBlock :: [sampleBlock])
     = processBlocks selfConfig (mkParseState [] 0) ([sampleBlock] ++ [sampleBlock]).
Proof.
  destruct parseEmail_requires_from_and_to as [H1 [H2 H3]].
  split; [|split].
  - destruct (parseEmail sampleBlock) as [email|] eqn:E; [|vm_compute in E; discriminate].
    exists email. split; [reflexivity|].
    destruct (H1 sampleBlock email E) as [_ [Hf [Ht _]]]. auto.
  - apply H2. right. vm_compute. reflexivity.
  - apply H3. vm_compute. reflexivity.
Defined.

(** ** Field lookup *)

(** C5, as stated, fails: a header stored under [FROM], [TO] or [SUBJECT] is
    in the header map but is not the one read; the field gets its
    placeholder, and for [FROM] or [TO] the block is dropped. *)
Lemma upper_case_headers_not_found :
  let h := parseHeaders (fst (splitHeaderBody (stripSeparator upperCaseBlock))) in
  h !! "FROM" = Some "Alice <alice@x.com>"
  /\ h !! "SUBJECT" = Some "Hi"
  /\ firstTruthy h ["From"; "from"] "(No Sender)" = "(No Sender)"
  /\ firstTruthy h ["Subject"; "subject"] "(No Subject)" = "(No Subject)"
  /\ parseEmail upperCaseBlock = None
  /\ option_map subject (parseEmail upperSubjectBlock) = Some "(No Subject)"
  /\ option_map (fun e => headers e !! "SUBJECT") (parseEmail upperSubjectBlock)
     = Some (Some "Hi").
Proof. vm_compute. repeat split; reflexivity. Qed.

(** C5, amended.  The fields of a record are read under fixed spellings
    only, the first one present with a non-empty value winning: [Subject]
    then [subject], [From] then [from], [To] then [to], [Date] then [date],
    [Message-ID] then [Message-Id] then [message-id]; when none of the
    listed spellings is present the field is its placeholder, whatever other
    keys the header map holds. *)
Theorem parseEmail_fixed_spellings (block : string) (email : EmailData) :
  parseEmail block = Some email ->
  let h := headers email in
  resolves h ["Subject"; "subject"] "(No Subject)" (subject email)
  /\ resolves h ["From"; "from"] "(No Sender)" (from email)
  /\ resolves h ["To"; "to"] "(No Recipient)" (to email)
  /\ resolves h ["Date"; "date"] "" (date email)
  /\ resolves h ["Message-ID"; "Message-Id"; "message-id"] "" (messageId email)
  /\ (h !! "Subject" = None -> h !! "subject" = None ->
      subject email = "(No Subject)")
  /\ (h !! "Date" = None -> h !! "date" = None -> date email = "")
  /\ (h !! "Message-ID" = None -> h !! "Message-Id" = None ->
      h !! "message-id" = None -> messageId email = "").
Proof.
  intros H h.
  destruct (parseEmail_Some block email H)
    as [Hh [Hs [Hf [Ht [Hd [Hm _]]]]]].
  fold h in Hh. rewrite <- Hh in Hs, Hf, Ht, Hd, Hm.
  rewrite Hs, Hf, Ht, Hd, Hm.
  repeat split; try apply firstTruthy_resolves.
  - intros H1 H2. unfold firstTruthy. simpl. rewrite H1, H2. reflexivity.
  - intros H1 H2. unfold firstTruthy. simpl. rewrite H1, H2. reflexivity.
  - intros H1 H2 H3. unfold firstTruthy. simpl. rewrite H1, H2, H3. reflexivity.
Qed.

Lemma parseEmail_fixed_spellings_witness :
  exists email, parseEmail upperSubjectBlock = Some email
    /\ subject email = "(No Subject)"
    /\ resolves (headers email) ["From"; "from"] "(No Sender)" (from email).
Proof.
  destruct (parseEmail upperSubjectBlock) as [email|] eqn:E;
    [|vm_compute in E; discriminate].
  exists email. split; [reflexivity|].
  destruct (parseEmail_fixed_spellings upperSubjectBlock email E)
    as [_ [Hf [_ [_ [_ [Hs _]]]]]].
  split; [|exact Hf].
  assert (headers email !! "Subject" = None /\ headers email !! "subject" = None)
    as [H1 H2].
  { destruct (parseEmail_Some upperSubjectBlock email E) as [-> _].
    vm_compute. split; reflexivity. }
  apply Hs; assumption.
Defined.

(** ** The fallback scan *)

(** C9, as stated, fails: a line that does not start with white space and
    has its colon well within its first 200 code units is not taken as a
    header line once the whole line has 200 code units or more; here it ends
    up in the body and the subject is the placeholder. *)
Lemma long_line_not_header :
  isContinuation longLine = false
  /\ JS.indexOf longLine ":" = 7
  /\ JS.includes (JS.take 200 longLine) ":" = true
  /\ JS.length longLine = 209
  /\ classifyLine 2 longLine <> HeaderLine
  /\ scanHeaderEnd 0 (-1) (JS.split LF longLineBlock) = 1
  /\ option_map (fun e => (subject e, body e)) (parseEmail longLineBlock)
     = Some ("(No Subject)", longLine).
Proof.
  repeat split; try (vm_compute; reflexivity). vm_compute. discriminate.
Qed.

Lemma isContinuation_false (line : string) :
  isContinuation line = false
  <-> forall c r, line = String c r -> c <> " "%char /\ c <> TAB.
Proof.
  unfold isContinuation. destruct line as [|c r].
  - split; [intros _ c r H; discriminate | reflexivity].
  - simpl. assert (JS.startsWith r "" = true) as -> by (destruct r; reflexivity).
    rewrite !andb_true_r, orb_false_iff. split.
    + intros [H1 H2] c' r' [= <- <-].
      split; intros ->; [rewrite Ascii.eqb_refl in H1 | rewrite Ascii.eqb_refl in H2];
        discriminate.
    + intros H. destruct (H c r eq_refl) as [H1 H2].
      split; apply Ascii.eqb_neq; assumption.
Qed.

(** C9, amended.  In the fallback scan a line is taken as a header line
    exactly when it does not start with a space or a tab, contains a colon,
    and has fewer than 200 code units in all; the scan then records its
    index as the end of the headers and goes on with the next line. *)
Theorem classifyLine_header (i : Z) (line : string) :
  (classifyLine i line = HeaderLine
   <-> (forall c r, line = String c r -> c <> " "%char /\ c <> TAB)
       /\ (exists pre post, line = pre +:+ ":" +:+ post)
       /\ (String.length line < 200)%nat)
  /\ (classifyLine i line = HeaderLine ->
      forall headerEndLine rest,
        scanHeaderEnd i headerEndLine (line :: rest) = scanHeaderEnd (i + 1) i rest).
Proof.
  split.
  - rewrite <- isContinuation_false, <- includes_spec. unfold classifyLine.
    destruct (isContinuation line).
    + split; [discriminate | intros [H _]; discriminate].
    + destruct (JS.includes line ":") eqn:Hc; simpl.
      * unfold JS.length. destruct (Z.of_nat (String.length line) <? 200) eqn:Hl.
        -- apply Z.ltb_lt in Hl. split; [intros _ | reflexivity].
           repeat split. lia.
        -- apply Z.ltb_ge in Hl. split.
           ++ destruct (JS.isEmpty (JS.trim line)); [discriminate|].
              destruct (0 <? i); discriminate.
           ++ intros [_ [_ H]]. lia.
      * split; [|intros [_ [H _]]; discriminate].
        destruct (JS.isEmpty (JS.trim line)); [discriminate|].
        destruct (0 <? i); discriminate.
  - intros H headerEndLine rest. simpl. rewrite H. reflexivity.
Qed.

Lemma classifyLine_header_witness :
  scanHeaderEnd 0 (-1) ["Subject: Hi"; "text"]
  = scanHeaderEnd 1 0 ["text"].
Proof.
  apply (classifyLine_header 0 "Subject: Hi"). reflexivity.
Defined.

(** ** Keys of the header map *)

Lemma saveHeader_origin (lines : list string) (st : HeaderState) :
  originInv lines st ->
  forall k v, saveHeader st !! k = Some v -> keyOrigin lines k.
Proof.
  intros [Hh Hc] k v. unfold saveHeader.
  destruct (JS.truthy (currentHeader st)) eqn:Ht; [|apply Hh].
  apply truthy_true in Ht.
  destruct (decide (currentHeader st = k)) as [<- | Hne].
  - intros _. apply Hc, Ht.
  - rewrite lookup_insert_ne by exact Hne. apply Hh.
Qed.

Lemma headerStep_origin (lines : list string) (st : HeaderState) (line : string) :
  originInv lines st -> In line lines -> originInv lines (headerStep st line).
Proof.
  intros Hinv Hin. unfold headerStep.
  destruct (isContinuation line) eqn:Hcont; [exact Hinv|].
  destruct (0 <? JS.indexOf line ":") eqn:Hci; split; simpl;
    try apply (saveHeader_origin lines st Hinv).
  - intros Hne. split; [exact Hne|]. exists line.
    apply Z.ltb_lt in Hci. repeat split; assumption.
  - apply Hinv.
Qed.

Lemma headerLoop_origin (lines ls : list string) (st : HeaderState) :
  originInv lines st -> (forall l, In l ls -> In l lines) ->
  originInv lines (headerLoop st ls).
Proof.
  revert st. induction ls as [|l ls IH]; intros st Hinv Hsub; [exact Hinv|].
  apply IH.
  - apply headerStep_origin; [exact Hinv | apply Hsub; left; reflexivity].
  - intros l' Hl'. apply Hsub. right. exact Hl'.
Qed.

Lemma saveHeader_same (s1 s2 : HeaderState) :
  sameHeaders s1 s2 -> saveHeader s1 = saveHeader s2.
Proof.
  intros [Hh [Hc Hv]]. unfold saveHeader. rewrite <- Hc, <- Hh.
  destruct (JS.truthy (currentHeader s1)) eqn:Ht; [|reflexivity].
  apply truthy_true in Ht. rewrite (Hv Ht). reflexivity.
Qed.

Lemma headerStep_same (s1 s2 : HeaderState) (line : string) :
  sameHeaders s1 s2 -> sameHeaders (headerStep s1 line) (headerStep s2 line).
Proof.
  intros Hs. pose proof (saveHeader_same s1 s2 Hs) as Hsave.
  destruct Hs as [Hh [Hc Hv]]. unfold headerStep.
  destruct (isContinuation line).
  - repeat split; simpl; try assumption. intros Hne. rewrite (Hv Hne). reflexivity.
  - rewrite Hsave. destruct (0 <? JS.indexOf line ":"); repeat split; simpl;
      assumption.
Qed.

Lemma headerLoop_same (ls : list string) (s1 s2 : HeaderState) :
  sameHeaders s1 s2 -> sameHeaders (headerLoop s1 ls) (headerLoop s2 ls).
Proof.
  revert s1 s2. induction ls as [|l ls IH]; intros s1 s2 Hs; [exact Hs|].
  apply IH, headerStep_same, Hs.
Qed.

Lemma headerLoop_startsNothing (pre : list string) (v : string) :
  Forall startsNothing pre ->
  sameHeaders (headerLoop (mkHeaderState ∅ "" v) pre) (mkHeaderState ∅ "" "").
Proof.
  intros H. revert v. induction H as [|l ls Hl _ IH]; intros v.
  - repeat split. simpl. intros Hne. contradiction.
  - unfold headerLoop. simpl fold_left. unfold headerStep at 2.
    destruct (isContinuation l) eqn:Hc; simpl; [apply IH|].
    destruct Hl as [Hl | Hl]; [congruence|].
    assert ((0 <? JS.indexOf l ":") = false) as -> by (apply Z.ltb_ge; exact Hl).
    unfold saveHeader. simpl. apply IH.
Qed.

Lemma split_line (l rest : string) :
  noLF l = true -> JS.split LF (l +:+ nl +:+ rest) = l :: JS.split LF rest.
Proof.
  unfold noLF. induction l as [|c l IH]; intros H; [reflexivity|].
  simpl in H. apply andb_true_iff in H as [Hc H].
  rewrite app_cons, split_cons, (IH H). apply negb_true_iff in Hc.
  rewrite Hc. reflexivity.
Qed.

(** C10.  Every key of the parsed header map is a non-empty string that
    comes from a line that is not a continuation line and whose first colon
    is at a position greater than zero; and the lines met before any such
    line (continuation lines among them) leave no trace: the map is the one
    obtained without them, so they give no key and no part of a value. *)
Theorem parseHeaders_key_origin :
  (forall section k v, parseHeaders section !! k = Some v ->
     k <> "" /\
     exists line, In line (JS.split LF section)
       /\ isContinuation line = false
       /\ 0 < JS.indexOf line ":"
       /\ k = JS.trim (JS.substring line 0 (JS.indexOf line ":")))
  /\ (forall pre rest, Forall startsNothing pre ->
        parseHeaderLines (pre ++ rest) = parseHeaderLines rest)
  /\ (forall line section, isContinuation line = true -> noLF line = true ->
        parseHeaders (line +:+ nl +:+ section) = parseHeaders section).
Proof.
  assert (forall pre rest, Forall startsNothing pre ->
            parseHeaderLines (pre ++ rest) = parseHeaderLines rest) as Hpre.
  { intros pre rest H. unfold parseHeaderLines, headerLoop.
    rewrite fold_left_app. apply saveHeader_same.
    apply (headerLoop_same rest), headerLoop_startsNothing, H. }
  split; [|split].
  - intros section k v H. unfold parseHeaders, parseHeaderLines in H.
    apply (saveHeader_origin (JS.split LF section)) in H; [exact H|].
    apply headerLoop_origin; [|auto].
    split; simpl; [intros k' v' Hk'; rewrite lookup_empty in Hk'; discriminate|].
    intros Hne. contradiction.
  - exact Hpre.
  - intros line section Hc Hl. unfold parseHeaders.
    rewrite (split_line line section Hl).
    apply (Hpre [line]). constructor; [left; exact Hc | constructor].
Qed.

Lemma parseHeaders_key_origin_witness :
  parseHeaders leadingContinuation = parseHeaders ("Subject: a" +:+ nl +:+ " b")
  /\ parseHeaders leadingContinuation = <["Subject" := "a b"]> ∅
  /\ "Subject" <> "".
Proof.
  destruct parseHeaders_key_origin as [H1 [_ H3]].
  split; [|split].
  - apply (H3 " stray: text"); reflexivity.
  - vm_compute. reflexivity.
  - apply (H1 leadingContinuation "Subject" "a b"). vm_compute. reflexivity.
Defined.

(** ** Body decoding *)

Lemma hex_not_special (x : ascii) :
  isHexUpper x = true ->
  Ascii.eqb x "=" = false /\ Ascii.eqb x LF = false /\ Ascii.eqb x CR = false
  /\ (hexVal x <= 15)%N.
Proof.
  destruct x as [[] [] [] [] [] [] [] []]; vm_compute; intros H;
    try discriminate H; repeat split; intros; discriminate.
Qed.

Lemma matchSoftBreak_stable (a t : string) :
  stable matchSoftBreak a (String "=" t).
Proof.
  induction a as [|c a IH]; [exact I|]. split; [|split; [|exact IH]].
  - destruct a as [|c1 [|c2 a]]; rewrite ?app_cons; simpl.
    + destruct (Ascii.eqb c "="); reflexivity.
    + destruct (Ascii.eqb c "="), (Ascii.eqb c1 LF), (Ascii.eqb c1 CR); reflexivity.
    + reflexivity.
  - intros r n. destruct a as [|c1 [|c2 a]]; simpl; [discriminate| |].
    + destruct (Ascii.eqb c "="), (Ascii.eqb c1 LF), (Ascii.eqb c1 CR);
        intros [= <- <-] || discriminate; lia.
    + destruct (Ascii.eqb c "="), (Ascii.eqb c1 LF), (Ascii.eqb c1 CR),
        (Ascii.eqb c2 LF); intros [= <- <-] || discriminate; lia.
Qed.

Lemma matchHexEscape_stable (a t : string) :
  stable matchHexEscape a (String "=" t).
Proof.
  induction a as [|c a IH]; [exact I|]. split; [|split; [|exact IH]].
  - destruct a as [|c1 [|c2 a]]; rewrite ?app_cons; simpl.
    + destruct t as [|t0 t]; [reflexivity|]. rewrite andb_false_r. reflexivity.
    + rewrite andb_false_r. reflexivity.
    + reflexivity.
  - intros r n. destruct a as [|c1 [|c2 a]]; simpl; try discriminate.
    destruct (_ && _); intros [= <- <-] || discriminate. lia.
Qed.

Lemma removeSoftBreaks_break (a b : string) :
  removeSoftBreaks (a +:+ "=" +:+ nl +:+ b)
  = removeSoftBreaks a +:+ removeSoftBreaks b.
Proof.
  rewrite !removeSoftBreaks_direct.
  rewrite (replaceAll_app matchSoftBreak a) by apply matchSoftBreak_stable.
  reflexivity.
Qed.

Lemma removeSoftBreaks_escape (a : string) (x y : ascii) (b : string) :
  isHexUpper x = true -> isHexUpper y = true ->
  removeSoftBreaks (a +:+ String "=" (String x (String y b)))
  = removeSoftBreaks a +:+ String "=" (String x (String y (removeSoftBreaks b))).
Proof.
  intros Hx Hy. rewrite !removeSoftBreaks_direct.
  rewrite (replaceAll_app matchSoftBreak a) by apply matchSoftBreak_stable.
  f_equal. destruct (hex_not_special x Hx) as [Hx1 [Hx2 [Hx3 _]]].
  destruct (hex_not_special y Hy) as [Hy1 _].
  unfold JS.replaceAll. simpl. rewrite Hx1, Hx2, Hx3. simpl.
  destruct b as [|b0 b]; simpl; rewrite ?Hy1; reflexivity.
Qed.

Lemma decodeHexEscapes_escape (a : string) (x y : ascii) (b : string) :
  isHexUpper x = true -> isHexUpper y = true ->
  decodeHexEscapes (a +:+ String "=" (String x (String y b)))
  = decodeHexEscapes a +:+ String (hexChar x y) (decodeHexEscapes b).
Proof.
  intros Hx Hy. rewrite !decodeHexEscapes_direct.
  rewrite (replaceAll_app matchHexEscape a) by apply matchHexEscape_stable.
  f_equal.
  apply (replaceAll_match matchHexEscape (String "=" (String x (String y ""))) b
           (String (hexChar x y) "")); [discriminate|].
  simpl. rewrite Hx, Hy. reflexivity.
Qed.

Lemma hexChar_code (x y : ascii) :
  isHexUpper x = true -> isHexUpper y = true ->
  code (hexChar x y) = (hexVal x * 16 + hexVal y)%N.
Proof.
  intros Hx Hy. unfold code, hexChar. apply N_ascii_embedding.
  destruct (hex_not_special x Hx) as [_ [_ [_ Bx]]].
  destruct (hex_not_special y Hy) as [_ [_ [_ By]]]. lia.
Qed.

Lemma removeSoftBreaks_all (segments : list string) :
  Forall (noMatch reSoftBreak) segments ->
  removeSoftBreaks (JS.join ("=" +:+ nl) segments) = JS.join "" segments.
Proof.
  induction 1 as [|x rest Hx Hrest IH]; [reflexivity|].
  destruct rest as [|y rest'].
  - apply replace_noMatch, Hx.
  - change (JS.join ("=" +:+ nl) (x :: y :: rest'))
      with (x +:+ "=" +:+ nl +:+ JS.join ("=" +:+ nl) (y :: rest')).
    rewrite removeSoftBreaks_break, IH.
    unfold removeSoftBreaks. rewrite (replace_noMatch _ _ x Hx). reflexivity.
Qed.

Lemma decodeHexEscapes_all (pieces : list (string * ascii * ascii)) (last : string) :
  Forall plainBeforeEscape pieces -> noMatch reHexEscape last ->
  decodeHexEscapes (withEscapes pieces last) = withoutEscapes pieces last.
Proof.
  intros Hp Hl. induction Hp as [|[[t x] y] rest [Ht [Hx Hy]] _ IH].
  - apply replace_noMatch, Hl.
  - simpl. rewrite (decodeHexEscapes_escape t x y _ Hx Hy), IH.
    unfold decodeHexEscapes. rewrite (replace_noMatch _ _ t Ht). reflexivity.
Qed.

Example hexChar_E9 : code (hexChar "E" "9") = 233%N.
Proof. reflexivity. Qed.

(** C7.  [cleanBody] removes every soft line break of the body (an [=]
    immediately followed by a newline), replaces every [=XY] escape with two
    upper-case hex digits by the character whose code those digits give,
    takes white space away from both ends of the result, and is a total
    function.  [Caf=E9] becomes [Caf] followed by the character of code
    0xE9, and [line1=], newline, [line2] becomes [line1line2]. *)
Theorem cleanBody_decodes :
  (forall body, cleanBody body = JS.trim (decodeHexEscapes (removeSoftBreaks body)))
  /\ (forall a b,
        removeSoftBreaks (a +:+ "=" +:+ nl +:+ b)
        = removeSoftBreaks a +:+ removeSoftBreaks b)
  /\ (forall segments, Forall (noMatch reSoftBreak) segments ->
        removeSoftBreaks (JS.join ("=" +:+ nl) segments) = JS.join "" segments)
  /\ (forall pieces last,
        Forall plainBeforeEscape pieces -> noMatch reHexEscape last ->
        decodeHexEscapes (withEscapes pieces last) = withoutEscapes pieces last)
  /\ (forall a x y b, isHexUpper x = true -> isHexUpper y = true ->
        cleanBody (a +:+ String "=" (String x (String y b)))
        = JS.trim (decodeHexEscapes (removeSoftBreaks a)
                   +:+ String (hexChar x y) (decodeHexEscapes (removeSoftBreaks b)))
        /\ code (hexChar x y) = (hexVal x * 16 + hexVal y)%N)
  /\ (forall body, exists l r,
        decodeHexEscapes (removeSoftBreaks body) = l +:+ cleanBody body +:+ r
        /\ allChars isWhite l = true /\ allChars isWhite r = true
        /\ headWhite (cleanBody body) = false
        /\ lastWhite (cleanBody body) = false)
  /\ cleanBody "Caf=E9" = "Caf" +:+ String (ascii_of_N 233) ""
  /\ cleanBody ("line1=" +:+ nl +:+ "line2") = "line1line2".
Proof.
  split; [reflexivity|]. split; [exact removeSoftBreaks_break|].
  split; [exact removeSoftBreaks_all|]. split; [exact decodeHexEscapes_all|].
  split; [|split; [|split; vm_compute; reflexivity]].
  - intros a x y b Hx Hy. split; [|apply hexChar_code; assumption].
    unfold cleanBody. fold (removeSoftBreaks (a +:+ String "=" (String x (String y b)))).
    rewrite (removeSoftBreaks_escape a x y b Hx Hy).
    fold (decodeHexEscapes
            (removeSoftBreaks a +:+ String "=" (String x (String y (removeSoftBreaks b))))).
    rewrite (decodeHexEscapes_escape _ x y _ Hx Hy). reflexivity.
  - intros body. apply trim_spec.
Qed.

Lemma cleanBody_decodes_witness :
  cleanBody ("Caf" +:+ String "=" (String "E" (String "9" "")))
  = "Caf" +:+ String (ascii_of_N 233) ""
  /\ code (hexChar "E" "9") = 233%N.
Proof.
  destruct cleanBody_decodes as [_ [_ [_ [_ [H _]]]]].
  destruct (H "Caf" "E"%char "9"%char "" eq_refl eq_refl) as [H1 H2].
  split; [rewrite H1; vm_compute; reflexivity | exact H2].
Defined.

(** ** Encoded words *)

Lemma encodedWord_length (cs : string) (e : ascii) (p : string) :
  String.length (encodedWord cs e p) = (String.length cs + String.length p + 7)%nat.
Proof.
  unfold encodedWord. rewrite !app_length_s. simpl. lia.
Qed.

Lemma matchEncodedWord_word (cs : string) (e : ascii) (p rest : string) :
  cs <> "" -> p <> "" ->
  allChars notQuestion cs = true -> allChars notQuestion p = true ->
  isBQ e = true ->
  matchEncodedWord (encodedWord cs e p +:+ rest)
  = Some (p, String.length (encodedWord cs e p)).
Proof.
  intros Hcs Hp Acs Ap He. rewrite encodedWord_length. unfold encodedWord.
  rewrite !app_assoc_s.
  change ("=?" +:+ cs +:+ "?" +:+ String e "?" +:+ p +:+ "?=" +:+ rest)
    with (String "=" (String "?"
            (cs +:+ String "?" (String e (String "?" (p +:+ String "?" (String "=" rest))))))).
  unfold matchEncodedWord. simpl andb. cbv iota.
  rewrite (span_run notQuestion cs "?") by (assumption || reflexivity).
  rewrite (span_run notQuestion p "?") by (assumption || reflexivity).
  apply truthy_true in Hcs, Hp. rewrite Hcs, Hp, He. reflexivity.
Qed.

Lemma decodeWord_word (cs : string) (e : ascii) (p rest : string) :
  cs <> "" -> p <> "" ->
  allChars notQuestion cs = true -> allChars notQuestion p = true ->
  isBQ e = true ->
  decodeWord (encodedWord cs e p +:+ rest)
  = Some (default (encodedWord cs e p) (atob p),
          String.length (encodedWord cs e p)).
Proof.
  intros Hcs Hp Acs Ap He. unfold decodeWord.
  rewrite (matchEncodedWord_word cs e p rest Hcs Hp Acs Ap He).
  rewrite take_app_exact. unfold decodeReplacement.
  destruct (atob p); reflexivity.
Qed.

Lemma matchEncodedWord_start (c0 c1 : ascii) (s : string) :
  Ascii.eqb c0 "=" && Ascii.eqb c1 "?" = false ->
  matchEncodedWord (String c0 (String c1 s)) = None.
Proof. intros H. unfold matchEncodedWord. rewrite H. reflexivity. Qed.

Lemma decodeWord_none_prefix (a t : string) :
  a <> "" -> JS.startsWith a "=?" = false ->
  decodeWord a = None /\ decodeWord (a +:+ String "=" t) = None.
Proof.
  intros Ha Hs. destruct a as [|c0 [|c1 a]]; [contradiction| |].
  - split; [reflexivity|]. unfold decodeWord. rewrite app_cons, app_empty_l.
    rewrite matchEncodedWord_start; [reflexivity|]. apply andb_false_r.
  - assert (Ascii.eqb c0 "=" && Ascii.eqb c1 "?" = false) as Hc.
    { simpl in Hs. destruct a; simpl in Hs; rewrite andb_true_r in Hs; exact Hs. }
    unfold decodeWord. rewrite !app_cons, !matchEncodedWord_start by exact Hc.
    split; reflexivity.
Qed.

Lemma decodeWord_stable (a t : string) :
  JS.includes a "=?" = false -> stable decodeWord a (String "=" t).
Proof.
  induction a as [|c a IH]; intros H; [exact I|].
  apply includes_cons_false in H as [Hs H].
  destruct (decodeWord_none_prefix (String c a) t) as [H1 H2];
    [discriminate | exact Hs |].
  split; [congruence|]. split; [|apply IH, H].
  intros r n Hm. congruence.
Qed.

Lemma decodeWords_plain (a : string) :
  JS.includes a "=?" = false -> decodeWords a = a.
Proof.
  intros H. rewrite decodeWords_direct. apply replaceAll_none.
  intros pre post ->.
  assert (JS.includes post "=?" = false) as Hp.
  { clear -H. induction pre as [|c pre IH]; [exact H|].
    rewrite app_cons in H. apply includes_cons_false in H as [_ H]. auto. }
  destruct post as [|c post]; [reflexivity|].
  apply includes_cons_false in Hp as [Hs _].
  apply (decodeWord_none_prefix (String c post) ""); [discriminate | exact Hs].
Qed.

Lemma decodeWords_word (a cs : string) (e : ascii) (p b : string) :
  JS.includes a "=?" = false ->
  cs <> "" -> p <> "" ->
  allChars notQuestion cs = true -> allChars notQuestion p = true ->
  isBQ e = true ->
  decodeWords (a +:+ encodedWord cs e p +:+ b)
  = a +:+ default (encodedWord cs e p) (atob p) +:+ decodeWords b.
Proof.
  intros Ha Hcs Hp Acs Ap He.
  rewrite <- (decodeWords_plain a Ha) at 2. rewrite !decodeWords_direct.
  assert (exists t, encodedWord cs e p +:+ b = String "=" t) as [t Ht]
    by (eexists; reflexivity).
  rewrite Ht, (replaceAll_app decodeWord a) by apply decodeWord_stable, Ha.
  rewrite <- Ht. f_equal. apply replaceAll_match.
  - unfold encodedWord. discriminate.
  - apply decodeWord_word; assumption.
Qed.

Lemma decodeWords_all (pieces : list (string * EncodedWord)) (last : string) :
  Forall plainBeforeWord pieces -> JS.includes last "=?" = false ->
  decodeWords (withWords pieces last) = withWordsDecoded pieces last.
Proof.
  intros Hp Hl. induction Hp as [|[t w] rest [Ht Hw] _ IH].
  - apply decodeWords_plain, Hl.
  - destruct Hw as [Hcs [Hpl [Acs [Apl He]]]]. simpl in *.
    unfold wordText at 1.
    rewrite (decodeWords_word t _ _ _ _ Ht Hcs Hpl Acs Apl He), IH. reflexivity.
Qed.

Lemma trim_encodedWord (cs : string) (e : ascii) (p : string) :
  JS.trim (encodedWord cs e p) = encodedWord cs e p.
Proof.
  apply trim_fixed; [reflexivity|]. unfold encodedWord.
  rewrite <- !app_assoc_s. apply lastWhite_app. discriminate.
Qed.

(** The replacement pass, word by word.  An encoded word
    [=?charset?B?payload?=] or [=?charset?Q?payload?=] (the letter in either
    case) found by the left-to-right scan is replaced by what [atob] gives
    for its payload when [atob] succeeds, and is left as it is, code unit for
    code unit, when [atob] fails; the text in front of it that holds no [=?]
    is unchanged and the scan goes on behind it.  The letter of the word
    plays no part: the payload of a [Q] word is read as base64 too. *)
Theorem decodeHeader_encoded_words :
  (forall value, decodeHeader value = JS.trim (decodeWords value))
  /\ (forall a cs e p b,
        JS.includes a "=?" = false ->
        cs <> "" -> p <> "" ->
        allChars notQuestion cs = true -> allChars notQuestion p = true ->
        isBQ e = true ->
        (forall text, atob p = Some text ->
           decodeWords (a +:+ encodedWord cs e p +:+ b)
           = a +:+ text +:+ decodeWords b)
        /\ (atob p = None ->
            decodeWords (a +:+ encodedWord cs e p +:+ b)
            = a +:+ encodedWord cs e p +:+ decodeWords b)
        /\ (atob p = None ->
            decodeHeader (encodedWord cs e p) = encodedWord cs e p))
  /\ (forall pieces last,
        Forall plainBeforeWord pieces -> JS.includes last "=?" = false ->
        decodeWords (withWords pieces last) = withWordsDecoded pieces last)
  /\ decodeHeader "=?UTF-8?B?SGVsbG8=?=" = "Hello".
Proof.
  split; [reflexivity|]. split; [|split; [exact decodeWords_all|vm_compute; reflexivity]].
  intros a cs e p b Ha Hcs Hp Acs Ap He.
  pose proof (decodeWords_word a cs e p b Ha Hcs Hp Acs Ap He) as H.
  split; [|split].
  - intros text Ht. rewrite H, Ht. reflexivity.
  - intros Hn. rewrite H, Hn. reflexivity.
  - intros Hn. unfold decodeHeader. fold (decodeWords (encodedWord cs e p)).
    pose proof (decodeWords_word "" cs e p "" eq_refl Hcs Hp Acs Ap He) as H0.
    rewrite app_empty_l, app_empty_r in H0. rewrite H0, Hn. simpl default.
    change (decodeWords "") with "". rewrite app_empty_r.
    apply trim_encodedWord.
Qed.

Lemma decodeHeader_encoded_words_witness :
  decodeWords ("Re: " +:+ encodedWord "UTF-8" "B" "SGVsbG8=" +:+ " there")
  = "Re: Hello there"
  /\ decodeWords ("Re: " +:+ encodedWord "UTF-8" "Q" "Caf=E9" +:+ " there")
     = "Re: =?UTF-8?Q?Caf=E9?= there"
  /\ decodeHeader (encodedWord "UTF-8" "Q" "Caf=E9") = "=?UTF-8?Q?Caf=E9?=".
Proof.
  destruct decodeHeader_encoded_words as [_ [H _]].
  destruct (H "Re: " "UTF-8" "B"%char "SGVsbG8=" " there")
    as [H1 _]; try reflexivity; try discriminate.
  destruct (H "Re: " "UTF-8" "Q"%char "Caf=E9" " there")
    as [_ [H2 H3]]; try reflexivity; try discriminate.
  split; [|split].
  - rewrite (H1 "Hello" eq_refl). reflexivity.
  - rewrite (H2 eq_refl). reflexivity.
  - rewrite (H3 eq_refl). reflexivity.
Defined.

(** C8.  The code does not decode [Q] words: it matches them with the same
    pattern as [B] words and hands their payload to [atob].  The word
    [=?UTF-8?Q?Test?=], whose payload is the text [Test] in the Q encoding,
    is replaced by the three bytes that [Test] gives when read as base64
    (codes 77, 235, 45) and not by [Test], while the [B] word for the same
    text, [=?UTF-8?B?VGVzdA==?=], gives [Test].  The valid [Q] words
    [=?ISO-8859-1?Q?Caf=E9?=] and [=?UTF-8?Q?Hello_World?=] are left as they
    are, as decoding failures, although [cleanBody] decodes the same escape
    [=E9] in a body. *)
Theorem decodeHeader_Q_word_read_as_base64 :
  decodeHeader "=?UTF-8?Q?Test?="
  = String "M" (String (ascii_of_N 235) (String "-" ""))
  /\ decodeHeader "=?UTF-8?Q?Test?=" <> "Test"
  /\ decodeHeader "=?UTF-8?B?VGVzdA==?=" = "Test"
  /\ decodeHeader "=?ISO-8859-1?Q?Caf=E9?=" = "=?ISO-8859-1?Q?Caf=E9?="
  /\ cleanBody "Caf=E9" = "Caf" +:+ String (ascii_of_N 233) ""
  /\ decodeHeader "=?UTF-8?Q?Hello_World?=" = "=?UTF-8?Q?Hello_World?=".
Proof.
  assert (decodeHeader "=?UTF-8?Q?Test?="
          = String "M" (String (ascii_of_N 235) (String "-" ""))) as H
    by (vm_compute; reflexivity).
  split; [exact H|]. split; [rewrite H; discriminate|].
  repeat split; vm_compute; reflexivity.
Qed.

(** ** Date normalisation *)

Lemma matchParenComment_other (c : ascii) (s : string) :
  Ascii.eqb c "(" = false -> matchParenComment (String c s) = None.
Proof. intros H. simpl. rewrite H. reflexivity. Qed.

Lemma matchParenComment_stable (a t : string) :
  allChars notParen a = true -> stable matchParenComment a t.
Proof.
  induction a as [|c a IH]; intros H; [exact I|].
  simpl in H. apply andb_true_iff in H as [Hc H]. apply negb_true_iff in Hc.
  split; [|split; [|apply IH, H]].
  - rewrite app_cons, !matchParenComment_other by exact Hc. reflexivity.
  - intros r n. rewrite matchParenComment_other by exact Hc. discriminate.
Qed.

(** A parenthesized comment on one line is taken out, the text in front of
it that holds no opening parenthesis stays, and the scan goes on. *)
Lemma removeParenComments_comment (a comment b : string) :
  allChars notParen a = true -> allChars inComment comment = true ->
  removeParenComments (a +:+ "(" +:+ comment +:+ ")" +:+ b)
  = a +:+ removeParenComments b.
Proof.
  intros Ha Hc. rewrite !removeParenComments_direct.
  rewrite (replaceAll_app matchParenComment a) by apply matchParenComment_stable, Ha.
  rewrite (replaceAll_none matchParenComment a).
  - f_equal.
    rewrite <- (app_assoc_s "(" comment), <- (app_assoc_s ("(" +:+ comment) ")" b).
    rewrite (replaceAll_match matchParenComment (("(" +:+ comment) +:+ ")") b "");
      [reflexivity | discriminate |].
    rewrite !app_assoc_s.
    change ("(" +:+ comment +:+ ")" +:+ b) with (String "(" (comment +:+ String ")" b)).
    unfold matchParenComment. rewrite Ascii.eqb_refl.
    rewrite (span_run inComment comment ")" b Hc eq_refl).
    simpl JS.startsWith. destruct b; simpl; f_equal; f_equal;
      rewrite !app_length_s; simpl; lia.
  - intros pre post ->. destruct post as [|c post]; [reflexivity|].
    apply matchParenComment_other.
    clear -Ha. induction pre as [|d pre IH].
    + simpl in Ha. apply andb_true_iff in Ha as [Ha _].
      apply negb_true_iff in Ha. exact Ha.
    + rewrite app_cons in Ha. simpl in Ha.
      apply andb_true_iff in Ha as [_ Ha]. auto.
Qed.

Section DateSpec.

Variable dateParse : string -> option Z.

(** [new Date("")] is an invalid date. *)
Hypothesis dateParse_empty : dateParse "" = None.

(** C6.  [parseDate] first parses the string as it is; when that fails it
    takes the parenthesized comments out, trims, and parses again; when
    that fails too the result is [null].  It is a total function: every
    string gets a result.  The example with the [(UTC)] comment gets a
    time stamp as soon as the platform parses it, with or without the
    comment. *)
Theorem parseDate_fallback :
  (forall s, parseDate dateParse s =
     match dateParse s with
     | Some t => Some t
     | None => dateParse (stripParenComments s)
     end)
  /\ (forall s t, dateParse s = Some t -> parseDate dateParse s = Some t)
  /\ (forall s, dateParse s = None ->
        parseDate dateParse s = dateParse (stripParenComments s))
  /\ (forall a comment b,
        allChars notParen a = true -> allChars inComment comment = true ->
        stripParenComments (a +:+ "(" +:+ comment +:+ ")" +:+ b)
        = JS.trim (a +:+ removeParenComments b))
  /\ stripParenComments utcExample = "Mon, 12 Jan 2023 15:30:45 +0000"
  /\ ((exists t, dateParse utcExample = Some t)
      \/ (exists t, dateParse "Mon, 12 Jan 2023 15:30:45 +0000" = Some t) ->
      exists t, parseDate dateParse utcExample = Some t).
Proof.
  assert (forall s, parseDate dateParse s =
     match dateParse s with
     | Some t => Some t
     | None => dateParse (stripParenComments s)
     end) as Heq.
  { intros s. unfold parseDate. destruct s as [|c s].
    - simpl. rewrite dateParse_empty. symmetry. exact dateParse_empty.
    - simpl negb. cbv iota.
      destruct (dateParse (String c s)) eqn:E1; [reflexivity|].
      destruct (dateParse (stripParenComments (String c s))) eqn:E2; reflexivity. }
  split; [exact Heq|]. split; [|split; [|split; [|split]]].
  - intros s t H. rewrite Heq, H. reflexivity.
  - intros s H. rewrite Heq, H. reflexivity.
  - intros a comment b Ha Hc. unfold stripParenComments.
    fold (removeParenComments (a +:+ "(" +:+ comment +:+ ")" +:+ b)).
    rewrite (removeParenComments_comment a comment b Ha Hc). reflexivity.
  - vm_compute. reflexivity.
  - intros [[t H] | [t H]]; rewrite Heq.
    + rewrite H. eauto.
    + destruct (dateParse utcExample) as [t'|]; [eauto|].
      rewrite stripParenComments_utc.
      rewrite H. eauto.
Qed.

End DateSpec.

Lemma parseDate_fallback_witness :
  parseDate oneDateParse utcExample = Some 1673537445000
  /\ parseDate oneDateParse "yesterday (or so)" = None.
Proof.
  destruct (parseDate_fallback oneDateParse eq_refl) as [H _].
  split; rewrite H; reflexivity.
Defined.

(** * Further properties of the parser *)

(** ** Blocks *)

Lemma startsWith_delimiter (c : ascii) (s : string) :
  JS.startsWith (String c s) delimiter
  = Ascii.eqb c LF && JS.startsWith s "From ".
Proof. reflexivity. Qed.

Lemma splitBlocks_empty : splitBlocks "" = [""].
Proof. vm_compute. reflexivity. Qed.

Lemma splitBlocks_length (s : string) :
  List.length (splitBlocks s) = S (countDelimiters s).
Proof.
  induction s as [|c s IH]; [rewrite splitBlocks_empty; reflexivity|].
  rewrite splitBlocks_cons.
  change (countDelimiters (String c s))
    with ((if JS.startsWith (String c s) delimiter then 1 else 0)
          + countDelimiters s)%nat.
  rewrite startsWith_delimiter.
  destruct (Ascii.eqb c LF && JS.startsWith s "From ").
  - simpl. rewrite IH. reflexivity.
  - pose proof (splitBlocks_nonempty s) as Hne.
    destruct (splitBlocks s) as [|h t]; [contradiction|]. simpl in *. exact IH.
Qed.

Lemma splitBlocks_single (s : string) :
  JS.includes s delimiter = false -> splitBlocks s = [s].
Proof.
  induction s as [|c s IH]; intros H; [apply splitBlocks_empty|].
  apply includes_cons_false in H as [Hs H]. rewrite startsWith_delimiter in Hs.
  rewrite splitBlocks_cons, Hs, (IH H). reflexivity.
Qed.

(** X1.  The split gives one block more than there are places in the
    content where a newline is followed by [From ]; a content without such a
    place comes back as a single block, the content itself. *)
Theorem splitBlocks_block_count (content : string) :
  List.length (splitBlocks content) = S (countDelimiters content)
  /\ (JS.includes content delimiter = false -> splitBlocks content = [content]).
Proof. split; [apply splitBlocks_length | apply splitBlocks_single]. Qed.

Lemma splitBlocks_block_count_witness :
  splitBlocks ("no delimiter" +:+ nl +:+ "Fromage") = ["no delimiter" +:+ nl +:+ "Fromage"].
Proof.
  apply (splitBlocks_block_count ("no delimiter" +:+ nl +:+ "Fromage")).
  reflexivity.
Defined.

Lemma first_block_startsWith (p s : string) :
  noLF p = true ->
  JS.startsWith (hd "" (splitBlocks s)) p = JS.startsWith s p.
Proof.
  intros Hp. pose proof (join_splitBlocks s) as Hj.
  pose proof (splitBlocks_nonempty s) as Hne.
  destruct (splitBlocks s) as [|h [|h' t]]; [contradiction| |].
  - simpl in *. rewrite Hj. reflexivity.
  - change (JS.join nl (h :: h' :: t)) with (h +:+ nl +:+ JS.join nl (h' :: t)) in Hj.
    rewrite <- Hj. simpl hd.
    rewrite startsWith_before_nl, startsWith_drop_nl by exact Hp. reflexivity.
Qed.

(** X2.  Whatever the content, no block holds a newline followed by
    [From ], and every block but the first starts with [From ]. *)
Theorem splitBlocks_blocks_shape (content : string) :
  Forall (fun b => JS.includes b delimiter = false) (splitBlocks content)
  /\ Forall (fun b => JS.startsWith b "From " = true) (tl (splitBlocks content)).
Proof.
  induction content as [|c s [IH1 IH2]].
  - rewrite splitBlocks_empty. split; repeat constructor.
  - pose proof (first_block_startsWith "From " s eq_refl) as Hhd.
    rewrite splitBlocks_cons.
    pose proof (splitBlocks_nonempty s) as Hne.
    destruct (splitBlocks s) as [|h t]; [contradiction|]. simpl hd in Hhd.
    destruct (Ascii.eqb c LF && JS.startsWith s "From ") eqn:Hcut.
    + apply andb_true_iff in Hcut as [_ Hs]. split.
      * constructor; [reflexivity | exact IH1].
      * simpl tl. constructor; [rewrite Hhd; exact Hs | exact IH2].
    + simpl. inversion IH1 as [|? ? Hh Ht]; subst. split; [|exact IH2].
      constructor; [|exact Ht].
      rewrite (includes_unfold (String c h)).
      change (JS.startsWith (String c h) delimiter)
        with (Ascii.eqb c LF && JS.startsWith h "From ").
      rewrite Hhd, Hcut. exact Hh.
Qed.

(** ** The loop over the blocks *)

Lemma processBlocks_spec (config : IdentityConfig) (blocks : list string)
    (st : ParseState) :
  let parsed := omap parseEmail (List.filter JS.truthy (map JS.trim blocks)) in
  processBlocks config st blocks
  = mkParseState
      (emails st ++ List.filter (fun e => negb (isSelfEmail config e)) parsed)
      (skippedSelfEmails st + List.length (List.filter (isSelfEmail config) parsed)).
Proof.
  revert st. induction blocks as [|b blocks IH]; intros st.
  - simpl. rewrite app_nil_r, Nat.add_0_r. destruct st; reflexivity.
  - change (processBlocks config st (b :: blocks))
      with (processBlocks config (processBlock config st b) blocks).
    rewrite IH. unfold processBlock. simpl map. simpl List.filter.
    destruct (JS.truthy (JS.trim b)); [|reflexivity].
    simpl omap. destruct (parseEmail (JS.trim b)) as [email|]; [|reflexivity].
    simpl List.filter. destruct (isSelfEmail config email); simpl.
    + f_equal. symmetry. apply Nat.add_succ_r.
    + rewrite <- app_assoc. reflexivity.
Qed.

(** X3.  [parseContent] returns, in the order of the archive, exactly the
    records parsed from the non-empty trimmed blocks that the classifier does
    not exclude; its counter of skipped messages is the number of parsed
    records the classifier excludes; so kept and skipped records together
    are never more than the blocks. *)
Theorem parseContent_is_filter (config : IdentityConfig) (content : string) :
  parseContent config content
  = List.filter (fun e => negb (isSelfEmail config e)) (parsedRecords content)
  /\ skippedSelfEmails
       (processBlocks config (mkParseState [] 0) (splitBlocks content))
     = List.length (List.filter (isSelfEmail config) (parsedRecords content))
  /\ (List.length (parseContent config content)
      + List.length (List.filter (isSelfEmail config) (parsedRecords content))
      <= List.length (splitBlocks content))%nat.
Proof.
  unfold parseContent, parsedRecords, parsedBlocks.
  rewrite processBlocks_spec. simpl emails. simpl skippedSelfEmails.
  split; [reflexivity|]. split; [reflexivity|].
  set (bs := splitBlocks content).
  set (parsed := omap parseEmail (List.filter JS.truthy (map JS.trim bs))).
  assert (List.length parsed <= List.length bs)%nat as Hle.
  { unfold parsed. clear. induction bs as [|b bs IH]; [simpl; lia|].
    simpl map. simpl List.filter.
    destruct (JS.truthy (JS.trim b)); [|simpl; lia].
    change (omap parseEmail (JS.trim b :: ?l))
      with (match parseEmail (JS.trim b) with
            | Some e => e :: omap parseEmail l
            | None => omap parseEmail l
            end).
    destruct (parseEmail (JS.trim b)); simpl List.length; lia. }
  assert (forall (f : EmailData -> bool) l,
            (List.length (List.filter (fun e => negb (f e)) l)
             + List.length (List.filter f l) = List.length l)%nat) as Hsplit.
  { intros f l. induction l as [|x l IH]; [reflexivity|].
    simpl. destruct (f x); simpl; lia. }
  rewrite Hsplit. exact Hle.
Qed.


(** ** The separator line and the boundary between headers and body *)

Lemma drop_app_exact (w rest : string) : JS.drop (String.length w) (w +:+ rest) = rest.
Proof. induction w as [|c w IH]; [reflexivity|]. rewrite app_cons. exact IH. Qed.

Lemma first_line_startsWith (p s : string) :
  noLF p = true ->
  JS.startsWith (hd "" (JS.split LF s)) p = JS.startsWith s p.
Proof.
  revert p. induction s as [|c s IH]; intros p Hp; [reflexivity|].
  rewrite split_cons. pose proof (split_nonempty LF s) as Hne.
  destruct (JS.split LF s) as [|h t] eqn:Hs; [contradiction|].
  simpl hd in IH.
  destruct p as [|a p]; [destruct (Ascii.eqb c LF); reflexivity|].
  unfold noLF in Hp. simpl in Hp. apply andb_true_iff in Hp as [Ha Hp].
  destruct (Ascii.eqb_spec c LF) as [-> | Hc].
  - change (false = Ascii.eqb LF a && JS.startsWith s p).
    destruct (Ascii.eqb_spec LF a) as [<- | _]; [discriminate Ha | reflexivity].
  - change (Ascii.eqb c a && JS.startsWith ("" +:+ h) p
            = Ascii.eqb c a && JS.startsWith s p).
    rewrite app_empty_l, (IH p Hp). reflexivity.
Qed.

Lemma stripSeparator_plain (content : string) :
  JS.startsWith content "From " = false -> stripSeparator content = content.
Proof.
  intros H. unfold stripSeparator.
  rewrite (first_line_startsWith "From " content eq_refl), H, andb_false_r.
  reflexivity.
Qed.

Lemma stripSeparator_From (l content : string) :
  noLF l = true -> stripSeparator ("From " +:+ l +:+ nl +:+ content) = content.
Proof.
  intros Hl. unfold stripSeparator.
  rewrite <- (app_assoc_s "From " l (nl +:+ content)).
  assert (noLF ("From " +:+ l) = true) as Hl' by exact Hl.
  rewrite (split_line _ _ Hl'). simpl hd.
  assert (JS.truthy ("From " +:+ l) && JS.startsWith ("From " +:+ l) "From " = true)
    as ->.
  { rewrite !app_cons. simpl. destruct (l : string); reflexivity. }
  unfold JS.substringFrom, JS.length.
  replace (Z.to_nat (Z.of_nat (String.length ("From " +:+ l)) + 1))
    with (String.length (("From " +:+ l) +:+ nl))
    by (rewrite app_length_s; simpl String.length; lia).
  rewrite <- (app_assoc_s ("From " +:+ l) nl content).
  apply drop_app_exact.
Qed.

(** X4.  When a block opens with an mbox separator line, [parseEmail] looks
    at nothing of that line but its first five characters: the content is
    what follows the first newline, and the result is the one the content
    alone would give. *)
Theorem parseEmail_drops_separator_line (l content : string) :
  noLF l = true ->
  JS.startsWith content "From " = false ->
  stripSeparator ("From " +:+ l +:+ nl +:+ content) = content
  /\ parseEmailOutcome ("From " +:+ l +:+ nl +:+ content) = parseEmailOutcome content
  /\ parseEmail ("From " +:+ l +:+ nl +:+ content) = parseEmail content.
Proof.
  intros Hl Hc.
  assert (parseEmailOutcome ("From " +:+ l +:+ nl +:+ content)
          = parseEmailOutcome content) as Hout.
  { unfold parseEmailOutcome.
    rewrite (stripSeparator_From l content Hl), (stripSeparator_plain content Hc).
    reflexivity. }
  split; [apply stripSeparator_From, Hl|]. split; [exact Hout|].
  unfold parseEmail. rewrite Hout. reflexivity.
Qed.

Lemma parseEmail_drops_separator_line_witness :
  parseEmail ("From " +:+ "MAILER-DAEMON Thu Jan  1 00:00:00 2015" +:+ nl +:+ helloWorld)
  = parseEmail helloWorld.
Proof.
  apply (parseEmail_drops_separator_line
           "MAILER-DAEMON Thu Jan  1 00:00:00 2015" helloWorld);
    reflexivity.
Defined.

Lemma indexOf_blank_line (h rest : string) :
  JS.includes (h +:+ nl) (nl +:+ nl) = false ->
  JS.indexOf (h +:+ nl +:+ nl +:+ rest) (nl +:+ nl) = Z.of_nat (String.length h).
Proof.
  induction h as [|x h IH]; intros H;
    [rewrite indexOf_unfold; destruct rest; reflexivity|].
  rewrite app_cons in H. apply includes_cons_false in H as [Hs H].
  rewrite app_cons, indexOf_unfold.
  assert (JS.startsWith (String x (h +:+ nl +:+ nl +:+ rest)) (nl +:+ nl)
          = JS.startsWith (String x (h +:+ nl)) (nl +:+ nl)) as ->.
  { destruct h as [|y h]; [|rewrite !app_cons]; simpl;
      repeat match goal with |- context [JS.startsWith ?s ""] =>
        replace (JS.startsWith s "") with true by (destruct s; reflexivity) end;
      reflexivity. }
  rewrite Hs. cbv zeta. rewrite (IH H).
  destruct (Z.of_nat (String.length h) <? 0) eqn:Hlt;
    [apply Z.ltb_lt in Hlt; lia|].
  simpl String.length. lia.
Qed.

(** X5.  When the text [h] holds no empty line and does not end in a
    newline, the first blank line of [h], an empty line, [b] is the
    boundary: the header section is [h] and the body is [b] cleaned. *)
Theorem blank_line_boundary (h b : string) :
  JS.includes (h +:+ nl) (nl +:+ nl) = false ->
  splitHeaderBody (h +:+ nl +:+ nl +:+ b) = (h, cleanBody b).
Proof.
  intros H. unfold splitHeaderBody.
  rewrite (indexOf_blank_line h b H). cbv zeta.
  destruct (Z.of_nat (String.length h) =? -1) eqn:He;
    [apply Z.eqb_eq in He; lia|].
  simpl negb. cbv iota. unfold JS.substring, JS.substringFrom.
  replace (Z.to_nat (Z.of_nat (String.length h)) - Z.to_nat 0)%nat
    with (String.length h) by lia.
  change (JS.drop (Z.to_nat 0) ?s) with s.
  rewrite take_app_exact.
  replace (Z.to_nat (Z.of_nat (String.length h) + 2))
    with (String.length (h +:+ nl +:+ nl))
    by (rewrite !app_length_s; simpl String.length; lia).
  rewrite <- (app_assoc_s nl nl b), <- (app_assoc_s h (nl +:+ nl) b).
  rewrite drop_app_exact. reflexivity.
Qed.

Lemma blank_line_boundary_witness :
  splitHeaderBody (("From: a@x.com" +:+ nl +:+ "To: b@y.com") +:+ nl +:+ nl +:+ "Hi")
  = ("From: a@x.com" +:+ nl +:+ "To: b@y.com", cleanBody "Hi").
Proof.
  apply (blank_line_boundary ("From: a@x.com" +:+ nl +:+ "To: b@y.com") "Hi").
  reflexivity.
Defined.

Lemma indexOf_found (p s : string) (n : nat) :
  JS.indexOf s p = Z.of_nat n ->
  s = JS.take n s +:+ p +:+ JS.drop (n + String.length p) s.
Proof.
  revert n. induction s as [|c s IH]; intros n H; rewrite indexOf_unfold in H.
  - destruct p as [|a p]; [|simpl in H; lia].
    destruct n; [reflexivity | simpl in H; lia].
  - destruct (JS.startsWith (String c s) p) eqn:Hs.
    + assert (n = 0%nat) as -> by lia.
      apply startsWith_spec in Hs as [post Hpost].
      rewrite Hpost at 1. simpl JS.take. rewrite app_empty_l, Hpost.
      simpl Nat.add. rewrite drop_app_exact. reflexivity.
    + cbv zeta in H. destruct (JS.indexOf s p <? 0) eqn:Hlt; [lia|].
      apply Z.ltb_ge in Hlt. destruct n as [|n]; [lia|].
      assert (JS.indexOf s p = Z.of_nat n) as Hn by lia.
      simpl JS.take. simpl JS.drop. rewrite app_cons.
      f_equal. apply IH, Hn.
Qed.

Lemma join_split (s : string) : JS.join nl (JS.split LF s) = s.
Proof.
  induction s as [|c s IH]; [reflexivity|].
  rewrite split_cons. pose proof (split_nonempty LF s) as Hne.
  destruct (JS.split LF s) as [|h t] eqn:Hs; [contradiction|].
  destruct (Ascii.eqb_spec c LF) as [-> | Hc].
  - change (JS.join nl ("" :: h :: t)) with ("" +:+ nl +:+ JS.join nl (h :: t)).
    rewrite IH. reflexivity.
  - simpl prependToFirst. rewrite app_cons, app_empty_l.
    destruct t as [|h' t].
    + simpl in *. rewrite IH. reflexivity.
    + change (JS.join nl (String c h :: h' :: t))
        with (String c h +:+ nl +:+ JS.join nl (h' :: t)).
      change (JS.join nl (h :: h' :: t))
        with (h +:+ nl +:+ JS.join nl (h' :: t)) in IH.
      rewrite app_cons, IH. reflexivity.
Qed.

Lemma join_app (a b : list string) :
  a <> [] -> b <> [] ->
  JS.join nl (a ++ b) = JS.join nl a +:+ nl +:+ JS.join nl b.
Proof.
  intros Ha Hb. induction a as [|x a IH]; [contradiction|].
  destruct a as [|y a].
  - destruct b as [|z b]; [contradiction|]. reflexivity.
  - change (JS.join nl ((x :: y :: a) ++ b))
      with (x +:+ nl +:+ JS.join nl ((y :: a) ++ b)).
    rewrite IH by discriminate.
    change (JS.join nl (x :: y :: a)) with (x +:+ nl +:+ JS.join nl (y :: a)).
    rewrite !app_assoc_s. reflexivity.
Qed.

Lemma join_firstn_skipn (n : nat) (ls : list string) :
  (1 <= n)%nat -> ls <> [] ->
  exists sep,
    JS.join nl ls = JS.join nl (firstn n ls) +:+ sep +:+ JS.join nl (skipn n ls)
    /\ (sep = nl \/ (sep = "" /\ JS.join nl (skipn n ls) = "")).
Proof.
  intros Hn Hne. destruct (skipn n ls) as [|y r] eqn:Hsk.
  - exists "". split; [|right; split; reflexivity].
    rewrite <- (firstn_skipn n ls) at 1. rewrite Hsk, app_nil_r.
    simpl JS.join. rewrite app_empty_l, app_empty_r. reflexivity.
  - exists nl. split; [|left; reflexivity].
    rewrite <- (firstn_skipn n ls) at 1. rewrite Hsk.
    apply join_app; [|discriminate].
    destruct ls as [|x ls]; [contradiction|]. destruct n; [lia|]. discriminate.
Qed.

(** X6.  Whichever approach finds the boundary, nothing of the content is
    lost but the boundary itself: the content is the header section, then
    two newlines, one newline or (when nothing follows) nothing, then the
    text that is cleaned to give the body. *)
Theorem splitHeaderBody_partition (content : string) :
  exists sep rawBody,
    content = fst (splitHeaderBody content) +:+ sep +:+ rawBody
    /\ snd (splitHeaderBody content) = cleanBody rawBody
    /\ (sep = nl +:+ nl \/ sep = nl \/ (sep = "" /\ rawBody = "")).
Proof.
  unfold splitHeaderBody. cbv zeta.
  destruct (negb (JS.indexOf content (nl +:+ nl) =? -1)) eqn:Hidx.
  - apply negb_true_iff, Z.eqb_neq in Hidx.
    pose proof (indexOf_range content (nl +:+ nl)) as Hr.
    exists (nl +:+ nl), (JS.substringFrom content (JS.indexOf content (nl +:+ nl) + 2)).
    split; [|split; [reflexivity | left; reflexivity]].
    simpl fst. unfold JS.substring, JS.substringFrom.
    set (n := Z.to_nat (JS.indexOf content (nl +:+ nl))).
    assert (JS.indexOf content (nl +:+ nl) = Z.of_nat n) as Hn by (unfold n; lia).
    replace (n - Z.to_nat 0)%nat with n by lia.
    replace (Z.to_nat (JS.indexOf content (nl +:+ nl) + 2))
      with (n + String.length (nl +:+ nl))%nat
      by (simpl String.length; lia).
    change (JS.drop (Z.to_nat 0) content) with content.
    apply indexOf_found, Hn.
  - pose proof (split_nonempty LF content) as Hne.
    pose proof (join_split content) as Hj.
    set (ls := JS.split LF content) in *.
    destruct (0 <=? scanHeaderEnd 0 (-1) ls) eqn:Hscan.
    + apply Z.leb_le in Hscan.
      destruct (join_firstn_skipn (Z.to_nat (scanHeaderEnd 0 (-1) ls + 1)) ls)
        as (sep & Hsep & Hcase); [lia | exact Hne |].
      exists sep, (JS.join nl (skipn (Z.to_nat (scanHeaderEnd 0 (-1) ls + 1)) ls)).
      simpl fst. simpl snd. rewrite <- Hsep, Hj.
      split; [reflexivity|]. split; [reflexivity|].
      destruct Hcase as [-> | Hcase]; [right; left; reflexivity | right; right; exact Hcase].
    + destruct (join_firstn_skipn 1 ls) as (sep & Hsep & Hcase); [lia | exact Hne |].
      exists sep, (JS.join nl (skipn 1 ls)).
      simpl fst. simpl snd.
      assert (JS.join nl (firstn 1 ls) = hd "" ls) as Hhd
        by (destruct ls; [contradiction | reflexivity]).
      rewrite <- Hhd, <- Hsep, Hj.
      split; [reflexivity|]. split; [reflexivity|].
      destruct Hcase as [-> | Hcase]; [right; left; reflexivity | right; right; exact Hcase].
Qed.


(** ** Header values *)

Lemma headerLoop_app (st : HeaderState) (a b : list string) :
  headerLoop st (a ++ b) = headerLoop (headerLoop st a) b.
Proof. apply fold_left_app. Qed.

Lemma headerLoop_continuations (conts : list string) (st : HeaderState) :
  forallb isContinuation conts = true ->
  headerLoop st conts
  = mkHeaderState (hs_headers st) (currentHeader st)
      (foldedValue (currentValue st) conts).
Proof.
  revert st. induction conts as [|l conts IH]; intros st H.
  - destruct st; reflexivity.
  - simpl in H. apply andb_true_iff in H as [Hl H].
    change (headerLoop st (l :: conts)) with (headerLoop (headerStep st l) conts).
    rewrite (IH _ H). unfold headerStep. rewrite Hl. reflexivity.
Qed.

Lemma headerStep_start (st : HeaderState) (line : string) :
  startsHeader line = true ->
  headerStep st line = mkHeaderState (saveHeader st) (keyOf line) (valueOf line).
Proof.
  unfold startsHeader, headerStep. intros H.
  apply andb_true_iff in H as [Hc Hi]. apply negb_true_iff in Hc.
  rewrite Hc, Hi. reflexivity.
Qed.

Lemma headerStep_keeps (k v line : string) (st : HeaderState) :
  hs_headers st !! k = Some v -> currentHeader st <> k ->
  negb (startsHeader line && String.eqb (keyOf line) k) = true ->
  hs_headers (headerStep st line) !! k = Some v
  /\ currentHeader (headerStep st line) <> k.
Proof.
  intros Hk Hc Hl.
  assert (saveHeader st !! k = Some v) as Hsave.
  { unfold saveHeader. destruct (JS.truthy (currentHeader st)); [|exact Hk].
    rewrite lookup_insert_ne by exact Hc. exact Hk. }
  unfold startsHeader in Hl. unfold headerStep.
  destruct (isContinuation line); [split; assumption|].
  destruct (0 <? JS.indexOf line ":"); [|split; assumption].
  change (negb (String.eqb (keyOf line) k) = true) in Hl.
  apply negb_true_iff, String.eqb_neq in Hl.
  split; [exact Hsave | exact Hl].
Qed.

Lemma headerLoop_keeps (k v : string) (ls : list string) (st : HeaderState) :
  hs_headers st !! k = Some v -> currentHeader st <> k ->
  noneStarts k ls = true ->
  hs_headers (headerLoop st ls) !! k = Some v
  /\ currentHeader (headerLoop st ls) <> k.
Proof.
  revert st. induction ls as [|l ls IH]; intros st Hk Hc H; [split; assumption|].
  unfold noneStarts in H. simpl in H. apply andb_true_iff in H as [Hl H].
  destruct (headerStep_keeps k v l st Hk Hc Hl) as [Hk' Hc'].
  change (headerLoop st (l :: ls)) with (headerLoop (headerStep st l) ls).
  apply IH; assumption.
Qed.



(** ** The shape of the stored keys and values *)

Lemma allChars_take (p : ascii -> bool) (n : nat) (s : string) :
  allChars p s = true -> allChars p (JS.take n s) = true.
Proof.
  revert s. induction n as [|n IH]; intros s H; [destruct s; reflexivity|].
  destruct s as [|c s]; [reflexivity|]. simpl in *.
  apply andb_true_iff in H as [Hc H]. rewrite Hc, (IH s H). reflexivity.
Qed.

Lemma allChars_drop (p : ascii -> bool) (n : nat) (s : string) :
  allChars p s = true -> allChars p (JS.drop n s) = true.
Proof.
  revert s. induction n as [|n IH]; intros s H; [destruct s; exact H|].
  destruct s as [|c s]; [reflexivity|]. simpl in *.
  apply andb_true_iff in H as [_ H]. apply IH, H.
Qed.

Lemma allChars_trimStart (p : ascii -> bool) (s : string) :
  allChars p s = true -> allChars p (JS.trimStart s) = true.
Proof.
  induction s as [|c s IH]; intros H; [reflexivity|].
  simpl JS.trimStart. destruct (isWhite c); [|exact H].
  simpl in H. apply andb_true_iff in H as [_ H]. apply IH, H.
Qed.

Lemma allChars_trimEnd (p : ascii -> bool) (s : string) :
  allChars p s = true -> allChars p (JS.trimEnd s) = true.
Proof.
  induction s as [|c s IH]; intros H; [reflexivity|].
  simpl in H. apply andb_true_iff in H as [Hc H]. simpl JS.trimEnd.
  destruct (isWhite c && JS.isEmpty (JS.trimEnd s)); [reflexivity|].
  simpl. rewrite Hc, (IH H). reflexivity.
Qed.

Lemma allChars_trim (p : ascii -> bool) (s : string) :
  allChars p s = true -> allChars p (JS.trim s) = true.
Proof. intros H. apply allChars_trimEnd, allChars_trimStart, H. Qed.

Lemma split_noLF (s : string) :
  Forall (fun l => noLF l = true) (JS.split LF s).
Proof.
  induction s as [|c s IH]; [repeat constructor|].
  rewrite split_cons. pose proof (split_nonempty LF s) as Hne.
  destruct (JS.split LF s) as [|h t]; [contradiction|].
  inversion IH as [|? ? Hh Ht]; subst.
  destruct (Ascii.eqb c LF) eqn:Hc.
  - constructor; [reflexivity|]. constructor; assumption.
  - simpl prependToFirst. constructor; [|exact Ht].
    rewrite app_cons, app_empty_l. unfold noLF in *. simpl.
    rewrite Hc, Hh. reflexivity.
Qed.

Lemma noColon_before_colon (line : string) :
  noColon (JS.take (Z.to_nat (JS.indexOf line ":")) line).
Proof.
  induction line as [|c s IH]; [reflexivity|].
  rewrite indexOf_unfold.
  change (JS.startsWith (String c s) ":") with (Ascii.eqb c ":" && JS.startsWith s "").
  rewrite startsWith_empty, andb_true_r.
  destruct (Ascii.eqb c ":") eqn:Hc; [reflexivity|]. cbv zeta.
  pose proof (indexOf_range s ":") as Hr.
  destruct (JS.indexOf s ":" <? 0) eqn:Hlt; [reflexivity|].
  apply Z.ltb_ge in Hlt.
  replace (Z.to_nat (JS.indexOf s ":" + 1)) with (S (Z.to_nat (JS.indexOf s ":")))
    by lia.
  simpl JS.take. apply noColon_cons. split; assumption.
Qed.

Lemma keyOf_shape (line : string) :
  noLF line = true ->
  noColon (keyOf line) /\ noLF (keyOf line) = true /\ trimmed (keyOf line).
Proof.
  intros Hl. unfold keyOf, JS.substring.
  change (JS.drop (Z.to_nat 0) line) with line.
  rewrite Nat.sub_0_r. split; [|split].
  - unfold JS.trim. apply noColon_trimEnd, noColon_trimStart, noColon_before_colon.
  - apply allChars_trim, allChars_take, Hl.
  - destruct (trim_spec (JS.take (Z.to_nat (JS.indexOf line ":")) line))
      as (l & r & _ & _ & _ & Hh & Ht).
    split; assumption.
Qed.

Lemma decodeHeader_trimmed (raw : string) : trimmed (decodeHeader raw).
Proof.
  unfold decodeHeader.
  match goal with |- trimmed (JS.trim ?s) =>
    destruct (trim_spec s) as (l & r & _ & _ & _ & Hh & Ht) end.
  split; assumption.
Qed.

Lemma saveHeader_decoded (st : HeaderState) :
  decodedValues (hs_headers st) -> decodedValues (saveHeader st).
Proof.
  intros H k v. unfold saveHeader.
  destruct (JS.truthy (currentHeader st)); [|apply H].
  destruct (decide (currentHeader st = k)) as [-> | Hne].
  - rewrite lookup_insert_eq. intros [= <-]. eexists. reflexivity.
  - rewrite lookup_insert_ne by exact Hne. apply H.
Qed.

Lemma headerLoop_decoded (ls : list string) (st : HeaderState) :
  decodedValues (hs_headers st) -> decodedValues (hs_headers (headerLoop st ls)).
Proof.
  revert st. induction ls as [|l ls IH]; intros st H; [exact H|].
  change (headerLoop st (l :: ls)) with (headerLoop (headerStep st l) ls).
  apply IH. unfold headerStep.
  destruct (isContinuation l); [exact H|].
  destruct (0 <? JS.indexOf l ":"); apply saveHeader_decoded, H.
Qed.

(** X8.  Every key of the object [parseHeaders] returns holds no colon and
    no newline, and neither a key nor a value begins or ends with white
    space. *)
Theorem parseHeaders_entry_shape (headerSection k v : string) :
  parseHeaders headerSection !! k = Some v ->
  noColon k /\ noLF k = true /\ trimmed k /\ trimmed v.
Proof.
  intros H. unfold parseHeaders, parseHeaderLines in H.
  set (lines := JS.split LF headerSection) in *.
  assert (originInv lines (mkHeaderState ∅ "" "")) as Hinit.
  { split; simpl; [intros k0 v0 H0; rewrite lookup_empty in H0; discriminate|].
    intros Hne. contradiction Hne. reflexivity. }
  pose proof (headerLoop_origin lines lines _ Hinit (fun l Hl => Hl)) as Hinv.
  destruct (saveHeader_origin lines _ Hinv k v H) as (_ & line & Hin & _ & _ & ->).
  assert (noLF line = true) as Hline.
  { pose proof (split_noLF headerSection) as Hall.
    rewrite List.Forall_forall in Hall. apply Hall, Hin. }
  destruct (keyOf_shape line Hline) as (H1 & H2 & H3).
  repeat split; try assumption; try apply H3.
  - assert (decodedValues (hs_headers (mkHeaderState ∅ "" ""))) as Hd0.
    { intros k0 v0 H0. simpl in H0. rewrite lookup_empty in H0. discriminate. }
    destruct (saveHeader_decoded _ (headerLoop_decoded lines _ Hd0) _ _ H)
      as [raw ->].
    apply decodeHeader_trimmed.
  - assert (decodedValues (hs_headers (mkHeaderState ∅ "" ""))) as Hd0.
    { intros k0 v0 H0. simpl in H0. rewrite lookup_empty in H0. discriminate. }
    destruct (saveHeader_decoded _ (headerLoop_decoded lines _ Hd0) _ _ H)
      as [raw ->].
    apply decodeHeader_trimmed.
Qed.

Lemma parseHeaders_entry_shape_witness :
  noColon "Subject" /\ noLF "Subject" = true /\ trimmed "Subject"
  /\ trimmed "Re: a b".
Proof.
  apply (parseHeaders_entry_shape
           ("Subject :  Re: a " +:+ nl +:+ "  b  ") "Subject" "Re: a b").
  vm_compute. reflexivity.
Defined.


(** ** Bodies without escapes *)

Lemma suffix_head_absent (x c : ascii) (s pre post : string) :
  JS.includes s (String x "") = false -> s = pre +:+ String c post ->
  Ascii.eqb c x = false.
Proof.
  intros H Hs. destruct (Ascii.eqb_spec c x) as [-> | ]; [|reflexivity].
  assert (JS.includes s (String x "") = true) as Ht
    by (apply includes_spec; exists pre, post; exact Hs).
  rewrite H in Ht. discriminate.
Qed.

Lemma cleanBody_plain (body : string) :
  JS.includes body "=" = false -> cleanBody body = JS.trim body.
Proof.
  intros H. unfold cleanBody.
  change (Regex.replace reSoftBreak (fun _ _ => EmptyString) body)
    with (removeSoftBreaks body).
  assert (removeSoftBreaks body = body) as ->.
  { rewrite removeSoftBreaks_direct. apply replaceAll_none.
    intros pre post Hs. destruct post as [|c0 [|c1 r]]; try reflexivity.
    unfold matchSoftBreak.
    rewrite (suffix_head_absent "=" c0 body pre _ H Hs). reflexivity. }
  change (Regex.replace reHexEscape hexReplacement body)
    with (decodeHexEscapes body).
  assert (decodeHexEscapes body = body) as ->; [|reflexivity].
  rewrite decodeHexEscapes_direct. apply replaceAll_none.
  intros pre post Hs. destruct post as [|c0 [|x [|y r]]]; try reflexivity.
  unfold matchHexEscape.
  rewrite (suffix_head_absent "=" c0 body pre _ H Hs). reflexivity.
Qed.


(** ** Addresses and names *)

Lemma matchFirst_unfold (re : regex) (s : string) :
  Regex.matchFirst re s
  = match Regex.matchAt re s with
    | Some (_, group) => Some group
    | None =>
        match s with
        | EmptyString => None
        | String _ s' => Regex.matchFirst re s'
        end
    end.
Proof. destruct s; reflexivity. Qed.

Lemma matchAt_angle_miss (c : ascii) (s : string) :
  Ascii.eqb c "<" = false -> Regex.matchAt reAngle (String c s) = None.
Proof.
  intros Hc. unfold Regex.matchAt, reAngle, Cat. simpl fold_right.
  rewrite exec_seq, exec_chr_cons, Hc. reflexivity.
Qed.

Lemma matchFirst_angle_none (s : string) :
  JS.includes s "<" = false -> Regex.matchFirst reAngle s = None.
Proof.
  induction s as [|c s IH]; intros H; [reflexivity|].
  pose proof (suffix_head_absent "<" c (String c s) "" s H eq_refl) as Hc.
  apply includes_cons_false in H as [_ H].
  rewrite matchFirst_unfold. rewrite (matchAt_angle_miss c s Hc). apply IH, H.
Qed.

Lemma matchAt_angle_hit (inner post : string) :
  inner <> "" -> allChars notGt inner = true ->
  exists n, Regex.matchAt reAngle ("<" +:+ inner +:+ ">" +:+ post) = Some (n, inner).
Proof.
  intros Hne Hin. unfold Regex.matchAt, reAngle, Cat. simpl fold_right.
  rewrite app_cons, app_empty_l.
  rewrite exec_seq, exec_chr_cons. simpl Ascii.eqb. cbv iota.
  rewrite exec_seq, exec_group.
  rewrite exec_plus_cls.
  2:{ intros c s' n' Hc. unfold Regex.setCapture. simpl.
      rewrite exec_seq, exec_chr_cons. unfold notGt in Hc.
      apply negb_true_iff in Hc. rewrite Hc. reflexivity. }
  change (">" +:+ post) with (String ">" post).
  rewrite (span_run notGt inner ">" post Hin eq_refl). simpl fst. simpl snd.
  apply truthy_true in Hne. rewrite Hne.
  unfold Regex.setCapture. simpl Regex.rest. simpl Regex.consumed.
  rewrite exec_seq, exec_chr_cons. simpl Ascii.eqb. cbv iota.
  rewrite exec_eps. simpl.
  replace (String.length inner - 0)%nat with (String.length inner) by lia.
  rewrite take_app_exact. eexists. reflexivity.
Qed.

Lemma span_snd_head (p : ascii -> bool) (x : ascii) (s : string) :
  JS.includes s (String x "") = false ->
  match snd (JS.span p s) with
  | String c _ => Ascii.eqb c x = false
  | EmptyString => True
  end.
Proof.
  intros H. pose proof (span_eq p s) as Hs.
  destruct (snd (JS.span p s)) as [|c r]; [exact I|].
  exact (suffix_head_absent x c s _ r H Hs).
Qed.

Lemma local_not_at (c : ascii) : isLocalChar c = true -> Ascii.eqb c "@" = false.
Proof.
  destruct (Ascii.eqb_spec c "@") as [-> | ]; [discriminate | reflexivity].
Qed.

Lemma matchAt_address_none (s : string) :
  JS.includes s "@" = false -> Regex.matchAt reAddress s = None.
Proof.
  intros H. unfold Regex.matchAt, reAddress, Cat. simpl fold_right.
  rewrite exec_group, exec_seq, exec_plus_cls.
  2:{ intros c s' n' Hc. rewrite exec_seq, exec_chr_cons, (local_not_at c Hc).
      reflexivity. }
  destruct (JS.truthy (fst (JS.span isLocalChar s))); [|reflexivity].
  pose proof (span_snd_head isLocalChar "@" s H) as Hhd.
  destruct (snd (JS.span isLocalChar s)) as [|c r].
  - rewrite exec_seq, exec_chr_nil. reflexivity.
  - rewrite exec_seq, exec_chr_cons, Hhd. reflexivity.
Qed.

Lemma matchFirst_address_none (s : string) :
  JS.includes s "@" = false -> Regex.matchFirst reAddress s = None.
Proof.
  induction s as [|c s IH]; intros H.
  - rewrite matchFirst_unfold. rewrite (matchAt_address_none "" H). reflexivity.
  - rewrite matchFirst_unfold. rewrite (matchAt_address_none _ H).
    apply includes_cons_false in H as [_ H]. apply IH, H.
Qed.

(** X9.  [extractEmail] returns whatever stands in the first pair of angle
    brackets, address or not, and nothing when the field holds neither an
    opening bracket nor an at sign. *)
Theorem extractEmail_cases :
  (forall pre inner post,
     JS.includes pre "<" = false -> inner <> "" -> allChars notGt inner = true ->
     extractEmail (pre +:+ "<" +:+ inner +:+ ">" +:+ post) = Some inner)
  /\ (forall field,
        JS.includes field "<" = false -> JS.includes field "@" = false ->
        extractEmail field = None).
Proof.
  split.
  - intros pre inner post Hpre Hne Hin. unfold extractEmail.
    assert (Regex.matchFirst reAngle (pre +:+ "<" +:+ inner +:+ ">" +:+ post)
            = Some inner) as ->; [|reflexivity].
    induction pre as [|c pre IH].
    + rewrite app_empty_l.
      destruct (matchAt_angle_hit inner post Hne Hin) as [n Hn].
      rewrite app_cons, app_empty_l in *. rewrite matchFirst_unfold.
      rewrite Hn. reflexivity.
    + pose proof (suffix_head_absent "<" c (String c pre) "" pre Hpre eq_refl) as Hc.
      apply includes_cons_false in Hpre as [_ Hpre].
      rewrite app_cons. rewrite matchFirst_unfold.
      rewrite (matchAt_angle_miss c _ Hc). apply IH, Hpre.
  - intros field Hlt Hat. unfold extractEmail.
    rewrite (matchFirst_angle_none field Hlt). apply matchFirst_address_none, Hat.
Qed.

Lemma extractEmail_cases_witness :
  extractEmail ("a@x.com, Bob " +:+ "<" +:+ "not an address" +:+ ">" +:+ " c@y.com")
  = Some "not an address"
  /\ extractEmail "undisclosed-recipients:;" = None.
Proof.
  destruct extractEmail_cases as [H1 H2]. split.
  - apply (H1 "a@x.com, Bob " "not an address" " c@y.com");
      [reflexivity | discriminate | reflexivity].
  - apply (H2 "undisclosed-recipients:;"); reflexivity.
Defined.

Lemma stripQuotes_filter (s : string) :
  stripQuotes s = JS.filter (fun c => negb (isQuote c)) s.
Proof.
  unfold stripQuotes, Regex.replace, JS.replaceAll.
  induction s as [|c s IH]; [reflexivity|].
  simpl JS.replaceAllFrom. unfold Regex.replacer at 1, Regex.matchAt.
  rewrite exec_cls_cons. simpl JS.filter.
  destruct (isQuote c); simpl.
  - rewrite app_empty_l. exact IH.
  - rewrite IH. reflexivity.
Qed.

Lemma filter_allChars (p : ascii -> bool) (s : string) :
  allChars p (JS.filter p s) = true.
Proof.
  induction s as [|c s IH]; [reflexivity|].
  simpl. destruct (p c) eqn:Hc; [|exact IH]. simpl. rewrite Hc, IH. reflexivity.
Qed.

Lemma matchAnchored_name_hit (name rest : string) :
  name <> "" -> allChars notLt name = true ->
  Regex.matchAnchored reNamePrefix (name +:+ "<" +:+ rest) = Some name.
Proof.
  intros Hne Hin. unfold Regex.matchAnchored, Regex.matchAt, reNamePrefix, Cat.
  simpl fold_right.
  rewrite exec_seq, exec_group, exec_plus_cls.
  2:{ intros c s' n' Hc. unfold Regex.setCapture. simpl.
      rewrite exec_seq, exec_chr_cons. unfold notLt in Hc.
      apply negb_true_iff in Hc. rewrite Hc. reflexivity. }
  change ("<" +:+ rest) with (String "<" rest).
  rewrite (span_run notLt name "<" rest Hin eq_refl). simpl fst. simpl snd.
  apply truthy_true in Hne. rewrite Hne.
  unfold Regex.setCapture. simpl Regex.rest. simpl Regex.consumed.
  rewrite exec_seq, exec_chr_cons. simpl Ascii.eqb. cbv iota.
  rewrite exec_eps. simpl.
  replace (String.length name - 0)%nat with (String.length name) by lia.
  rewrite take_app_exact. reflexivity.
Qed.

Lemma matchAnchored_name_miss (field : string) :
  JS.includes field "<" = false \/ JS.startsWith field "<" = true ->
  Regex.matchAnchored reNamePrefix field = None.
Proof.
  intros H. unfold Regex.matchAnchored, Regex.matchAt, reNamePrefix, Cat.
  simpl fold_right.
  rewrite exec_seq, exec_group, exec_plus_cls.
  2:{ intros c s' n' Hc. unfold Regex.setCapture. simpl.
      rewrite exec_seq, exec_chr_cons. unfold notLt in Hc.
      apply negb_true_iff in Hc. rewrite Hc. reflexivity. }
  destruct H as [H | H].
  - destruct (JS.truthy (fst (JS.span notLt field))); [|reflexivity].
    pose proof (span_snd_head notLt "<" field H) as Hhd.
    unfold Regex.setCapture. simpl Regex.rest. simpl Regex.consumed.
    destruct (snd (JS.span notLt field)) as [|c r].
    + rewrite exec_seq, exec_chr_nil. reflexivity.
    + rewrite exec_seq, exec_chr_cons, Hhd. reflexivity.
  - destruct field as [|c r]; [discriminate|].
    change (JS.startsWith (String c r) "<")
      with (Ascii.eqb c "<" && JS.startsWith r "") in H.
    apply andb_true_iff in H as [Hc _]. apply Ascii.eqb_eq in Hc. subst c.
    reflexivity.
Qed.

(** X10.  [extractName] takes the text in front of the first opening
    bracket, trimmed and without quote characters.  A field that has no
    bracket, or that begins with one, is a name as a whole exactly when it
    holds no at sign.  In no case does the name hold a quote character. *)
Theorem extractName_cases :
  (forall name rest,
     name <> "" -> allChars notLt name = true ->
     extractName (name +:+ "<" +:+ rest) = Some (stripQuotes (JS.trim name)))
  /\ (forall field,
        JS.includes field "<" = false \/ JS.startsWith field "<" = true ->
        extractName field
        = if JS.includes field "@" then None
          else Some (stripQuotes (JS.trim field)))
  /\ (forall field n,
        extractName field = Some n ->
        allChars (fun c => negb (isQuote c)) n = true).
Proof.
  split; [|split].
  - intros name rest Hne Hin. unfold extractName.
    rewrite (matchAnchored_name_hit name rest Hne Hin). reflexivity.
  - intros field H. unfold extractName.
    rewrite (matchAnchored_name_miss field H).
    destruct (JS.includes field "@"); reflexivity.
  - intros field n. unfold extractName.
    destruct (Regex.matchAnchored reNamePrefix field) as [g|].
    + intros [= <-]. rewrite stripQuotes_filter. apply filter_allChars.
    + destruct (negb (JS.includes field "@")); [|discriminate].
      intros [= <-]. rewrite stripQuotes_filter. apply filter_allChars.
Qed.

Lemma extractName_cases_witness :
  extractName ((String DQUOTE "O'Neil, Pat" +:+ String DQUOTE " ") +:+ "<" +:+ "pat@x.com>")
  = Some (stripQuotes (JS.trim (String DQUOTE "O'Neil, Pat" +:+ String DQUOTE " ")))
  /\ extractName "<pat@x.com>" = None
  /\ allChars (fun c => negb (isQuote c)) "ONeil, Pat" = true.
Proof.
  destruct extractName_cases as (H1 & H2 & H3). split; [|split].
  - apply (H1 (String DQUOTE "O'Neil, Pat" +:+ String DQUOTE " ") "pat@x.com>");
      [discriminate | reflexivity].
  - apply (H2 "<pat@x.com>"). right. reflexivity.
  - apply (H3 (String DQUOTE "O'Neil, Pat" +:+ String DQUOTE " <pat@x.com>")).
    vm_compute. reflexivity.
Defined.


(** ** The classifier and its configuration *)

(** X11.  Adding entries to the configuration never brings a message back:
    what a configuration excludes, every larger configuration excludes. *)
Theorem isSelfEmail_monotone (c1 c2 : IdentityConfig) (email : EmailData) :
  configIncluded c1 c2 ->
  isSelfEmail c1 email = true -> isSelfEmail c2 email = true.
Proof.
  intros (Hi & He & Hn) H. apply isSelfEmail_spec. apply isSelfEmail_spec in H.
  destruct H as [(sender & Hin & H) | [Hfrom Hto]].
  - left. exists sender. split; [apply Hi, Hin | exact H].
  - right. split.
    + destruct Hfrom as [(addr & e & Hin & H) | (name & n & Hin & H)].
      * left. exists addr, e. split; [apply He, Hin | exact H].
      * right. exists name, n. split; [apply Hn, Hin | exact H].
    + destruct Hto as [(e & addr & H1 & Hin & H) | (n & name & H1 & Hin & H)].
      * left. exists e, addr. split; [exact H1|]. split; [apply He, Hin | exact H].
      * right. exists n, name. split; [exact H1|]. split; [apply Hn, Hin | exact H].
Qed.

Lemma isSelfEmail_monotone_witness :
  isSelfEmail (mkIdentityConfig ["Mail Delivery Subsystem"; "no-reply"] ["a@x.com"] [])
    (mailFromTo "Mail Delivery Subsystem <mailer-daemon@x.com>" "a@x.com") = true.
Proof.
  apply (isSelfEmail_monotone bounceConfig).
  - repeat split; intros x Hx; simpl in *; tauto.
  - reflexivity.
Defined.

(** X12.  With three empty lists the classifier excludes no message; with
    an empty text among the ignored senders it excludes every message. *)
Theorem isSelfEmail_degenerate_config :
  (forall email, isSelfEmail (mkIdentityConfig [] [] []) email = false)
  /\ (forall config email,
        In "" (ignoredSenders config) -> isSelfEmail config email = true).
Proof.
  split.
  - intros email. reflexivity.
  - intros config email Hin. apply isSelfEmail_spec. left.
    exists "". split; [exact Hin|]. left.
    exists "", (JS.toLowerCase (from email)). reflexivity.
Qed.

Lemma isSelfEmail_degenerate_config_witness :
  isSelfEmail (mkIdentityConfig ["no-reply"; ""] [] [])
    (mailFromTo "Ann <ann@x.com>" "bob@y.com") = true.
Proof.
  destruct isSelfEmail_degenerate_config as [_ H].
  apply (H (mkIdentityConfig ["no-reply"; ""] [] [])). simpl. tauto.
Defined.


(** ** Greedy repetition in front of a pattern that cannot fail *)

Lemma starCls_total (p : ascii -> bool) (k : Regex.mstate -> option Regex.mstate)
    (s : string) (n : nat) (cap : option string) :
  (forall st, k st <> None) ->
  starCls p k s n cap
  = k (Regex.mkState (snd (JS.span p s))
         (n + String.length (fst (JS.span p s))) cap).
Proof.
  intros Hk. revert n. induction s as [|c s IH]; intros n.
  - simpl. rewrite Nat.add_0_r. reflexivity.
  - simpl. destruct (p c) eqn:Hc.
    + rewrite IH. destruct (JS.span p s) as [a b]. simpl.
      replace (n + S (String.length a))%nat with (S (n + String.length a)) by lia.
      destruct (k (Regex.mkState b (S (n + String.length a)) cap)) eqn:E;
        [reflexivity|].
      contradiction (Hk _ E).
    + simpl. rewrite Nat.add_0_r. reflexivity.
Qed.

Lemma exec_plus_cls_total (p : ascii -> bool) (s : string) (n : nat)
    (cap : option string) (k : Regex.mstate -> option Regex.mstate) :
  (forall st, k st <> None) ->
  Regex.exec (Plus (Cls p)) (Regex.mkState s n cap) k
  = if JS.truthy (fst (JS.span p s))
    then k (Regex.mkState (snd (JS.span p s))
              (n + String.length (fst (JS.span p s))) cap)
    else None.
Proof.
  intros Hk. unfold Plus. rewrite exec_seq.
  destruct s as [|c s]; [reflexivity|]. rewrite exec_cls_cons. simpl JS.span.
  destruct (p c) eqn:Hc; [|reflexivity].
  rewrite exec_star_cls. simpl Regex.rest. simpl Regex.consumed.
  simpl Regex.capture. rewrite starCls_total by exact Hk.
  destruct (JS.span p s) as [a b]. simpl.
  replace (n + S (String.length a))%nat with (S (n + String.length a)) by lia.
  reflexivity.
Qed.

Lemma replace_cls_filter (p : ascii -> bool) (s : string) :
  Regex.replace (Cls p) (fun _ _ => EmptyString) s
  = JS.filter (fun c => negb (p c)) s.
Proof.
  unfold Regex.replace, JS.replaceAll.
  induction s as [|c s IH]; [reflexivity|].
  simpl JS.replaceAllFrom. unfold Regex.replacer at 1, Regex.matchAt.
  rewrite exec_cls_cons. simpl JS.filter.
  destruct (p c); simpl.
  - rewrite app_empty_l. exact IH.
  - rewrite IH. reflexivity.
Qed.

Lemma replacer_spaces (f : string -> string -> string) (c : ascii) (s : string) :
  Regex.replacer reSpaces f (String c s)
  = if isWhite c
    then Some (f (String c (fst (JS.span isWhite s))) "",
               S (String.length (fst (JS.span isWhite s))))
    else None.
Proof.
  unfold Regex.replacer, Regex.matchAt, reSpaces.
  rewrite exec_plus_cls_total by discriminate.
  pose proof (take_span isWhite (String c s)) as Ht. revert Ht.
  simpl JS.span. destruct (isWhite c); [|reflexivity].
  destruct (JS.span isWhite s) as [a b]. simpl. intros Ht.
  rewrite Ht. reflexivity.
Qed.

(** ** File names *)

Lemma filter_keeps (p : ascii -> bool) (s : string) :
  allChars p s = true -> JS.filter p s = s.
Proof.
  induction s as [|c s IH]; intros H; [reflexivity|].
  simpl in *. apply andb_true_iff in H as [Hc H]. rewrite Hc, (IH H). reflexivity.
Qed.

Lemma spaces_to_hyphens_safe (s : string) (skip : nat) :
  allChars isSubjectChar s = true ->
  allChars isSafeChar
    (JS.replaceAllFrom (Regex.replacer reSpaces (fun _ _ => "-")) skip s) = true.
Proof.
  revert skip. induction s as [|c s IH]; intros skip H; [reflexivity|].
  simpl in H. apply andb_true_iff in H as [Hc H].
  simpl JS.replaceAllFrom. destruct skip as [|skip]; [|apply IH, H].
  rewrite replacer_spaces. destruct (isWhite c) eqn:Hw.
  - rewrite app_cons, app_empty_l. simpl. apply IH, H.
  - simpl. rewrite (IH 0%nat H), andb_true_r.
    unfold isSubjectChar in Hc. unfold isSafeChar. rewrite Hw in Hc.
    rewrite orb_false_r in Hc. exact Hc.
Qed.

Lemma safe_not_white (c : ascii) : isSafeChar c = true -> isWhite c = false.
Proof.
  destruct c as [[] [] [] [] [] [] [] []]; vm_compute; congruence.
Qed.

Lemma allChars_app (p : ascii -> bool) (a b : string) :
  allChars p (a +:+ b) = allChars p a && allChars p b.
Proof.
  induction a as [|c a IH]; [reflexivity|].
  rewrite app_cons. simpl. rewrite IH, andb_assoc. reflexivity.
Qed.

Lemma spaces_to_hyphens_none (s : string) :
  allChars isSafeChar s = true ->
  Regex.replace reSpaces (fun _ _ => "-") s = s.
Proof.
  intros H. apply replaceAll_none. intros pre post Hs.
  destruct post as [|c post]; [reflexivity|].
  rewrite replacer_spaces. rewrite Hs, allChars_app in H.
  apply andb_true_iff in H as [_ H]. simpl in H.
  apply andb_true_iff in H as [Hc _]. rewrite (safe_not_white c Hc). reflexivity.
Qed.

Lemma take_length_le (n : nat) (s : string) :
  (String.length (JS.take n s) <= n)%nat.
Proof.
  revert s. induction n as [|n IH]; intros s; [destruct s; simpl; lia|].
  destruct s as [|c s]; simpl; [lia|]. specialize (IH s). lia.
Qed.

Lemma take_all (n : nat) (s : string) :
  (String.length s <= n)%nat -> JS.take n s = s.
Proof.
  revert s. induction n as [|n IH]; intros s H.
  - destruct s; [reflexivity | simpl in H; lia].
  - destruct s as [|c s]; [reflexivity|]. simpl in *. rewrite IH by lia. reflexivity.
Qed.

Lemma filter_special (s : string) :
  allChars isSubjectChar (JS.filter (fun c => negb (negb (isSubjectChar c))) s)
  = true.
Proof.
  induction s as [|c s IH]; [reflexivity|].
  simpl. rewrite negb_involutive.
  destruct (isSubjectChar c) eqn:Hc; [|exact IH]. simpl. rewrite Hc. exact IH.
Qed.

Section FileNames.

Variable dateParse : string -> option Z.
Variable toISOString : Z -> string.

(** X13.  A file name is the number of the message on at least four digits,
    the day, and a text of one to fifty letters, digits and hyphens taken
    from the subject, with the extension [.md].  A subject of one to fifty
    letters, digits and hyphens is that text. *)
Theorem generateFilename_shape (email : EmailData) (index : nat) :
  (exists part,
     generateFilename dateParse toISOString email index
     = padStart (decimal (index + 1)) 4 "0" +:+ "-"
       +:+ isoDay dateParse toISOString (date email) +:+ "-" +:+ part +:+ ".md"
     /\ allChars isSafeChar part = true
     /\ (1 <= String.length part <= 50)%nat)
  /\ (allChars isSafeChar (subject email) = true ->
      (1 <= String.length (subject email) <= 50)%nat ->
      generateFilename dateParse toISOString email index
      = padStart (decimal (index + 1)) 4 "0" +:+ "-"
        +:+ isoDay dateParse toISOString (date email) +:+ "-"
        +:+ subject email +:+ ".md").
Proof.
  unfold generateFilename. cbv zeta. split.
  - set (part := JS.substring _ 0 50).
    assert (allChars isSafeChar part = true /\ (String.length part <= 50)%nat)
      as [Hsafe Hlen].
    { unfold part, JS.substring. change (JS.drop (Z.to_nat 0) ?s) with s.
      change (Z.to_nat 50 - Z.to_nat 0)%nat with 50%nat.
      split; [|apply take_length_le].
      apply allChars_take. unfold reSpecial. rewrite replace_cls_filter.
      apply spaces_to_hyphens_safe, filter_special. }
    destruct part as [|c part'] eqn:Hp.
    + exists "no-subject". split; [reflexivity|]. split; [reflexivity|].
      simpl. lia.
    + exists (String c part'). split; [reflexivity|]. split; [exact Hsafe|].
      split; [simpl; lia | exact Hlen].
  - intros Hsafe [Hlo Hhi].
    assert (JS.substring
              (Regex.replace reSpaces (fun _ _ => "-")
                 (Regex.replace reSpecial (fun _ _ => EmptyString) (subject email)))
              0 50 = subject email) as ->.
    { unfold reSpecial. rewrite replace_cls_filter.
      assert (JS.filter (fun c => negb (negb (isSubjectChar c))) (subject email)
              = subject email) as ->.
      { apply filter_keeps. revert Hsafe. generalize (subject email).
        clear. intros s. induction s as [|c s IH]; [reflexivity|].
        simpl. intros H. apply andb_true_iff in H as [Hc H].
        rewrite negb_involutive, (IH H), andb_true_r.
        unfold isSafeChar in Hc. unfold isSubjectChar.
        rewrite (safe_not_white c Hc), orb_false_r. exact Hc. }
      rewrite (spaces_to_hyphens_none _ Hsafe).
      unfold JS.substring. change (JS.drop (Z.to_nat 0) ?s) with s.
      change (Z.to_nat 50 - Z.to_nat 0)%nat with 50%nat.
      apply take_all, Hhi. }
    destruct (subject email); [simpl in Hlo; lia | reflexivity].
Qed.

End FileNames.

Lemma generateFilename_shape_witness :
  generateFilename oneDateParse sampleISO (sampleMail "Monday-plan") 6
  = padStart (decimal (6 + 1)) 4 "0" +:+ "-"
    +:+ isoDay oneDateParse sampleISO "" +:+ "-" +:+ "Monday-plan" +:+ ".md".
Proof.
  apply (generateFilename_shape oneDateParse sampleISO (sampleMail "Monday-plan") 6);
    [reflexivity | simpl; lia].
Defined.


Lemma string_of_uint_digits (d : Decimal.uint) :
  allChars isDigit (NilEmpty.string_of_uint d) = true.
Proof. induction d; simpl; try exact IHd; reflexivity. Qed.

Lemma readDecimal_zero (s : string) : readDecimal (String "0" s) = readDecimal s.
Proof.
  unfold readDecimal. simpl NilEmpty.uint_of_string.
  destruct (NilEmpty.uint_of_string s); reflexivity.
Qed.

Lemma padStart_zeros (s : string) (n : nat) :
  allChars isDigit s = true ->
  allChars isDigit (padStart s n "0") = true
  /\ readDecimal (padStart s n "0") = readDecimal s.
Proof.
  intros H. unfold padStart.
  induction (n - String.length s)%nat as [|k [IH1 IH2]]; [split; [exact H | reflexivity]|].
  simpl List.repeat. simpl string_of_list_ascii. rewrite app_cons. split.
  - simpl. exact IH1.
  - rewrite readDecimal_zero. exact IH2.
Qed.

Lemma readDecimal_decimal (n : nat) : readDecimal (decimal n) = Some n.
Proof.
  unfold readDecimal, decimal. rewrite NilEmpty.usu. simpl.
  rewrite Unsigned.of_to. reflexivity.
Qed.

Lemma app_inv_head_s (a b c : string) : a +:+ b = a +:+ c -> b = c.
Proof.
  induction a as [|x a IH]; [trivial|]. rewrite !app_cons. intros [= H]. auto.
Qed.

Section SavedFiles.

Variable dateParse : string -> option Z.
Variable toISOString : Z -> string.
Variable toLocaleString : Z -> string.
Variable entries : gmap string string -> list (string * string).

Lemma generateFilename_number (email : EmailData) (index : nat) :
  readDecimal (fst (JS.span isDigit (generateFilename dateParse toISOString email index)))
  = Some (index + 1)%nat.
Proof.
  unfold generateFilename. cbv zeta.
  destruct (padStart_zeros (decimal (index + 1)) 4
              (string_of_uint_digits (Nat.to_uint (index + 1)))) as [Hd Hr].
  change ("-" +:+ ?r) with (String "-" r) at 1.
  rewrite (span_run isDigit _ "-" _ Hd eq_refl). simpl fst.
  rewrite Hr. apply readDecimal_decimal.
Qed.

(** X14.  The digits a file name begins with are the number of the
    message, one more than its index; so the names given to two different
    indices differ, whatever the messages. *)
Theorem generateFilename_index (email : EmailData) (index : nat) :
  readDecimal (fst (JS.span isDigit (generateFilename dateParse toISOString email index)))
  = Some (index + 1)%nat
  /\ (forall email' index',
        generateFilename dateParse toISOString email index
        = generateFilename dateParse toISOString email' index' ->
        index = index').
Proof.
  split; [apply generateFilename_number|].
  intros email' index' H.
  pose proof (generateFilename_number email index) as H1.
  pose proof (generateFilename_number email' index') as H2.
  rewrite H, H2 in H1. injection H1 as H1. lia.
Qed.

Lemma path_differs (outputDir : string) (e1 e2 : EmailData) (i j : nat) :
  i <> j ->
  outputDir +:+ "/" +:+ generateFilename dateParse toISOString e1 i
  <> outputDir +:+ "/" +:+ generateFilename dateParse toISOString e2 j.
Proof.
  intros Hij H. apply app_inv_head_s, app_inv_head_s in H.
  pose proof (generateFilename_number e1 i) as H1.
  pose proof (generateFilename_number e2 j) as H2.
  rewrite H, H2 in H1. injection H1 as H1. lia.
Qed.

Lemma path_not_index (outputDir : string) (e : EmailData) (i : nat) :
  outputDir +:+ "/" +:+ generateFilename dateParse toISOString e i
  <> outputDir +:+ "/INDEX.md".
Proof.
  intros H. change "/INDEX.md" with ("/" +:+ "INDEX.md") in H.
  apply app_inv_head_s, app_inv_head_s in H.
  pose proof (generateFilename_number e i) as H1.
  rewrite H in H1.
  change (readDecimal (fst (JS.span isDigit "INDEX.md"))) with (Some 0%nat) in H1.
  injection H1 as H1. lia.
Qed.

Lemma saveLoop_other (outputDir path : string) (emails : list EmailData)
    (i0 : nat) (fs : gmap string string) :
  (forall k email, emails !! k = Some email ->
     path <> outputDir +:+ "/"
             +:+ generateFilename dateParse toISOString email (i0 + k)) ->
  saveLoop dateParse toISOString toLocaleString entries outputDir i0 emails fs
    !! path = fs !! path.
Proof.
  revert i0 fs. induction emails as [|e rest IH]; intros i0 fs H; [reflexivity|].
  simpl saveLoop. rewrite IH.
  - unfold writeTextFile. apply lookup_insert_ne.
    intros Heq. apply (H 0%nat e eq_refl). rewrite Nat.add_0_r. symmetry. exact Heq.
  - intros k email Hk. replace (S i0 + k)%nat with (i0 + S k)%nat by lia.
    apply (H (S k) email Hk).
Qed.

Lemma saveLoop_written (outputDir : string) (emails : list EmailData)
    (i0 k : nat) (email : EmailData) (fs : gmap string string) :
  emails !! k = Some email ->
  saveLoop dateParse toISOString toLocaleString entries outputDir i0 emails fs
    !! (outputDir +:+ "/" +:+ generateFilename dateParse toISOString email (i0 + k))
  = Some (emailToMarkdown dateParse toLocaleString entries email).
Proof.
  revert i0 k fs. induction emails as [|e rest IH]; intros i0 k fs Hk;
    [discriminate|].
  simpl saveLoop. destruct k as [|k].
  - injection Hk as ->. rewrite Nat.add_0_r. rewrite saveLoop_other.
    + unfold writeTextFile. apply lookup_insert_eq.
    + intros k e' _. apply path_differs. lia.
  - replace (i0 + S k)%nat with (S i0 + k)%nat by lia. apply IH. exact Hk.
Qed.

(** X15.  After [saveEmailsAsMarkdown] every message is on the disk, in
    the file named after it and its index, no message having overwritten
    another; [INDEX.md] holds the index; every other file of the disk is as
    it was. *)
Theorem saveEmailsAsMarkdown_files (emails : list EmailData)
    (outputDir : string) (fs : gmap string string) :
  let fs' := saveEmailsAsMarkdown dateParse toISOString toLocaleString entries
               emails outputDir fs in
  (forall i email, emails !! i = Some email ->
     fs' !! (outputDir +:+ "/" +:+ generateFilename dateParse toISOString email i)
     = Some (emailToMarkdown dateParse toLocaleString entries email))
  /\ fs' !! (outputDir +:+ "/INDEX.md")
     = Some (indexContent dateParse toISOString emails)
  /\ (forall path,
        path <> outputDir +:+ "/INDEX.md" ->
        (forall i email, emails !! i = Some email ->
           path <> outputDir +:+ "/"
                   +:+ generateFilename dateParse toISOString email i) ->
        fs' !! path = fs !! path).
Proof.
  cbv zeta. unfold saveEmailsAsMarkdown, createIndexFile, writeTextFile.
  split; [|split].
  - intros i email Hi.
    rewrite lookup_insert_ne
      by (intros Heq; exact (path_not_index outputDir email i (eq_sym Heq))).
    apply (saveLoop_written outputDir emails 0 i email fs Hi).
  - apply lookup_insert_eq.
  - intros path Hidx Hpath.
    rewrite lookup_insert_ne by (intros Heq; apply Hidx; symmetry; exact Heq).
    apply saveLoop_other. intros k email Hk. apply (Hpath k email Hk).
Qed.

End SavedFiles.

Lemma generateFilename_index_witness :
  readDecimal
    (fst (JS.span isDigit (generateFilename oneDateParse sampleISO (sampleMail "a") 3)))
  = Some (3 + 1)%nat
  /\ (3 = 3)%nat.
Proof.
  destruct (generateFilename_index oneDateParse sampleISO (sampleMail "a") 3)
    as [H1 H2].
  split; [exact H1|]. apply (H2 (sampleMail "a") 3%nat). reflexivity.
Defined.

Lemma saveEmailsAsMarkdown_files_witness :
  saveEmailsAsMarkdown oneDateParse sampleISO sampleLocale sampleEntries
    [sampleMail "Re: plan"; sampleMail "Re: plan"] "out"
    (<["out/notes.txt" := "keep"]> ∅)
  !! "out/0002-unknown-date-Re-plan.md"
  = Some (emailToMarkdown oneDateParse sampleLocale sampleEntries (sampleMail "Re: plan"))
  /\ saveEmailsAsMarkdown oneDateParse sampleISO sampleLocale sampleEntries
       [sampleMail "Re: plan"; sampleMail "Re: plan"] "out"
       (<["out/notes.txt" := "keep"]> ∅)
     !! "out/notes.txt"
     = (<["out/notes.txt" := "keep"]> ∅ : gmap string string) !! "out/notes.txt".
Proof.
  destruct (saveEmailsAsMarkdown_files oneDateParse sampleISO sampleLocale
              sampleEntries [sampleMail "Re: plan"; sampleMail "Re: plan"] "out"
              (<["out/notes.txt" := "keep"]> ∅)) as (H1 & _ & H3).
  split.
  - apply (H1 1%nat (sampleMail "Re: plan")). reflexivity.
  - apply (H3 "out/notes.txt"); [discriminate|].
    intros i email Hi. destruct i as [|[|i]]; [| |discriminate Hi];
      injection Hi as <-; vm_compute; discriminate.
Defined.


(** ** What a pattern without group does to the capture *)

Lemma exec_capture (r : regex) :
  groupFree r = true ->
  forall st k res,
    Regex.exec r st k = Some res ->
    exists st', Regex.capture st' = Regex.capture st /\ k st' = Some res.
Proof.
  induction r as [|p|r1 IH1 r2 IH2|r1 IH1 r2 IH2|r1 IH1|r1 IH1|r1 IH1|r1 IH1];
    intros Hg st k res H.
  - rewrite exec_eps in H. exists st. split; [reflexivity | exact H].
  - destruct st as [s n cap]. destruct s as [|c s].
    + rewrite exec_cls_nil in H. discriminate.
    + rewrite exec_cls_cons in H. destruct (p c); [|discriminate].
      eexists. split; [|exact H]. reflexivity.
  - simpl in Hg. apply andb_true_iff in Hg as [Hg1 Hg2].
    rewrite exec_seq in H.
    destruct (IH1 Hg1 _ _ _ H) as (st1 & Hc1 & H1).
    destruct (IH2 Hg2 _ _ _ H1) as (st2 & Hc2 & H2).
    exists st2. split; [congruence | exact H2].
  - simpl in Hg. apply andb_true_iff in Hg as [Hg1 Hg2].
    rewrite exec_alt in H.
    destruct (Regex.exec r1 st k) as [res1|] eqn:E1.
    + injection H as <-. apply (IH1 Hg1 _ _ _ E1).
    + apply (IH2 Hg2 _ _ _ H).
  - simpl in Hg. unfold Regex.exec in H. fold Regex.exec in H.
    revert H. generalize (String.length (Regex.rest st)). intros fuel.
    revert st. induction fuel as [|fuel IHf]; intros st H.
    + exists st. split; [reflexivity | exact H].
    + match type of H with
      | match ?e with _ => _ end = _ => destruct e as [res1|] eqn:E1
      end.
      * injection H as <-.
        destruct (IH1 Hg _ _ _ E1) as (st1 & Hc1 & H1).
        destruct (Regex.consumed st <? Regex.consumed st1)%nat; [|discriminate].
        destruct (IHf st1 H1) as (st2 & Hc2 & H2).
        exists st2. split; [congruence | exact H2].
      * exists st. split; [reflexivity | exact H].
  - simpl in Hg. unfold Regex.exec in H. fold Regex.exec in H.
    revert H. generalize (String.length (Regex.rest st)). intros fuel.
    revert st. induction fuel as [|fuel IHf]; intros st H.
    + destruct (k st) as [res0|] eqn:E0; [|discriminate].
      exists st. split; [reflexivity | congruence].
    + destruct (k st) as [res0|] eqn:E0.
      * exists st. split; [reflexivity | congruence].
      * destruct (IH1 Hg _ _ _ H) as (st1 & Hc1 & H1).
        destruct (Regex.consumed st <? Regex.consumed st1)%nat; [|discriminate].
        destruct (IHf st1 H1) as (st2 & Hc2 & H2).
        exists st2. split; [congruence | exact H2].
  - discriminate.
  - rewrite exec_ahead in H.
    destruct (Regex.exec r1 st Some); [|discriminate].
    exists st. split; [reflexivity | exact H].
Qed.

Lemma span_fst_all (p : ascii -> bool) (s : string) :
  allChars p (fst (JS.span p s)) = true.
Proof.
  induction s as [|c s IH]; [reflexivity|].
  simpl. destruct (p c) eqn:Hc; [|reflexivity].
  destruct (JS.span p s) as [a b]. simpl in *. rewrite Hc, IH. reflexivity.
Qed.

Lemma span_snd_stops (p : ascii -> bool) (s : string) :
  match snd (JS.span p s) with
  | String c _ => p c = false
  | EmptyString => True
  end.
Proof.
  induction s as [|c s IH]; [exact I|].
  simpl. destruct (p c) eqn:Hc; [|exact Hc].
  destruct (JS.span p s) as [a b]. exact IH.
Qed.

(** ** Sender names *)

Lemma matchAnchored_senderName (from : string) :
  Regex.matchAnchored GroupBySender.reSenderName from
  = if JS.truthy (fst (JS.span notLt from)) then Some (fst (JS.span notLt from))
    else None.
Proof.
  unfold Regex.matchAnchored, Regex.matchAt, GroupBySender.reSenderName.
  cbv [Cat fold_right]. rewrite exec_seq, exec_group.
  rewrite exec_plus_cls_total.
  2:{ intros st. rewrite exec_seq. unfold Opt. rewrite exec_alt.
      match goal with |- match ?e with _ => _ end <> None => destruct e end;
        [discriminate|]. rewrite !exec_eps. discriminate. }
  destruct (JS.truthy (fst (JS.span notLt from))) eqn:Ht; [|reflexivity].
  pose proof (take_span notLt from) as Htake.
  set (st1 := Regex.setCapture _ _).
  assert (Regex.capture st1 = Some (fst (JS.span notLt from))) as Hcap.
  { unfold st1, Regex.setCapture. simpl.
    replace (String.length (fst (JS.span notLt from)) - 0)%nat
      with (String.length (fst (JS.span notLt from))) by lia.
    rewrite Htake. reflexivity. }
  rewrite exec_seq. unfold Opt. rewrite exec_alt.
  match goal with |- context [match ?e with Some res => Some res | None => _ end] =>
    destruct e as [res|] eqn:E end.
  - apply exec_capture in E as (st2 & Hc2 & H2); [|reflexivity].
    rewrite exec_eps in H2. injection H2 as <-.
    rewrite Hc2, Hcap. reflexivity.
  - rewrite !exec_eps, Hcap. reflexivity.
Qed.

(** X16.  The name under which the report counts a sender is the text of
    the [from] field in front of its first opening bracket, trimmed,
    whatever follows the bracket; a field that is empty or begins with the
    bracket counts trimmed as a whole. *)
Theorem extractSenderName_prefix (from : string) :
  GroupBySender.extractSenderName from
  = JS.trim (if JS.truthy (fst (JS.span notLt from))
             then fst (JS.span notLt from) else from).
Proof.
  unfold GroupBySender.extractSenderName. rewrite matchAnchored_senderName.
  destruct (JS.truthy (fst (JS.span notLt from))); reflexivity.
Qed.

Lemma notLt_includes (s : string) :
  allChars notLt s = true -> JS.includes s "<" = false.
Proof.
  induction s as [|c s IH]; intros H; [reflexivity|].
  simpl in H. apply andb_true_iff in H as [Hc H].
  rewrite includes_unfold, (IH H), orb_false_r.
  change (JS.startsWith (String c s) "<") with (Ascii.eqb c "<" && JS.startsWith s "").
  unfold notLt in Hc. apply negb_true_iff in Hc. rewrite Hc. reflexivity.
Qed.

(** X17.  The two scripts agree on names: when the parser finds a display
    name in a field, it is the name the sender report uses for that field,
    without its quote characters. *)
Theorem extractName_agrees_with_report (field n : string) :
  extractName field = Some n ->
  n = stripQuotes (GroupBySender.extractSenderName field).
Proof.
  unfold GroupBySender.extractSenderName. rewrite matchAnchored_senderName.
  pose proof (span_eq notLt field) as Heq.
  pose proof (span_fst_all notLt field) as Hall.
  pose proof (span_snd_stops notLt field) as Hstop.
  destruct (JS.span notLt field) as [a b]. simpl fst in *. simpl snd in *.
  destruct (JS.truthy a) eqn:Ha.
  - destruct b as [|c r].
    + rewrite app_empty_r in Heq. subst a. unfold extractName.
      rewrite (matchAnchored_name_miss field (or_introl (notLt_includes _ Hall))).
      destruct (negb (JS.includes field "@")); [|discriminate].
      intros [= <-]. reflexivity.
    + unfold notLt in Hstop. apply negb_false_iff, Ascii.eqb_eq in Hstop. subst c.
      rewrite Heq. unfold extractName.
      change (String "<" r) with ("<" +:+ r).
      rewrite (matchAnchored_name_hit a r); [|apply truthy_true, Ha | exact Hall].
      intros [= <-]. reflexivity.
  - apply truthy_false in Ha. subst a. rewrite app_empty_l in Heq. subst b.
    unfold extractName. rewrite matchAnchored_name_miss.
    + destruct (negb (JS.includes field "@")); [|discriminate].
      intros [= <-]. reflexivity.
    + destruct field as [|c r]; [left; reflexivity|]. right.
      unfold notLt in Hstop. apply negb_false_iff, Ascii.eqb_eq in Hstop. subst c.
      destruct r; reflexivity.
Qed.

Lemma extractName_agrees_with_report_witness :
  "Pat ONeil" = stripQuotes (GroupBySender.extractSenderName
                               (String DQUOTE "Pat O'Neil" +:+ String DQUOTE " <pat@x.com>")).
Proof.
  apply (extractName_agrees_with_report
           (String DQUOTE "Pat O'Neil" +:+ String DQUOTE " <pat@x.com>") "Pat ONeil").
  vm_compute. reflexivity.
Defined.


(** ** Groups of senders *)

Section SenderGroups.

Import GroupBySender.

Lemma sentBy_app (name : string) (a b : list EmailMetadata) :
  sentBy name (a ++ b) = sentBy name a ++ sentBy name b.
Proof. apply List.filter_app. Qed.

Lemma sentBy_none (name : string) (processed : list EmailMetadata) :
  (forall e, In e processed -> senderOf e <> name) -> sentBy name processed = [].
Proof.
  induction processed as [|e l IH]; intros H; [reflexivity|].
  unfold sentBy in *. simpl.
  destruct (String.eqb_spec (senderOf e) name) as [Heq | _].
  - contradiction (H e (or_introl eq_refl)).
  - apply IH. intros e' He'. apply H. right. exact He'.
Qed.

Lemma addToGroup_senders (name : string) (email : EmailMetadata)
    (senderMap : list SenderGroup) :
  map sender (addToGroup name email senderMap)
  = if existsb (fun g => String.eqb (sender g) name) senderMap
    then map sender senderMap
    else map sender senderMap ++ [name].
Proof.
  induction senderMap as [|g rest IH]; [reflexivity|].
  simpl. destruct (String.eqb (sender g) name); [reflexivity|].
  simpl. rewrite IH.
  destruct (existsb (fun g0 => String.eqb (sender g0) name) rest); reflexivity.
Qed.

Lemma existsb_sender (name : string) (senderMap : list SenderGroup) :
  existsb (fun g => String.eqb (sender g) name) senderMap = true
  <-> In name (map sender senderMap).
Proof.
  rewrite existsb_exists, in_map_iff. split.
  - intros (g & Hin & Heq). apply String.eqb_eq in Heq. exists g. auto.
  - intros (g & Heq & Hin). exists g. split; [exact Hin|].
    apply String.eqb_eq, Heq.
Qed.

Lemma addToGroup_counts (name : string) (email : EmailMetadata)
    (senderMap : list SenderGroup) :
  list_sum (map count (addToGroup name email senderMap))
  = S (list_sum (map count senderMap)).
Proof.
  induction senderMap as [|g rest IH]; [reflexivity|].
  simpl. destruct (String.eqb (sender g) name); simpl; [reflexivity|].
  rewrite IH. lia.
Qed.

Lemma groupOf_other (email : EmailMetadata) (processed : list EmailMetadata)
    (g : SenderGroup) :
  groupOf processed g -> sender g <> senderOf email ->
  groupOf (processed ++ [email]) g.
Proof.
  intros (He & Hc & Hn) Hne. split; [|split; assumption].
  rewrite sentBy_app, <- He. unfold sentBy. simpl.
  destruct (String.eqb_spec (senderOf email) (sender g)) as [Heq | _];
    [contradiction Hne; symmetry; exact Heq|].
  rewrite app_nil_r. reflexivity.
Qed.

Lemma addToGroup_groups (email : EmailMetadata) (processed : list EmailMetadata)
    (senderMap : list SenderGroup) :
  List.NoDup (map sender senderMap) ->
  Forall (groupOf processed) senderMap ->
  (~ In (senderOf email) (map sender senderMap) ->
   sentBy (senderOf email) processed = []) ->
  Forall (groupOf (processed ++ [email]))
    (addToGroup (senderOf email) email senderMap).
Proof.
  induction senderMap as [|g rest IH]; intros Hnd Hall Hnew.
  - simpl. constructor; [|constructor].
    split; [|split; simpl; lia]. simpl.
    rewrite sentBy_app, (Hnew (fun H => H)). unfold sentBy. simpl.
    rewrite String.eqb_refl. reflexivity.
  - inversion Hall as [|? ? Hg Hrest]; subst.
    simpl in Hnd. apply List.NoDup_cons_iff in Hnd as [Hfresh Hnd]. simpl.
    destruct (String.eqb_spec (sender g) (senderOf email)) as [Heq | Hne].
    + constructor.
      * destruct Hg as (He & Hc & Hn). split; [|split]; simpl.
        -- rewrite sentBy_app, <- He. unfold sentBy at 1. simpl.
           rewrite Heq, String.eqb_refl. reflexivity.
        -- rewrite length_app, Hc. simpl. lia.
        -- lia.
      * apply List.Forall_forall. intros g' Hin.
        rewrite List.Forall_forall in Hrest.
        apply groupOf_other; [apply Hrest, Hin|].
        intros Heq'. apply Hfresh. rewrite Heq, <- Heq'.
        apply in_map, Hin.
    + constructor; [apply groupOf_other; assumption|].
      apply IH; [exact Hnd | exact Hrest|].
      intros Hnot. apply Hnew. simpl. intros [H | H]; [exact (Hne H) | exact (Hnot H)].
Qed.

Lemma NoDup_snoc (l : list string) (x : string) :
  List.NoDup l -> ~ In x l -> List.NoDup (l ++ [x]).
Proof.
  induction l as [|y l IH]; intros Hnd Hx.
  - simpl. constructor; [intros [] | constructor].
  - apply List.NoDup_cons_iff in Hnd as [Hy Hnd]. simpl.
    apply List.NoDup_cons_iff. split.
    + rewrite in_app_iff. intros [H | [H | []]]; [exact (Hy H)|].
      apply Hx. left. symmetry. exact H.
    + apply IH; [exact Hnd|]. intros H. apply Hx. right. exact H.
Qed.

Lemma addToGroup_inv (email : EmailMetadata) (processed : list EmailMetadata)
    (senderMap : list SenderGroup) :
  groupsInv processed senderMap ->
  groupsInv (processed ++ [email]) (addToGroup (senderOf email) email senderMap).
Proof.
  intros (Hnd & Hall & Hseen & Hsum).
  pose proof (addToGroup_senders (senderOf email) email senderMap) as Hs.
  pose proof (existsb_sender (senderOf email) senderMap) as Hex.
  split; [|split; [|split]].
  - rewrite Hs.
    destruct (existsb _ senderMap) eqn:E; [exact Hnd|].
    apply NoDup_snoc; [exact Hnd|]. intros H. apply Hex in H. discriminate.
  - apply addToGroup_groups; [exact Hnd | exact Hall|].
    intros Hnot. apply sentBy_none. intros e He Heq.
    apply Hnot. rewrite <- Heq. apply Hseen, He.
  - intros e He. rewrite Hs. apply in_app_iff in He as [He | [<- | []]].
    + destruct (existsb _ senderMap); [|apply in_app_iff; left]; apply Hseen, He.
    + destruct (existsb _ senderMap) eqn:E; [apply Hex; reflexivity|].
      apply in_app_iff. right. left. reflexivity.
  - rewrite addToGroup_counts, Hsum, length_app. simpl. lia.
Qed.

Lemma groupLoop_inv (emails processed : list EmailMetadata)
    (senderMap : list SenderGroup) :
  groupsInv processed senderMap ->
  groupsInv (processed ++ emails)
    (fold_left (fun senderMap email =>
                  addToGroup (extractSenderName (from email)) email senderMap)
       emails senderMap).
Proof.
  revert processed senderMap.
  induction emails as [|e emails IH]; intros processed senderMap H.
  - rewrite app_nil_r. exact H.
  - simpl fold_left.
    replace (processed ++ e :: emails) with ((processed ++ [e]) ++ emails)
      by (rewrite <- app_assoc; reflexivity).
    apply IH. apply (addToGroup_inv e processed senderMap H).
Qed.

Lemma insertByCount_perm (g : SenderGroup) (l : list SenderGroup) :
  Permutation (insertByCount g l) (g :: l).
Proof.
  induction l as [|h t IH]; [reflexivity|].
  simpl. destruct (count h <=? count g)%nat; [reflexivity|].
  rewrite IH. apply perm_swap.
Qed.

Lemma sortByCount_perm (l : list SenderGroup) : Permutation (sortByCount l) l.
Proof.
  induction l as [|g l IH]; [reflexivity|].
  simpl. rewrite insertByCount_perm, IH. reflexivity.
Qed.

Lemma insertByCount_sorted (g : SenderGroup) (l : list SenderGroup) :
  StronglySorted byDecreasingCount l ->
  StronglySorted byDecreasingCount (insertByCount g l).
Proof.
  induction l as [|h t IH]; intros Hs.
  - simpl. constructor; constructor.
  - apply StronglySorted_inv in Hs as [Ht Hh]. simpl.
    destruct (count h <=? count g)%nat eqn:E.
    + apply Nat.leb_le in E. constructor; [constructor; assumption|].
      constructor; [exact E|].
      apply List.Forall_forall. intros x Hx. rewrite List.Forall_forall in Hh.
      specialize (Hh x Hx). unfold byDecreasingCount in *. lia.
    + apply Nat.leb_gt in E. constructor; [apply IH, Ht|].
      rewrite insertByCount_perm.
      constructor; [unfold byDecreasingCount; lia | exact Hh].
Qed.

Lemma sortByCount_sorted (l : list SenderGroup) :
  StronglySorted byDecreasingCount (sortByCount l).
Proof.
  induction l as [|g l IH]; [constructor|].
  simpl. apply insertByCount_sorted, IH.
Qed.

Lemma list_sum_perm (a b : list nat) : Permutation a b -> list_sum a = list_sum b.
Proof. induction 1; simpl; lia. Qed.

(** X18.  [groupEmailsBySender] gives every sender name one group; the
    group holds the messages of that sender in the order of the input and
    its count is their number; the counts add up to the number of messages;
    and no group stands before one with a greater count. *)
Theorem groupEmailsBySender_groups (emails : list EmailMetadata) :
  List.NoDup (map sender (groupEmailsBySender emails))
  /\ Forall (groupOf emails) (groupEmailsBySender emails)
  /\ (forall e, In e emails ->
        exists g, In g (groupEmailsBySender emails) /\ sender g = senderOf e)
  /\ list_sum (map count (groupEmailsBySender emails)) = List.length emails
  /\ StronglySorted byDecreasingCount (groupEmailsBySender emails).
Proof.
  unfold groupEmailsBySender.
  assert (groupsInv [] []) as H0.
  { split; [constructor|]. split; [constructor|]. split; [intros e []|reflexivity]. }
  destruct (groupLoop_inv emails [] [] H0) as (Hnd & Hall & Hseen & Hsum).
  simpl app in *.
  set (m := fold_left _ emails []) in *.
  pose proof (sortByCount_perm m) as Hp.
  split; [|split; [|split; [|split]]].
  - apply (Permutation_NoDup (l := map sender m)); [|exact Hnd].
    symmetry. apply Permutation_map, Hp.
  - rewrite Hp. exact Hall.
  - intros e He. specialize (Hseen e He). apply in_map_iff in Hseen as (g & Hg & Hin).
    exists g. split; [|exact Hg].
    apply (Permutation_in (l := m)); [symmetry; exact Hp | exact Hin].
  - rewrite <- Hsum. apply list_sum_perm, Permutation_map, Hp.
  - apply sortByCount_sorted.
Qed.

End SenderGroups.

Lemma groupEmailsBySender_groups_witness :
  exists g, In g (GroupBySender.groupEmailsBySender
                    [metaFrom "Ann <a@x.com>"; metaFrom "Bob"; metaFrom "Ann <ann@y.org>"])
            /\ GroupBySender.sender g = senderOf (metaFrom "Bob").
Proof.
  apply (groupEmailsBySender_groups
           [metaFrom "Ann <a@x.com>"; metaFrom "Bob"; metaFrom "Ann <ann@y.org>"]).
  simpl. tauto.
Defined.


(** ** Reading a saved message back *)

Lemma clash_startsWith (b label rest : string) :
  clash b label = true -> JS.startsWith (b +:+ rest) label = false.
Proof.
  revert label. induction b as [|x b IH]; intros label H; [discriminate|].
  destruct label as [|y label]; [discriminate|].
  rewrite app_cons. simpl in *.
  destruct (Ascii.eqb x y); [|reflexivity]. simpl in *. apply IH, H.
Qed.

Lemma matchAt_field_miss (label s : string) :
  JS.startsWith s label = false -> Regex.matchAt (reField label) s = None.
Proof.
  intros H. unfold Regex.matchAt, reField. cbv [Cat fold_right].
  rewrite exec_seq, exec_lit, H. reflexivity.
Qed.

Lemma matchAt_field_hit (label v rest : string) :
  plainField v = true ->
  exists n, Regex.matchAt (reField label) (label +:+ v +:+ nl +:+ rest) = Some (n, v).
Proof.
  intros Hv. apply andb_true_iff in Hv as [Hne Hdot].
  unfold Regex.matchAt, reField. cbv [Cat fold_right].
  rewrite exec_seq, exec_lit.
  assert (JS.startsWith (label +:+ v +:+ nl +:+ rest) label = true) as ->
    by (apply startsWith_spec; eexists; reflexivity).
  rewrite drop_app_exact, exec_seq, exec_group.
  rewrite exec_plus_cls_total by (intros st; rewrite exec_eps; discriminate).
  change (nl +:+ rest) with (String LF rest).
  rewrite (span_run isDot v LF rest Hdot eq_refl). simpl fst. simpl snd.
  rewrite Hne, exec_eps. unfold Regex.setCapture. simpl.
  replace (String.length label + String.length v - (String.length label))%nat
    with (String.length v) by lia.
  rewrite take_app_exact. eexists. reflexivity.
Qed.

Lemma matchFirst_field_hit (label v rest : string) :
  plainField v = true ->
  Regex.matchFirst (reField label) (label +:+ v +:+ nl +:+ rest) = Some v.
Proof.
  intros Hv. destruct (matchAt_field_hit label v rest Hv) as [n Hn].
  rewrite matchFirst_unfold, Hn. reflexivity.
Qed.

Lemma matchFirst_skip_piece (label piece rest : string) :
  clearOf label piece = true ->
  Regex.matchFirst (reField label) (piece +:+ rest)
  = Regex.matchFirst (reField label) rest.
Proof.
  induction piece as [|c piece IH]; intros H; [reflexivity|].
  change (clash (String c piece) label && clearOf label piece = true) in H.
  apply andb_true_iff in H as [Hc H].
  rewrite matchFirst_unfold.
  rewrite (matchAt_field_miss _ _ (clash_startsWith _ _ rest Hc)).
  rewrite app_cons. apply IH, H.
Qed.

Lemma matchFirst_skip_value (label v rest : string) :
  noLF label = true -> JS.includes v label = false ->
  Regex.matchFirst (reField label) (v +:+ nl +:+ rest)
  = Regex.matchFirst (reField label) (nl +:+ rest).
Proof.
  intros Hl. induction v as [|c v IH]; intros H; [reflexivity|].
  apply includes_cons_false in H as [Hs H].
  rewrite matchFirst_unfold, matchAt_field_miss.
  - rewrite app_cons. apply IH, H.
  - rewrite startsWith_before_nl, startsWith_drop_nl by exact Hl. exact Hs.
Qed.

Section ReadBack.

Variable dateParse : string -> option Z.
Variable toLocaleString : Z -> string.
Variable entries : gmap string string -> list (string * string).

(** X19.  The sender report reads back what the converter wrote.  When the
    subject, the sender and the recipient of a message fill their line (not
    empty, no line terminator), when the subject holds neither of the labels
    [**From:** ] and [**To:** ] and the sender does not hold [**To:** ],
    [extractMetadata] finds exactly these three fields in the file that
    [emailToMarkdown] produced; and it finds the date as printed when that
    fills its line and no field before it holds the label [**Date:** ]. *)
Theorem extractMetadata_reads_back (email : EmailData) (path : string)
    (fs : gmap string string) :
  fs !! path = Some (emailToMarkdown dateParse toLocaleString entries email) ->
  plainField (subject email) = true ->
  plainField (from email) = true ->
  plainField (to email) = true ->
  JS.includes (subject email) "**From:** " = false ->
  JS.includes (subject email) "**To:** " = false ->
  JS.includes (from email) "**To:** " = false ->
  exists d,
    GroupBySender.extractMetadata fs path
    = Some (GroupBySender.mkEmailMetadata
              (subject email) (from email) (to email) d path)
    /\ (plainField (formattedDate dateParse toLocaleString email) = true ->
        JS.includes (subject email) "**Date:** " = false ->
        JS.includes (from email) "**Date:** " = false ->
        JS.includes (to email) "**Date:** " = false ->
        d = formattedDate dateParse toLocaleString email).
Proof.
  intros Hfs Hsub Hfrom Hto HsF HsT HfT.
  unfold GroupBySender.extractMetadata. rewrite Hfs. cbv zeta.
  unfold emailToMarkdown. cbv zeta.
  fold (formattedDate dateParse toLocaleString email).
  set (fdate := formattedDate dateParse toLocaleString email).
  set (tail := "- **Message ID:** " +:+ _).
  (* the subject line *)
  assert (Regex.matchAnchored GroupBySender.reSubjectLine
            ("# " +:+ subject email +:+ nl +:+ nl +:+ "## Email Metadata" +:+ nl
             +:+ nl +:+ "- **From:** " +:+ from email +:+ nl +:+ "- **To:** "
             +:+ to email +:+ nl +:+ "- **Date:** " +:+ fdate +:+ nl +:+ tail)
          = Some (subject email)) as ->.
  { unfold Regex.matchAnchored.
    destruct (matchAt_field_hit "# " (subject email)
                (nl +:+ "## Email Metadata" +:+ nl
                 +:+ nl +:+ "- **From:** " +:+ from email +:+ nl +:+ "- **To:** "
                 +:+ to email +:+ nl +:+ "- **Date:** " +:+ fdate +:+ nl +:+ tail)
                Hsub) as [n Hn].
    change GroupBySender.reSubjectLine with (reField "# "). rewrite Hn. reflexivity. }
  (* the sender *)
  assert (Regex.matchFirst GroupBySender.reFrom
            ("# " +:+ subject email +:+ nl +:+ nl +:+ "## Email Metadata" +:+ nl
             +:+ nl +:+ "- **From:** " +:+ from email +:+ nl +:+ "- **To:** "
             +:+ to email +:+ nl +:+ "- **Date:** " +:+ fdate +:+ nl +:+ tail)
          = Some (from email)) as ->.
  { change GroupBySender.reFrom with (reField "**From:** ").
    rewrite (matchFirst_skip_piece _ "# ") by reflexivity.
    rewrite matchFirst_skip_value by (reflexivity || exact HsF).
    rewrite (matchFirst_skip_piece _ nl) by reflexivity.
    rewrite (matchFirst_skip_piece _ nl) by reflexivity.
    rewrite (matchFirst_skip_piece _ "## Email Metadata") by reflexivity.
    rewrite (matchFirst_skip_piece _ nl) by reflexivity.
    rewrite (matchFirst_skip_piece _ nl) by reflexivity.
    change ("- **From:** " +:+ ?r) with ("- " +:+ "**From:** " +:+ r).
    rewrite (matchFirst_skip_piece _ "- ") by reflexivity.
    apply matchFirst_field_hit, Hfrom. }
  (* the recipient *)
  assert (Regex.matchFirst GroupBySender.reTo
            ("# " +:+ subject email +:+ nl +:+ nl +:+ "## Email Metadata" +:+ nl
             +:+ nl +:+ "- **From:** " +:+ from email +:+ nl +:+ "- **To:** "
             +:+ to email +:+ nl +:+ "- **Date:** " +:+ fdate +:+ nl +:+ tail)
          = Some (to email)) as ->.
  { change GroupBySender.reTo with (reField "**To:** ").
    rewrite (matchFirst_skip_piece _ "# ") by reflexivity.
    rewrite matchFirst_skip_value by (reflexivity || exact HsT).
    rewrite (matchFirst_skip_piece _ nl) by reflexivity.
    rewrite (matchFirst_skip_piece _ nl) by reflexivity.
    rewrite (matchFirst_skip_piece _ "## Email Metadata") by reflexivity.
    rewrite (matchFirst_skip_piece _ nl) by reflexivity.
    rewrite (matchFirst_skip_piece _ nl) by reflexivity.
    rewrite (matchFirst_skip_piece _ "- **From:** ") by reflexivity.
    rewrite matchFirst_skip_value by (reflexivity || exact HfT).
    rewrite (matchFirst_skip_piece _ nl) by reflexivity.
    change ("- **To:** " +:+ ?r) with ("- " +:+ "**To:** " +:+ r).
    rewrite (matchFirst_skip_piece _ "- ") by reflexivity.
    apply matchFirst_field_hit, Hto. }
  assert (JS.truthy (subject email) = true) as Htr
    by (apply andb_true_iff in Hsub as [H _]; exact H).
  rewrite Htr. simpl negb. cbv iota.
  eexists. split; [reflexivity|].
  intros Hd HsD HfD HtD.
  change GroupBySender.reDate with (reField "**Date:** ").
  rewrite (matchFirst_skip_piece _ "# ") by reflexivity.
  rewrite matchFirst_skip_value by (reflexivity || exact HsD).
  rewrite (matchFirst_skip_piece _ nl) by reflexivity.
  rewrite (matchFirst_skip_piece _ nl) by reflexivity.
  rewrite (matchFirst_skip_piece _ "## Email Metadata") by reflexivity.
  rewrite (matchFirst_skip_piece _ nl) by reflexivity.
  rewrite (matchFirst_skip_piece _ nl) by reflexivity.
  rewrite (matchFirst_skip_piece _ "- **From:** ") by reflexivity.
  rewrite matchFirst_skip_value by (reflexivity || exact HfD).
  rewrite (matchFirst_skip_piece _ nl) by reflexivity.
  rewrite (matchFirst_skip_piece _ "- **To:** ") by reflexivity.
  rewrite matchFirst_skip_value by (reflexivity || exact HtD).
  rewrite (matchFirst_skip_piece _ nl) by reflexivity.
  change ("- **Date:** " +:+ ?r) with ("- " +:+ "**Date:** " +:+ r).
  rewrite (matchFirst_skip_piece _ "- ") by reflexivity.
  rewrite (matchFirst_field_hit _ _ _ Hd). reflexivity.
Qed.

End ReadBack.

Lemma extractMetadata_reads_back_witness :
  exists d,
    GroupBySender.extractMetadata
      (<["out/0001-unknown-date-Re-plan.md" :=
           emailToMarkdown oneDateParse sampleLocale sampleEntries (sampleMail "Re: plan")]> ∅)
      "out/0001-unknown-date-Re-plan.md"
    = Some (GroupBySender.mkEmailMetadata "Re: plan" "Ann <ann@x.com>" "bob@y.com" d
              "out/0001-unknown-date-Re-plan.md")
    /\ (plainField (formattedDate oneDateParse sampleLocale (sampleMail "Re: plan")) = true ->
        JS.includes "Re: plan" "**Date:** " = false ->
        JS.includes "Ann <ann@x.com>" "**Date:** " = false ->
        JS.includes "bob@y.com" "**Date:** " = false ->
        d = formattedDate oneDateParse sampleLocale (sampleMail "Re: plan")).
Proof.
  apply (extractMetadata_reads_back oneDateParse sampleLocale sampleEntries
           (sampleMail "Re: plan") "out/0001-unknown-date-Re-plan.md");
    reflexivity.
Defined.


(** ** The date options of the converter *)

Lemma filter_filter {A : Type} (p q : A -> bool) (l : list A) :
  List.filter q (List.filter p l) = List.filter (fun x => p x && q x) l.
Proof.
  induction l as [|x l IH]; [reflexivity|].
  simpl. destruct (p x); simpl; [|exact IH].
  destruct (q x); rewrite IH; reflexivity.
Qed.

Section DateOptions.

Variable dateParse : string -> option Z.


End DateOptions.



(** ** Chunks *)

Section Chunks.

Import GroupBySender.

Lemma mergeGroup_senders (all : list SenderGroup) (g : SenderGroup) :
  map sender (mergeGroup all g)
  = if existsb (fun x => String.eqb (sender x) (sender g)) all
    then map sender all
    else map sender all ++ [sender g].
Proof.
  induction all as [|x rest IH]; [reflexivity|].
  simpl. destruct (String.eqb (sender x) (sender g)); [reflexivity|].
  simpl. rewrite IH.
  destruct (existsb (fun x0 => String.eqb (sender x0) (sender g)) rest); reflexivity.
Qed.

Lemma mergeGroup_counts (all : list SenderGroup) (g : SenderGroup) :
  list_sum (map count (mergeGroup all g))
  = (list_sum (map count all) + count g)%nat.
Proof.
  induction all as [|x rest IH]; [simpl; lia|].
  simpl. destruct (String.eqb (sender x) (sender g)); simpl; [lia|].
  rewrite IH. lia.
Qed.

Lemma mergingGroup_other (processed chunk : list EmailMetadata)
    (g : SenderGroup) (pending : list SenderGroup) (x : SenderGroup) :
  sender x <> sender g ->
  mergingGroup processed chunk (g :: pending) x ->
  mergingGroup processed chunk pending x.
Proof.
  intros Hne (Hc & Hn & Hin & Hout). split; [exact Hc|]. split; [exact Hn|]. split.
  - intros H. apply Hin. right. exact H.
  - intros H. apply Hout.
    intros [Heq | H']; [apply Hne; symmetry; exact Heq | exact (H H')].
Qed.

Lemma mergeGroup_groups (processed chunk : list EmailMetadata)
    (g : SenderGroup) (pending all : list SenderGroup) :
  List.NoDup (map sender all) ->
  ~ In (sender g) (map sender pending) ->
  groupOf chunk g ->
  Forall (mergingGroup processed chunk (g :: pending)) all ->
  (~ In (sender g) (map sender all) -> sentBy (sender g) processed = []) ->
  Forall (mergingGroup processed chunk pending) (mergeGroup all g).
Proof.
  intros Hnd Hfresh (Heg & Hcg & Hng). revert Hnd.
  induction all as [|x rest IH]; intros Hnd Hall Hnew.
  - simpl. constructor; [|constructor].
    split; [exact Hcg|]. split; [exact Hng|]. split; [intros H; contradiction|].
    intros _. rewrite sentBy_app, (Hnew (fun H => H)). exact Heg.
  - inversion Hall as [|? ? Hx Hrest]; subst.
    simpl in Hnd. apply List.NoDup_cons_iff in Hnd as [Hxfresh Hnd]. simpl.
    destruct (String.eqb_spec (sender x) (sender g)) as [Heq | Hne].
    + constructor.
      * destruct Hx as (Hc & Hn & Hin & _). split; [|split; [|split]]; simpl.
        -- rewrite length_app, Hc, Hcg. reflexivity.
        -- lia.
        -- intros H. rewrite Heq in H. contradiction.
        -- intros _. rewrite sentBy_app, (Hin (or_introl (eq_sym Heq))).
           rewrite Heg, Heq. reflexivity.
      * apply List.Forall_forall. intros y Hy.
        rewrite List.Forall_forall in Hrest.
        apply (mergingGroup_other processed chunk g); [|apply Hrest, Hy].
        intros Hys. apply Hxfresh. rewrite Heq, <- Hys. apply in_map, Hy.
    + constructor; [apply (mergingGroup_other processed chunk g); assumption|].
      apply IH; [exact Hnd | exact Hrest|].
      intros Hnot. apply Hnew. simpl.
      intros [H | H]; [exact (Hne H) | exact (Hnot H)].
Qed.

Lemma mergeGroup_keeps_senders (all : list SenderGroup) (g : SenderGroup)
    (s : string) :
  In s (map sender all) \/ s = sender g -> In s (map sender (mergeGroup all g)).
Proof.
  rewrite mergeGroup_senders.
  destruct (existsb (fun x => String.eqb (sender x) (sender g)) all) eqn:E.
  - intros [H | ->]; [exact H|]. apply existsb_sender, E.
  - intros [H | ->]; apply in_app_iff; [left; exact H | right; left; reflexivity].
Qed.

Lemma mergeGroup_nodup (all : list SenderGroup) (g : SenderGroup) :
  List.NoDup (map sender all) -> List.NoDup (map sender (mergeGroup all g)).
Proof.
  intros Hnd. rewrite mergeGroup_senders.
  destruct (existsb (fun x => String.eqb (sender x) (sender g)) all) eqn:E;
    [exact Hnd|].
  apply NoDup_snoc; [exact Hnd|]. intros H. apply existsb_sender in H.
  rewrite E in H. discriminate.
Qed.

Lemma mergeAll (processed chunk : list EmailMetadata)
    (pending all : list SenderGroup) :
  List.NoDup (map sender all) ->
  List.NoDup (map sender pending) ->
  Forall (groupOf chunk) pending ->
  Forall (mergingGroup processed chunk pending) all ->
  (forall s, ~ In s (map sender all) -> sentBy s processed = []) ->
  List.NoDup (map sender (fold_left mergeGroup pending all))
  /\ Forall (mergingGroup processed chunk []) (fold_left mergeGroup pending all)
  /\ (forall s, In s (map sender all) \/ In s (map sender pending) ->
        In s (map sender (fold_left mergeGroup pending all)))
  /\ list_sum (map count (fold_left mergeGroup pending all))
     = (list_sum (map count all) + list_sum (map count pending))%nat.
Proof.
  revert all. induction pending as [|g pending IH]; intros all Hnd Hndp Hgs Hall Hnew.
  - simpl. split; [exact Hnd|]. split; [exact Hall|]. split; [|lia].
    intros s [H | []]. exact H.
  - simpl in Hndp. apply List.NoDup_cons_iff in Hndp as [Hfresh Hndp].
    inversion Hgs as [|? ? Hg Hgs']; subst. simpl fold_left.
    destruct (IH (mergeGroup all g)) as (H1 & H2 & H3 & H4).
    + apply mergeGroup_nodup, Hnd.
    + exact Hndp.
    + exact Hgs'.
    + apply mergeGroup_groups; try assumption. apply Hnew.
    + intros s Hs. apply Hnew. intros H. apply Hs.
      apply mergeGroup_keeps_senders. left. exact H.
    + split; [exact H1|]. split; [exact H2|]. split.
      * intros s [H | [<- | H]]; apply H3.
        -- left. apply mergeGroup_keeps_senders. left. exact H.
        -- left. apply mergeGroup_keeps_senders. right. reflexivity.
        -- right. exact H.
      * rewrite H4, mergeGroup_counts. simpl. lia.
Qed.

Lemma sorted_report (emails : list EmailMetadata) (m : list SenderGroup) :
  groupsInv emails m -> reportOf emails (sortByCount m).
Proof.
  intros (Hnd & Hall & Hseen & Hsum).
  pose proof (sortByCount_perm m) as Hp.
  split; [|split; [|split; [|split]]].
  - apply (Permutation_NoDup (l := map sender m)); [|exact Hnd].
    symmetry. apply Permutation_map, Hp.
  - rewrite Hp. exact Hall.
  - intros e He. apply (Permutation_in (l := map sender m));
      [symmetry; apply Permutation_map, Hp | apply Hseen, He].
  - rewrite <- Hsum. apply list_sum_perm, Permutation_map, Hp.
  - apply sortByCount_sorted.
Qed.

Lemma groupEmailsBySender_report (emails : list EmailMetadata) :
  reportOf emails (groupEmailsBySender emails).
Proof.
  unfold groupEmailsBySender. apply sorted_report.
  assert (groupsInv [] []) as H0.
  { split; [constructor|]. split; [constructor|]. split; [intros e []|reflexivity]. }
  exact (groupLoop_inv emails [] [] H0).
Qed.

Lemma merge_chunk (processed chunk : list EmailMetadata) (all : list SenderGroup) :
  groupsInv processed all ->
  groupsInv (processed ++ chunk)
    (fold_left mergeGroup (groupEmailsBySender chunk) all).
Proof.
  intros (Hnd & Hall & Hseen & Hsum).
  destruct (groupEmailsBySender_report chunk) as (Gnd & Ggs & Gseen & Gsum & _).
  destruct (mergeAll processed chunk (groupEmailsBySender chunk) all)
    as (H1 & H2 & H3 & H4); try assumption.
  - apply List.Forall_forall. intros g Hg. rewrite List.Forall_forall in Hall.
    destruct (Hall g Hg) as (He & Hc & Hn).
    split; [exact Hc|]. split; [exact Hn|]. split; [intros _; exact He|].
    intros Hnot. rewrite sentBy_app, <- He.
    rewrite (sentBy_none (sender g) chunk), app_nil_r; [reflexivity|].
    intros e He' Heq. apply Hnot. rewrite <- Heq. apply Gseen, He'.
  - intros s Hs. apply sentBy_none. intros e He Heq. apply Hs.
    rewrite <- Heq. apply Hseen, He.
  - split; [exact H1|]. split; [|split].
    + apply List.Forall_forall. intros g Hg. rewrite List.Forall_forall in H2.
      destruct (H2 g Hg) as (Hc & Hn & _ & Hout).
      split; [|split; assumption]. apply Hout. intros [].
    + intros e He. apply H3. apply in_app_iff in He as [He | He].
      * left. apply Hseen, He.
      * right. apply Gseen, He.
    + rewrite H4, Hsum, Gsum, length_app. reflexivity.
Qed.

Lemma firstn_plus {A : Type} (i c : nat) (l : list A) :
  firstn (i + c) l = firstn i l ++ firstn c (skipn i l).
Proof.
  revert l. induction i as [|i IH]; intros l; [reflexivity|].
  destruct l as [|x l]; [simpl; destruct c; reflexivity|].
  simpl. rewrite IH. reflexivity.
Qed.

Lemma readable_app (fs : gmap string string) (a b : list string) :
  readable fs (a ++ b) = readable fs a ++ readable fs b.
Proof.
  unfold readable. induction a as [|x a IH]; [reflexivity|].
  change (omap (extractMetadata fs) ((x :: a) ++ b))
    with (match extractMetadata fs x with
          | Some m => m :: omap (extractMetadata fs) (a ++ b)
          | None => omap (extractMetadata fs) (a ++ b)
          end).
  change (omap (extractMetadata fs) (x :: a))
    with (match extractMetadata fs x with
          | Some m => m :: omap (extractMetadata fs) a
          | None => omap (extractMetadata fs) a
          end).
  rewrite IH. destruct (extractMetadata fs x); reflexivity.
Qed.

Lemma chunkLoop_inv (fs : gmap string string) (emailFiles : list string)
    (chunkSize : nat) :
  (1 <= chunkSize)%nat ->
  forall fuel i all,
    (List.length emailFiles - i < fuel)%nat ->
    groupsInv (readable fs (firstn i emailFiles)) all ->
    exists all',
      chunkLoop fuel fs emailFiles chunkSize i all = Some all'
      /\ groupsInv (readable fs emailFiles) all'.
Proof.
  intros Hc. induction fuel as [|fuel IH]; intros i all Hfuel Hinv; [lia|].
  simpl chunkLoop. destruct (i <? List.length emailFiles)%nat eqn:Hi.
  - apply Nat.ltb_lt in Hi. apply IH; [lia|].
    rewrite firstn_plus, readable_app.
    fold (readable fs (firstn chunkSize (skipn i emailFiles))).
    destruct (0 <? List.length (readable fs (firstn chunkSize (skipn i emailFiles))))%nat
      eqn:Hlen.
    + apply merge_chunk, Hinv.
    + apply Nat.ltb_ge in Hlen.
      destruct (readable fs (firstn chunkSize (skipn i emailFiles)));
        [|simpl in Hlen; lia].
      rewrite app_nil_r. exact Hinv.
  - apply Nat.ltb_ge in Hi. exists all. split; [reflexivity|].
    rewrite firstn_all2 in Hinv by exact Hi. exact Hinv.
Qed.

Lemma chunkLoop_stuck (fs : gmap string string) (emailFiles : list string)
    (fuel : nat) (all : list SenderGroup) :
  emailFiles <> [] -> chunkLoop fuel fs emailFiles 0 0 all = None.
Proof.
  intros Hne. revert all. induction fuel as [|fuel IH]; intros all; [reflexivity|].
  simpl chunkLoop.
  destruct emailFiles as [|f files]; [contradiction|]. simpl. apply IH.
Qed.

Lemma groupOf_unique (emails : list EmailMetadata) (g1 g2 : SenderGroup) :
  groupOf emails g1 -> groupOf emails g2 -> sender g1 = sender g2 -> g1 = g2.
Proof.
  intros (He1 & Hc1 & _) (He2 & Hc2 & _) Hs.
  destruct g1 as [s1 c1 e1], g2 as [s2 c2 e2]. simpl in *. subst.
  reflexivity.
Qed.

Lemma report_unique (emails : list EmailMetadata) (l1 l2 : list SenderGroup) :
  reportOf emails l1 -> reportOf emails l2 ->
  forall g, In g l1 -> In g l2.
Proof.
  intros (_ & Hg1 & _) (_ & Hg2 & Hseen2 & _) g Hg.
  rewrite List.Forall_forall in Hg1, Hg2.
  pose proof (Hg1 g Hg) as Hgo. pose proof Hgo as (He & Hc & Hn).
  assert (exists e, In e emails /\ senderOf e = sender g) as (e & Hin & Heq).
  { destruct (GroupBySender.emails g) as [|e es] eqn:Hes; [simpl in Hc; lia|].
    assert (In e (sentBy (sender g) emails)) as Hin
      by (rewrite <- He; left; reflexivity).
    unfold sentBy in Hin. apply filter_In in Hin as [Hin Heq].
    apply String.eqb_eq in Heq. eauto. }
  specialize (Hseen2 e Hin). apply in_map_iff in Hseen2 as (g2 & Hs2 & Hin2).
  assert (g2 = g) as <-; [|exact Hin2].
  apply (groupOf_unique emails); [apply Hg2, Hin2 | exact Hgo | congruence].
Qed.

(** X21.  Chunks do not show in the report.  For a chunk size of at least
    one, [processEmailsInChunks] leaves its loop after at most one round per
    file, and what it returns is the report of all the files it could read:
    the same groups, each with the same messages in the same order, as
    [groupEmailsBySender] gives for all of them at once; only groups of
    equal count may stand in another order.  With a chunk size of zero and
    at least one file the loop is never left. *)
Theorem processEmailsInChunks_report (fs : gmap string string)
    (emailFiles : list string) (chunkSize : nat) :
  ((1 <= chunkSize)%nat ->
   exists groups,
     processEmailsInChunks (S (List.length emailFiles)) fs emailFiles chunkSize
     = Some groups
     /\ reportOf (readable fs emailFiles) groups
     /\ Permutation groups (groupEmailsBySender (readable fs emailFiles)))
  /\ (emailFiles <> [] ->
      forall fuel, processEmailsInChunks fuel fs emailFiles 0 = None).
Proof.
  split.
  - intros Hc. unfold processEmailsInChunks.
    assert (groupsInv (readable fs (firstn 0 emailFiles)) []) as H0.
    { split; [constructor|]. split; [constructor|].
      split; [intros e []|reflexivity]. }
    destruct (chunkLoop_inv fs emailFiles chunkSize Hc
                (S (List.length emailFiles)) 0%nat [] ltac:(lia) H0)
      as (all & -> & Hinv).
    exists (sortByCount all). split; [reflexivity|].
    pose proof (sorted_report _ _ Hinv) as Hr.
    pose proof (groupEmailsBySender_report (readable fs emailFiles)) as Hr'.
    split; [exact Hr|].
    apply Permutation.NoDup_Permutation.
    + destruct Hr as (Hnd & _). apply NoDup_map_inv in Hnd. exact Hnd.
    + destruct Hr' as (Hnd & _). apply NoDup_map_inv in Hnd. exact Hnd.
    + intros g.
      split; apply (report_unique (readable fs emailFiles)); assumption.
  - intros Hne fuel. unfold processEmailsInChunks.
    rewrite chunkLoop_stuck by exact Hne. reflexivity.
Qed.

End Chunks.

Lemma processEmailsInChunks_report_witness :
  (exists groups,
     GroupBySender.processEmailsInChunks (S (List.length ["a.md"; "b.md"; "c.md"]))
       (<["a.md" := "# s" +:+ nl +:+ "**From:** Ann <a@x>" +:+ nl +:+ "**To:** t" +:+ nl]>
          (<["c.md" := "# s" +:+ nl +:+ "**From:** Ann" +:+ nl +:+ "**To:** t" +:+ nl]> ∅))
       ["a.md"; "b.md"; "c.md"] 2
     = Some groups
     /\ reportOf
          (readable
             (<["a.md" := "# s" +:+ nl +:+ "**From:** Ann <a@x>" +:+ nl +:+ "**To:** t" +:+ nl]>
                (<["c.md" := "# s" +:+ nl +:+ "**From:** Ann" +:+ nl +:+ "**To:** t" +:+ nl]> ∅))
             ["a.md"; "b.md"; "c.md"]) groups
     /\ Permutation groups
          (GroupBySender.groupEmailsBySender
             (readable
                (<["a.md" := "# s" +:+ nl +:+ "**From:** Ann <a@x>" +:+ nl +:+ "**To:** t" +:+ nl]>
                   (<["c.md" := "# s" +:+ nl +:+ "**From:** Ann" +:+ nl +:+ "**To:** t" +:+ nl]> ∅))
                ["a.md"; "b.md"; "c.md"])))
  /\ GroupBySender.processEmailsInChunks 5 ∅ ["a.md"] 0 = None.
Proof.
  split.
  - apply processEmailsInChunks_report. lia.
  - destruct (processEmailsInChunks_report ∅ ["a.md"] 0) as [_ H].
    apply H. discriminate.
Defined.


(** ** Text without escapes and encoded words *)

Lemma decodeHeader_plain (value : string) :
  JS.includes value "=?" = false -> decodeHeader value = JS.trim value.
Proof.
  intros H. unfold decodeHeader.
  change (Regex.replace reEncodedWord decodeReplacement value)
    with (decodeWords value).
  rewrite (decodeWords_plain value H). reflexivity.
Qed.

(** X22.  Plain text passes through: a body that holds no equals sign, and
    a header value in which no [=?] occurs, are only trimmed. *)
Theorem plain_text_only_trimmed (text : string) :
  (JS.includes text "=" = false -> cleanBody text = JS.trim text)
  /\ (JS.includes text "=?" = false -> decodeHeader text = JS.trim text).
Proof. split; [apply cleanBody_plain | apply decodeHeader_plain]. Qed.

Lemma plain_text_only_trimmed_witness :
  cleanBody ("  Dear all, see you at 10:00." +:+ nl) = "Dear all, see you at 10:00."
  /\ decodeHeader "  Re: 2 + 2 = 4?  " = JS.trim "  Re: 2 + 2 = 4?  ".
Proof.
  split.
  - apply (proj1 (plain_text_only_trimmed ("  Dear all, see you at 10:00." +:+ nl))).
    reflexivity.
  - apply (proj2 (plain_text_only_trimmed "  Re: 2 + 2 = 4?  ")). reflexivity.
Defined.


(** ** The loop over the pieces of the archive *)

Lemma processPieces_spec (config : IdentityConfig) (pieces : list string)
    (st : ParseState) :
  fold_left (processPiece config) pieces st
  = mkParseState
      (emails st ++ List.filter (fun e => negb (isSelfEmail config e))
                      (omap parseEmail pieces))
      (skippedSelfEmails st
       + List.length (List.filter (isSelfEmail config) (omap parseEmail pieces))).
Proof.
  revert st. induction pieces as [|b pieces IH]; intros st.
  - simpl. rewrite app_nil_r, Nat.add_0_r. destruct st; reflexivity.
  - simpl fold_left. rewrite IH. unfold processPiece.
    change (omap parseEmail (b :: pieces))
      with (match parseEmail b with
            | Some e => e :: omap parseEmail pieces
            | None => omap parseEmail pieces
            end).
    destruct (parseEmail b) as [email|]; [|reflexivity].
    simpl List.filter. destruct (isSelfEmail config email); simpl.
    + f_equal. symmetry. apply Nat.add_succ_r.
    + rewrite <- app_assoc. reflexivity.
Qed.

(** X23.  [parseFile] returns, in the order of the pieces, the records
    parsed from them that the classifier does not exclude; and
    [parseContent] does to a content what [parseFile] does to its blocks
    once they are trimmed and the empty ones left out. *)
Theorem parseFile_is_filter (config : IdentityConfig) :
  (forall pieces,
     parseFile config pieces
     = List.filter (fun e => negb (isSelfEmail config e)) (omap parseEmail pieces))
  /\ (forall content,
        parseContent config content = parseFile config (parsedBlocks content)).
Proof.
  assert (forall pieces,
            parseFile config pieces
            = List.filter (fun e => negb (isSelfEmail config e))
                (omap parseEmail pieces)) as H.
  { intros pieces. unfold parseFile. rewrite processPieces_spec. reflexivity. }
  split; [exact H|].
  intros content. rewrite H. unfold parseContent, parsedBlocks.
  rewrite processBlocks_spec. reflexivity.
Qed.


(** ** Batch files *)

Lemma padded_number (n width : nat) (c : ascii) (rest : string) :
  isDigit c = false ->
  readDecimal (fst (JS.span isDigit (padStart (decimal n) width "0" +:+ String c rest)))
  = Some n.
Proof.
  intros Hc.
  destruct (padStart_zeros (decimal n) width
              (string_of_uint_digits (Nat.to_uint n))) as [Hd Hr].
  rewrite (span_run isDigit _ c rest Hd Hc). simpl fst.
  rewrite Hr. apply readDecimal_decimal.
Qed.

Lemma batchName_inj (a b : nat) : LlmFiles.batchName a = LlmFiles.batchName b -> a = b.
Proof.
  unfold LlmFiles.batchName. intros H. apply app_inv_head_s in H.
  pose proof (padded_number a 3 "." "md" eq_refl) as Ha.
  pose proof (padded_number b 3 "." "md" eq_refl) as Hb.
  change (String "." "md") with ".md" in Ha, Hb.
  rewrite H, Hb in Ha. injection Ha as Ha. symmetry. exact Ha.
Qed.

Lemma targetPath_inj (a b : string) :
  LlmFiles.targetPath a = LlmFiles.targetPath b -> a = b.
Proof.
  unfold LlmFiles.targetPath. intros H.
  apply app_inv_head_s, app_inv_head_s in H. exact H.
Qed.

Lemma batchName_not (name : string) (k : nat) :
  JS.startsWith name "emails_" = false -> name <> LlmFiles.batchName k.
Proof.
  intros H Heq. rewrite Heq in H.
  assert (JS.startsWith (LlmFiles.batchName k) "emails_" = true) as Ht.
  { apply startsWith_spec. eexists. unfold LlmFiles.batchName.
    rewrite !app_cons. reflexivity. }
  rewrite Ht in H. discriminate.
Qed.

Lemma appendEmails_ext (fs1 fs2 : gmap string string) (chunk : list string)
    (text : string) :
  (forall f, In f chunk -> fs1 !! f = fs2 !! f) ->
  LlmFiles.appendEmails fs1 chunk text = LlmFiles.appendEmails fs2 chunk text.
Proof.
  revert text. induction chunk as [|f chunk IH]; intros text H; [reflexivity|].
  simpl. rewrite (H f (or_introl eq_refl)).
  destruct (fs2 !! f); [|reflexivity].
  apply IH. intros f' Hf'. apply H. right. exact Hf'.
Qed.

Lemma appendEmails_some (fs : gmap string string) (chunk : list string)
    (text : string) :
  (forall f, In f chunk -> is_Some (fs !! f)) ->
  is_Some (LlmFiles.appendEmails fs chunk text).
Proof.
  revert text. induction chunk as [|f chunk IH]; intros text H; [simpl; eauto|].
  simpl. destruct (H f (or_introl eq_refl)) as [content ->].
  apply IH. intros f' Hf'. apply H. right. exact Hf'.
Qed.

Lemma In_of_firstn {A : Type} (n : nat) (l : list A) (x : A) :
  In x (firstn n l) -> In x l.
Proof.
  revert l. induction n as [|n IH]; intros l H; [contradiction|].
  destruct l as [|y l]; [contradiction|].
  destruct H as [H | H]; [left; exact H | right; apply IH, H].
Qed.

Lemma In_of_skipn {A : Type} (n : nat) (l : list A) (x : A) :
  In x (skipn n l) -> In x l.
Proof.
  revert l. induction n as [|n IH]; intros l H; [exact H|].
  destruct l as [|y l]; [contradiction|]. right. apply IH, H.
Qed.

Lemma In_batchOf (size : nat) (emailFiles : list string) (j : nat) (f : string) :
  In f (batchOf size emailFiles j) -> In f emailFiles.
Proof.
  unfold batchOf. intros H.
  apply (In_of_skipn (j * size)), (In_of_firstn size), H.
Qed.

Lemma batches_concat (size : nat) (emailFiles : list string) (k : nat) :
  concat (map (batchOf size emailFiles) (seq 0 k)) = firstn (k * size) emailFiles.
Proof.
  induction k as [|k IH]; [reflexivity|].
  rewrite seq_S, map_app, concat_app, IH. simpl.
  rewrite app_nil_r. unfold batchOf.
  replace (size + k * size)%nat with (k * size + size)%nat by lia.
  rewrite firstn_plus. reflexivity.
Qed.

Lemma batchOf_nonempty (size : nat) (emailFiles : list string) (j : nat) :
  (1 <= size)%nat -> (j * size < List.length emailFiles)%nat ->
  batchOf size emailFiles j <> [].
Proof.
  intros Hs Hj. unfold batchOf.
  pose proof (length_skipn (j * size) emailFiles) as Hl.
  destruct (skipn (j * size) emailFiles) as [|x l]; [simpl in Hl; lia|].
  destruct size; [lia|]. discriminate.
Qed.

Section BatchLoop.

Variable emailFiles : list string.
Variable fs : gmap string string.
Variable size : nat.

Hypothesis size_positive : (1 <= size)%nat.
Hypothesis files_readable : forall f, In f emailFiles -> is_Some (fs !! f).
Hypothesis files_apart :
  forall f k, In f emailFiles -> f <> LlmFiles.targetPath (LlmFiles.batchName k).

Lemma batchLoop_spec (fuel fileCounter : nat) (fs1 : gmap string string) :
  (List.length emailFiles - fileCounter * size < fuel)%nat ->
  (forall f, In f emailFiles -> fs1 !! f = fs !! f) ->
  exists fileCounter' fs',
    LlmFiles.batchLoop fuel emailFiles size (fileCounter * size) fileCounter fs1
    = LlmFiles.Finished fileCounter' fs'
    /\ (fileCounter <= fileCounter')%nat
    /\ (List.length emailFiles <= fileCounter' * size)%nat
    /\ ((fileCounter < fileCounter')%nat ->
        ((fileCounter' - 1) * size < List.length emailFiles)%nat)
    /\ (forall j, (fileCounter <= j < fileCounter')%nat ->
          is_Some (batchText fs size emailFiles j)
          /\ fs' !! LlmFiles.targetPath (LlmFiles.batchName (S j))
             = batchText fs size emailFiles j)
    /\ (forall path,
          (forall j, (fileCounter <= j < fileCounter')%nat ->
             path <> LlmFiles.targetPath (LlmFiles.batchName (S j))) ->
          fs' !! path = fs1 !! path).
Proof.
  revert fileCounter fs1.
  induction fuel as [|fuel' IH]; intros fileCounter fs1 Hfuel Hsame; [lia|].
  simpl LlmFiles.batchLoop.
  destruct (fileCounter * size <? List.length emailFiles)%nat eqn:Hi.
  - apply Nat.ltb_lt in Hi.
    fold (batchOf size emailFiles fileCounter).
    assert (LlmFiles.appendEmails fs1 (batchOf size emailFiles fileCounter)
              (LlmFiles.batchHeading (S fileCounter)
                 (List.length (batchOf size emailFiles fileCounter)))
            = batchText fs size emailFiles fileCounter) as Htext.
    { apply appendEmails_ext. intros f Hf. apply Hsame.
      apply (In_batchOf size emailFiles fileCounter), Hf. }
    assert (is_Some (batchText fs size emailFiles fileCounter)) as Hsome.
    { apply appendEmails_some. intros f Hf. apply files_readable.
      apply (In_batchOf size emailFiles fileCounter), Hf. }
    rewrite Htext. destruct Hsome as [combined Hcombined]. rewrite Hcombined.
    replace (fileCounter * size + size)%nat with (S fileCounter * size)%nat
      by (simpl; lia).
    destruct (IH (S fileCounter)
                (writeTextFile
                   (LlmFiles.targetPath (LlmFiles.batchName (S fileCounter)))
                   combined fs1))
      as (fc' & fs' & Hrun & Hle & Hcover & Hlast & Hwritten & Hframe).
    + simpl. nia.
    + intros f Hf. unfold writeTextFile.
      rewrite lookup_insert_ne
        by (intros Heq; exact (files_apart f (S fileCounter) Hf (eq_sym Heq))).
      apply Hsame, Hf.
    + exists fc', fs'. split; [exact Hrun|]. split; [lia|]. split; [exact Hcover|].
      split; [|split].
      * intros _. destruct (Nat.eq_dec fc' (S fileCounter)) as [-> | Hne].
        -- simpl. rewrite Nat.sub_0_r. exact Hi.
        -- apply Hlast. lia.
      * intros j Hj. destruct (Nat.eq_dec j fileCounter) as [-> | Hne].
        -- split; [rewrite Hcombined; eauto|].
           rewrite Hframe.
           ++ unfold writeTextFile. rewrite lookup_insert_eq, Hcombined. reflexivity.
           ++ intros j' Hj' Heq.
              apply targetPath_inj, batchName_inj in Heq. lia.
        -- apply Hwritten. lia.
      * intros path Hpath. rewrite Hframe.
        -- unfold writeTextFile. apply lookup_insert_ne.
           intros Heq. apply (Hpath fileCounter); [lia | symmetry; exact Heq].
        -- intros j Hj. apply Hpath. lia.
  - apply Nat.ltb_ge in Hi. exists fileCounter, fs1.
    split; [reflexivity|]. split; [lia|]. split; [exact Hi|].
    split; [lia|]. split; [intros j Hj; lia|]. intros path _. reflexivity.
Qed.

End BatchLoop.

Lemma copyIfExists_other (source target path : string) (fs : gmap string string) :
  path <> target -> LlmFiles.copyIfExists source target fs !! path = fs !! path.
Proof.
  intros H. unfold LlmFiles.copyIfExists, writeTextFile.
  destruct (fs !! source); [|reflexivity].
  apply lookup_insert_ne. intros Heq. apply H. symmetry. exact Heq.
Qed.

Lemma emailsPerFile_enough (n : nat) :
  (n <= LlmFiles.TARGET_FILE_COUNT * LlmFiles.emailsPerFile n)%nat
  /\ ((1 <= n)%nat -> (1 <= LlmFiles.emailsPerFile n)%nat).
Proof.
  unfold LlmFiles.emailsPerFile, LlmFiles.TARGET_FILE_COUNT.
  change (300 - 1)%nat with 299%nat.
  pose proof (Nat.div_mod_eq (n + 299) 300) as Hd.
  pose proof (Nat.mod_upper_bound (n + 299) 300 ltac:(lia)) as Hm.
  split; [lia|]. intros Hn.
  destruct ((n + 299) / 300)%nat eqn:E; lia.
Qed.




(** ** The subject report: merging groups *)

Section SubjectGroups.

Import GroupEmails.

Variable atLeast : nat -> nat -> bool.

Lemma mergeGroup_emails (existing : list EmailGroup) (g : EmailGroup) :
  Permutation (groupedEmails (mergeGroup atLeast existing g))
    (groupedEmails existing ++ GroupEmails.emails g)
  /\ list_sum (map count (mergeGroup atLeast existing g))
     = (list_sum (map count existing) + count g)%nat.
Proof.
  unfold groupedEmails.
  induction existing as [|x rest [IH1 IH2]]; [simpl; split; [rewrite app_nil_r; reflexivity | lia]|].
  simpl mergeGroup.
  match goal with |- context [if ?c then _ else _] => destruct c end.
  - simpl. split; [|lia].
    rewrite <- !app_assoc. apply Permutation_app_head, Permutation_app_comm.
  - simpl. split; [|rewrite IH2; lia].
    rewrite IH1, <- app_assoc. reflexivity.
Qed.

(** X25.  [mergeGroups] neither loses nor repeats a message: the messages
    of the groups it leaves are those of the existing groups and of the new
    groups, and the counts add up accordingly. *)
Theorem mergeGroups_keeps_messages (existing news : list EmailGroup) :
  Permutation (groupedEmails (mergeGroups atLeast existing news))
    (groupedEmails existing ++ groupedEmails news)
  /\ list_sum (map count (mergeGroups atLeast existing news))
     = (list_sum (map count existing) + list_sum (map count news))%nat.
Proof.
  unfold mergeGroups. revert existing.
  induction news as [|g news IH]; intros existing.
  - simpl. split; [rewrite app_nil_r; reflexivity | lia].
  - simpl fold_left. destruct (IH (mergeGroup atLeast existing g)) as [H1 H2].
    destruct (mergeGroup_emails existing g) as [M1 M2].
    split.
    + rewrite H1, M1. unfold groupedEmails. simpl. rewrite <- app_assoc.
      reflexivity.
    + rewrite H2, M2. simpl. lia.
Qed.

End SubjectGroups.


(** ** The subject report: similarity *)

Section Similarity.

Import GroupEmails.

Lemma has_spec (l : list string) (x : string) : has l x = true <-> In x l.
Proof.
  unfold has. rewrite existsb_exists. split.
  - intros (y & Hy & Heq). apply String.eqb_eq in Heq. subst. exact Hy.
  - intros H. exists x. split; [exact H | apply String.eqb_refl].
Qed.

Lemma uniq_In (l : list string) (x : string) : In x (uniq l) <-> In x l.
Proof.
  induction l as [|y l IH]; [reflexivity|].
  simpl. rewrite filter_In, IH. split.
  - intros [H | [H _]]; [left | right]; exact H.
  - intros [H | H]; [left; exact H|].
    destruct (String.eqb_spec x y) as [-> | Hne]; [left; reflexivity|].
    right. split; [exact H | reflexivity].
Qed.

Lemma uniq_NoDup (l : list string) : List.NoDup (uniq l).
Proof.
  induction l as [|y l IH]; [constructor|].
  simpl. constructor.
  - rewrite filter_In. intros [_ H]. rewrite String.eqb_refl in H. discriminate.
  - apply List.NoDup_filter, IH.
Qed.

Lemma same_size (a b : list string) :
  List.NoDup a -> List.NoDup b -> (forall x, In x a <-> In x b) ->
  List.length a = List.length b.
Proof.
  intros Ha Hb H. apply Permutation_length.
  apply Permutation.NoDup_Permutation; assumption.
Qed.

Lemma overlap_sym (k1 k2 : list string) : overlap k1 k2 = overlap k2 k1.
Proof.
  unfold overlap. cbv zeta. f_equal.
  - apply same_size; try apply uniq_NoDup.
    intros x. rewrite !uniq_In, !filter_In, !has_spec, !uniq_In. tauto.
  - apply same_size; try apply uniq_NoDup.
    intros x. rewrite !uniq_In, !in_app_iff, !uniq_In. tauto.
Qed.

Lemma overlap_self (k : list string) :
  overlap k k = (List.length (uniq k), List.length (uniq k)).
Proof.
  unfold overlap. cbv zeta. f_equal.
  - apply same_size; try apply uniq_NoDup.
    intros x. rewrite !uniq_In, !filter_In, !has_spec, !uniq_In. tauto.
  - apply same_size; try apply uniq_NoDup.
    intros x. rewrite !uniq_In, !in_app_iff, !uniq_In. tauto.
Qed.

(** X26.  The similarity of two subjects does not depend on their order,
    and a subject with at least one keyword is as similar to itself as can
    be: the two sizes are equal and not zero, so the quotient is one. *)
Theorem calculateSimilarity_symmetric (subject1 subject2 : string) :
  calculateSimilarity subject1 subject2 = calculateSimilarity subject2 subject1
  /\ (extractKeywords subject1 <> [] ->
      exists n, (1 <= n)%nat /\ calculateSimilarity subject1 subject1 = (n, n)).
Proof.
  split.
  - unfold calculateSimilarity. cbv zeta.
    rewrite (orb_comm (List.length (extractKeywords subject1) =? 0)%nat).
    destruct ((List.length (extractKeywords subject2) =? 0)%nat
              || (List.length (extractKeywords subject1) =? 0)%nat);
      [reflexivity | apply overlap_sym].
  - intros Hne. unfold calculateSimilarity. cbv zeta.
    destruct (extractKeywords subject1) as [|w ws] eqn:Hk; [contradiction|].
    simpl orb. cbv iota. rewrite overlap_self.
    exists (List.length (uniq (w :: ws))). split; [simpl; lia | reflexivity].
Qed.

End Similarity.

Lemma calculateSimilarity_symmetric_witness :
  exists n, (1 <= n)%nat
            /\ GroupEmails.calculateSimilarity "Re: Project plan" "Re: Project plan"
               = (n, n).
Proof.
  apply (calculateSimilarity_symmetric "Re: Project plan" "x").
  vm_compute. discriminate.
Defined.


(** ** The subject report: keywords *)

Lemma replace_spaces_chars (q : ascii -> bool) (rep s : string) (skip : nat) :
  allChars q rep = true ->
  allChars (fun c => isWhite c || q c) s = true ->
  allChars q (JS.replaceAllFrom (Regex.replacer reSpaces (fun _ _ => rep)) skip s)
  = true.
Proof.
  intros Hrep. revert skip. induction s as [|c s IH]; intros skip H; [reflexivity|].
  simpl in H. apply andb_true_iff in H as [Hc H].
  simpl JS.replaceAllFrom. destruct skip as [|skip]; [|apply IH, H].
  rewrite replacer_spaces. destruct (isWhite c) eqn:Hw.
  - rewrite allChars_app, Hrep. apply IH, H.
  - simpl. simpl in Hc. rewrite Hc. apply IH, H.
Qed.

Lemma split_pieces (sep : ascii) (q : ascii -> bool) (s : string) :
  allChars (fun c => Ascii.eqb c sep || q c) s = true ->
  Forall (fun piece => allChars q piece = true) (JS.split sep s).
Proof.
  induction s as [|c s IH]; intros H; [repeat constructor|].
  simpl in H. apply andb_true_iff in H as [Hc H]. specialize (IH H).
  rewrite split_cons. pose proof (split_nonempty sep s) as Hne.
  destruct (JS.split sep s) as [|h t]; [contradiction|].
  inversion IH as [|? ? Hh Ht]; subst.
  destruct (Ascii.eqb c sep) eqn:E.
  - constructor; [reflexivity | exact IH].
  - simpl prependToFirst. constructor; [|exact Ht].
    rewrite app_cons, app_empty_l. simpl. simpl in Hc. rewrite Hc. exact Hh.
Qed.

Lemma lowered_word_char (c : ascii) :
  GroupEmails.isWordChar (lowerChar c) || isWhite (lowerChar c)
  = isWhite (lowerChar c) || isKeywordChar (lowerChar c).
Proof. destruct c as [[] [] [] [] [] [] [] []]; vm_compute; reflexivity. Qed.

Lemma keyword_not_space (c : ascii) :
  isWhite c || isKeywordChar c = true ->
  isWhite c || (Ascii.eqb c " " || isKeywordChar c) = true.
Proof. destruct (isWhite c); [reflexivity|]. simpl. intros ->. apply orb_true_r. Qed.

Lemma allChars_impl (p q : ascii -> bool) (s : string) :
  (forall c, p c = true -> q c = true) ->
  allChars p s = true -> allChars q s = true.
Proof.
  intros Himp. induction s as [|c s IH]; intros H; [reflexivity|].
  simpl in *. apply andb_true_iff in H as [Hc H].
  rewrite (Himp c Hc), (IH H). reflexivity.
Qed.

Lemma normalizeText_chars (text : string) :
  allChars (fun c => Ascii.eqb c " " || isKeywordChar c)
    (GroupEmails.normalizeText text) = true.
Proof.
  unfold GroupEmails.normalizeText. apply allChars_trim.
  apply replace_spaces_chars; [reflexivity|].
  unfold GroupEmails.rePunctuation. rewrite replace_cls_filter.
  apply (allChars_impl (fun c => isWhite c || isKeywordChar c));
    [apply keyword_not_space|].
  induction text as [|c text IH]; [reflexivity|].
  simpl JS.toLowerCase. simpl JS.filter. rewrite negb_involutive.
  destruct (GroupEmails.isWordChar (lowerChar c) || isWhite (lowerChar c)) eqn:E;
    [|exact IH].
  simpl. rewrite <- lowered_word_char, E. exact IH.
Qed.

(** X27.  Every keyword taken from a subject has at least three code
    units, all of them small letters, digits or underscores, and is none of
    the stop words. *)
Theorem extractKeywords_shape (subject : string) :
  Forall (fun word =>
            (3 <= String.length word)%nat
            /\ allChars isKeywordChar word = true
            /\ GroupEmails.has GroupEmails.stopwords word = false)
    (GroupEmails.extractKeywords subject).
Proof.
  unfold GroupEmails.extractKeywords. cbv zeta.
  pose proof (split_pieces " " isKeywordChar _ (normalizeText_chars subject)) as Hp.
  apply List.Forall_forall. intros word Hin.
  apply filter_In in Hin as [Hin Hkeep].
  apply andb_true_iff in Hkeep as [Hlen Hstop].
  apply Nat.ltb_lt in Hlen. apply negb_true_iff in Hstop.
  rewrite List.Forall_forall in Hp.
  split; [lia|]. split; [apply Hp, Hin | exact Hstop].
Qed.


(** ** The subject report: groups *)

Lemma NoDup_map_inj {A B : Type} (f : A -> B) (l : list A) (x y : A) :
  List.NoDup (map f l) -> In x l -> In y l -> f x = f y -> x = y.
Proof.
  induction l as [|z l IH]; intros Hnd Hx Hy Heq; [contradiction|].
  simpl in Hnd. apply List.NoDup_cons_iff in Hnd as [Hz Hnd].
  destruct Hx as [-> | Hx], Hy as [-> | Hy].
  - reflexivity.
  - contradiction Hz. rewrite Heq. apply in_map, Hy.
  - contradiction Hz. rewrite <- Heq. apply in_map, Hx.
  - apply IH; assumption.
Qed.

Lemma concat_perm {A : Type} (l l' : list (list A)) :
  Permutation l l' -> Permutation (concat l) (concat l').
Proof.
  induction 1 as [|x l l' _ IH|x y l|l l' l'' _ IH1 _ IH2]; simpl.
  - reflexivity.
  - apply Permutation_app_head, IH.
  - rewrite !app_assoc. apply Permutation_app_tail, Permutation_app_comm.
  - rewrite IH1. exact IH2.
Qed.

Section SubjectGrouping.

Import GroupEmails.

Variable atLeast : nat -> nat -> bool.
Variable allEmails : list EmailMetadata.

Lemma considerOther_inv (before : gset string) (seed other : EmailMetadata)
    (st : EmailGroup * gset string) :
  In other allEmails ->
  innerInv atLeast allEmails before seed st ->
  innerInv atLeast allEmails before seed (considerOther atLeast seed st other).
Proof.
  intros Hother Hinv. unfold considerOther. cbv zeta.
  destruct (decide (filePath other ∈ snd st)) as [Hin | Hnot]; [exact Hinv|].
  destruct (similar atLeast (subject seed) (subject other)) eqn:Hsim; [|exact Hinv].
  destruct Hinv as (Hmem & Hnd & Hall & Hfresh & Hcount & members & Hseed & Hsimilar).
  assert (~ In (filePath other) (map filePath (emails (fst st)))) as Hnew
    by (intros H; apply Hnot, Hmem; right; exact H).
  assert (filePath other ∉ before) as Hnb
    by (intros H; apply Hnot, Hmem; left; exact H).
  unfold innerInv. simpl fst. simpl snd. simpl emails. simpl count.
  split; [|split; [|split; [|split; [|split]]]].
  - intros p. rewrite elem_of_union, elem_of_singleton, Hmem, map_app, in_app_iff.
    simpl. intuition congruence.
  - rewrite map_app. simpl. apply NoDup_snoc; assumption.
  - intros e He. apply in_app_iff in He as [He | [<- | []]]; [apply Hall, He | exact Hother].
  - intros e He. apply in_app_iff in He as [He | [<- | []]]; [apply Hfresh, He | exact Hnb].
  - rewrite length_app, Hcount. simpl. lia.
  - exists (members ++ [other]). split; [rewrite Hseed; reflexivity|].
    apply Forall_app. split; [exact Hsimilar|]. constructor; [exact Hsim | constructor].
Qed.

Lemma inner_loop_inv (before : gset string) (seed : EmailMetadata)
    (others : list EmailMetadata) (st : EmailGroup * gset string) :
  (forall o, In o others -> In o allEmails) ->
  innerInv atLeast allEmails before seed st ->
  innerInv atLeast allEmails before seed
    (fold_left (considerOther atLeast seed) others st).
Proof.
  revert st. induction others as [|o others IH]; intros st Hsub Hinv; [exact Hinv|].
  simpl fold_left. apply IH.
  - intros o' Ho'. apply Hsub. right. exact Ho'.
  - apply considerOther_inv; [apply Hsub; left; reflexivity | exact Hinv].
Qed.

Lemma groupedEmails_snoc (groups : list EmailGroup) (g : EmailGroup) :
  groupedEmails (groups ++ [g]) = groupedEmails groups ++ GroupEmails.emails g.
Proof.
  unfold groupedEmails. rewrite map_app, concat_app. simpl.
  rewrite app_nil_r. reflexivity.
Qed.

Lemma startGroup_inv (email : EmailMetadata)
    (st : list EmailGroup * gset string) :
  In email allEmails ->
  outerInv atLeast allEmails st ->
  outerInv atLeast allEmails (startGroup atLeast allEmails st email)
  /\ (forall p, p ∈ snd st -> p ∈ snd (startGroup atLeast allEmails st email))
  /\ filePath email ∈ snd (startGroup atLeast allEmails st email).
Proof.
  intros Hemail Hinv. unfold startGroup. cbv zeta.
  destruct (decide (filePath email ∈ snd st)) as [Hin | Hnot];
    [split; [exact Hinv | split; [trivial | exact Hin]]|].
  destruct Hinv as (Hmem & Hnd & Hall & Hgroups).
  set (st0 := (mkEmailGroup "" 1 [email] (extractKeywords (subject email)),
               snd st ∪ {[filePath email]})).
  assert (innerInv atLeast allEmails (snd st) email st0) as H0.
  { unfold innerInv, st0. simpl.
    split; [|split; [|split; [|split; [|split]]]].
    - intros p. rewrite elem_of_union, elem_of_singleton. intuition congruence.
    - constructor; [intros [] | constructor].
    - intros e [<- | []]. exact Hemail.
    - intros e [<- | []]. exact Hnot.
    - reflexivity.
    - exists []. split; [reflexivity | constructor]. }
  pose proof (inner_loop_inv (snd st) email allEmails st0 (fun o H => H) H0) as Hbuilt.
  set (built := fold_left (considerOther atLeast email) allEmails st0) in *.
  destruct Hbuilt as (Bmem & Bnd & Ball & Bfresh & Bcount & members & Bseed & Bsim).
  simpl fst. simpl snd.
  split; [|split].
  - unfold outerInv. simpl fst. simpl snd. rewrite groupedEmails_snoc.
    simpl emails. split; [|split; [|split]].
    + intros p. rewrite Bmem, Hmem, map_app, in_app_iff. reflexivity.
    + rewrite map_app. apply List.NoDup_app; [exact Hnd | exact Bnd|].
      intros p Hp Hp'. apply in_map_iff in Hp' as (e & <- & He).
      apply (Bfresh e He). apply Hmem. exact Hp.
    + intros e He. apply in_app_iff in He as [He | He]; [apply Hall, He | apply Ball, He].
    + apply Forall_app. split; [exact Hgroups|]. constructor; [|constructor].
      split; [exact Bcount|]. exists email, members. split; [exact Bseed | exact Bsim].
  - intros p Hp. apply Bmem. left. exact Hp.
  - apply Bmem. right. rewrite Bseed. left. reflexivity.
Qed.

Lemma outer_loop_inv (l : list EmailMetadata)
    (st : list EmailGroup * gset string) :
  (forall e, In e l -> In e allEmails) ->
  outerInv atLeast allEmails st ->
  outerInv atLeast allEmails (fold_left (startGroup atLeast allEmails) l st)
  /\ (forall p, p ∈ snd st ->
        p ∈ snd (fold_left (startGroup atLeast allEmails) l st))
  /\ (forall e, In e l ->
        filePath e ∈ snd (fold_left (startGroup atLeast allEmails) l st)).
Proof.
  revert st. induction l as [|e l IH]; intros st Hsub Hinv.
  - split; [exact Hinv|]. split; [trivial | intros e []].
  - simpl fold_left.
    destruct (startGroup_inv e st (Hsub e (or_introl eq_refl)) Hinv)
      as (Hinv' & Hmono & Hdone).
    destruct (IH (startGroup atLeast allEmails st e)
                (fun e' H => Hsub e' (or_intror H)) Hinv')
      as (Hfinal & Hmono' & Hdone').
    split; [exact Hfinal|]. split.
    + intros p Hp. apply Hmono', Hmono, Hp.
    + intros e' [<- | He']; [apply Hmono', Hdone | apply Hdone', He'].
Qed.

End SubjectGrouping.

Section SubjectReport.

Import GroupEmails.

Variable atLeast : nat -> nat -> bool.

Lemma insertBySize_perm (g : EmailGroup) (l : list EmailGroup) :
  Permutation (GroupEmails.insertByCount g l) (g :: l).
Proof.
  induction l as [|h t IH]; [reflexivity|].
  simpl. destruct (count h <=? count g)%nat; [reflexivity|].
  rewrite IH. apply perm_swap.
Qed.

Lemma sortBySize_perm (l : list EmailGroup) :
  Permutation (GroupEmails.sortByCount l) l.
Proof.
  induction l as [|g l IH]; [reflexivity|].
  simpl. rewrite insertBySize_perm, IH. reflexivity.
Qed.

Lemma sortBySize_sorted (l : list EmailGroup) :
  StronglySorted byDecreasingSize (GroupEmails.sortByCount l).
Proof.
  induction l as [|g l IH]; [constructor|].
  simpl. revert IH. generalize (GroupEmails.sortByCount l). clear l.
  intros l. induction l as [|h t IH]; intros Hs.
  - simpl. constructor; constructor.
  - apply StronglySorted_inv in Hs as [Ht Hh]. simpl.
    destruct (count h <=? count g)%nat eqn:E.
    + apply Nat.leb_le in E. constructor; [constructor; assumption|].
      constructor; [exact E|].
      apply List.Forall_forall. intros x Hx. rewrite List.Forall_forall in Hh.
      specialize (Hh x Hx). unfold byDecreasingSize in *. lia.
    + apply Nat.leb_gt in E. constructor; [apply IH, Ht|].
      rewrite insertBySize_perm.
      constructor; [unfold byDecreasingSize; lia | exact Hh].
Qed.

(** X28.  When no two messages have the same path, [groupEmails] puts
    every message in exactly one group: the messages of its groups are those
    of the input, none twice.  Each group counts its messages, all of them
    were found similar enough to the first one, and no group stands before
    one with a greater count. *)
Theorem groupEmails_partition (emails : list EmailMetadata) :
  List.NoDup (map filePath emails) ->
  Permutation (groupedEmails (groupEmails atLeast emails)) emails
  /\ Forall (seededGroup atLeast) (groupEmails atLeast emails)
  /\ StronglySorted byDecreasingSize (groupEmails atLeast emails).
Proof.
  intros Hpaths. unfold groupEmails.
  assert (outerInv atLeast emails ([], ∅)) as H0.
  { unfold outerInv. simpl. split; [|split; [|split]].
    - intros p. rewrite elem_of_empty. tauto.
    - constructor.
    - intros e [].
    - constructor. }
  destruct (outer_loop_inv atLeast emails emails ([], ∅) (fun e H => H) H0)
    as ((Hmem & Hnd & Hall & Hgroups) & _ & Hdone).
  set (st := fold_left (startGroup atLeast emails) emails ([], ∅)) in *.
  pose proof (sortBySize_perm (fst st)) as Hp.
  split; [|split].
  - unfold groupedEmails at 1. rewrite (concat_perm _ _ (Permutation_map _ Hp)).
    apply Permutation.NoDup_Permutation.
    + apply (NoDup_map_inv filePath), Hnd.
    + apply (NoDup_map_inv filePath), Hpaths.
    + intros e. split; [apply Hall|].
      intros He. specialize (Hdone e He). apply Hmem in Hdone.
      apply in_map_iff in Hdone as (e' & Heq & He').
      assert (e' = e) as <-; [|exact He'].
      apply (NoDup_map_inj filePath emails); auto.
  - rewrite Hp. exact Hgroups.
  - apply sortBySize_sorted.
Qed.

End SubjectReport.

Lemma groupEmails_partition_witness :
  Permutation
    (groupedEmails
       (GroupEmails.groupEmails atLeastHalf
          [subjectMeta "Project plan" "1.md"; subjectMeta "Lunch" "2.md";
           subjectMeta "Re: project plan!" "3.md"]))
    [subjectMeta "Project plan" "1.md"; subjectMeta "Lunch" "2.md";
     subjectMeta "Re: project plan!" "3.md"].
Proof.
  apply (groupEmails_partition atLeastHalf
           [subjectMeta "Project plan" "1.md"; subjectMeta "Lunch" "2.md";
            subjectMeta "Re: project plan!" "3.md"]).
  simpl. repeat constructor; simpl; intuition discriminate.
Defined.


(** ** Messages without empty line *)

Lemma split_at (sep : ascii) (l rest : string) :
  allChars (fun c => negb (Ascii.eqb c sep)) l = true ->
  JS.split sep (l +:+ String sep rest) = l :: JS.split sep rest.
Proof.
  induction l as [|c l IH]; intros H.
  - rewrite app_empty_l, split_cons, Ascii.eqb_refl. reflexivity.
  - simpl in H. apply andb_true_iff in H as [Hc H].
    rewrite app_cons, split_cons, (IH H). apply negb_true_iff in Hc.
    rewrite Hc. reflexivity.
Qed.

Lemma split_none (sep : ascii) (l : string) :
  allChars (fun c => negb (Ascii.eqb c sep)) l = true -> JS.split sep l = [l].
Proof.
  induction l as [|c l IH]; intros H; [reflexivity|].
  simpl in H. apply andb_true_iff in H as [Hc H].
  rewrite split_cons, (IH H). apply negb_true_iff in Hc. rewrite Hc. reflexivity.
Qed.

Lemma split_join (lines : list string) :
  lines <> [] -> forallb noLF lines = true ->
  JS.split LF (JS.join nl lines) = lines.
Proof.
  induction lines as [|x lines IH]; intros Hne H; [contradiction|].
  simpl in H. apply andb_true_iff in H as [Hx H].
  destruct lines as [|y lines]; [apply split_none, Hx|].
  change (JS.join nl (x :: y :: lines)) with (x +:+ nl +:+ JS.join nl (y :: lines)).
  rewrite (split_line _ _ Hx), IH by (discriminate || exact H). reflexivity.
Qed.

Lemma no_blank_in_line (x : string) :
  noLF x = true -> JS.includes x (nl +:+ nl) = false.
Proof.
  unfold noLF. induction x as [|c x IH]; intros H; [reflexivity|].
  simpl in H. apply andb_true_iff in H as [Hc H]. apply negb_true_iff in Hc.
  rewrite includes_unfold, (IH H), orb_false_r.
  change (JS.startsWith (String c x) (nl +:+ nl))
    with (Ascii.eqb c LF && JS.startsWith x nl).
  rewrite Hc. reflexivity.
Qed.

Lemma no_blank_after_line (x rest : string) :
  noLF x = true -> JS.startsWith rest nl = false ->
  JS.includes rest (nl +:+ nl) = false ->
  JS.includes (x +:+ nl +:+ rest) (nl +:+ nl) = false.
Proof.
  unfold noLF. intros Hx Hhead Hrest. induction x as [|c x IH].
  - rewrite app_empty_l. change (nl +:+ rest) with (String LF rest).
    rewrite includes_unfold.
    change (JS.startsWith (String LF rest) (nl +:+ nl))
      with (Ascii.eqb LF LF && JS.startsWith rest nl).
    rewrite Hhead, Hrest. reflexivity.
  - simpl in Hx. apply andb_true_iff in Hx as [Hc Hx]. apply negb_true_iff in Hc.
    rewrite app_cons, includes_unfold, (IH Hx), orb_false_r.
    change (JS.startsWith (String c (x +:+ nl +:+ rest)) (nl +:+ nl))
      with (Ascii.eqb c LF && JS.startsWith (x +:+ nl +:+ rest) nl).
    rewrite Hc. reflexivity.
Qed.

Lemma no_blank_line (lines : list string) :
  forallb (fun l => noLF l && JS.truthy l) lines = true ->
  JS.includes (JS.join nl lines) (nl +:+ nl) = false
  /\ JS.startsWith (JS.join nl lines) nl = false.
Proof.
  induction lines as [|x lines IH]; intros H; [split; reflexivity|].
  simpl in H. apply andb_true_iff in H as [Hx H].
  apply andb_true_iff in Hx as [Hx Hne].
  assert (forall r, JS.startsWith (x +:+ r) nl = false) as Hhead.
  { intros r. destruct x as [|c x]; [discriminate|].
    unfold noLF in Hx. simpl in Hx. apply andb_true_iff in Hx as [Hc _].
    apply negb_true_iff in Hc. rewrite app_cons.
    change (JS.startsWith (String c (x +:+ r)) nl)
      with (Ascii.eqb c LF && JS.startsWith (x +:+ r) "").
    rewrite Hc. reflexivity. }
  destruct lines as [|y lines].
  - simpl JS.join. split; [apply no_blank_in_line, Hx|].
    rewrite <- (app_empty_r x). apply Hhead.
  - destruct (IH H) as [IH1 IH2].
    change (JS.join nl (x :: y :: lines)) with (x +:+ nl +:+ JS.join nl (y :: lines)).
    split; [apply no_blank_after_line; assumption | apply Hhead].
Qed.

Lemma scan_continuations (conts : list string) (i e : Z) :
  forallb isContinuation conts = true -> scanHeaderEnd i e conts = e.
Proof.
  revert i. induction conts as [|l conts IH]; intros i H; [reflexivity|].
  simpl in H. apply andb_true_iff in H as [Hl H].
  simpl. unfold classifyLine. rewrite Hl. apply IH, H.
Qed.

Lemma scan_headers (hs conts : list string) (i e : Z) :
  hs <> [] -> forallb headerLike hs = true ->
  forallb isContinuation conts = true ->
  scanHeaderEnd i e (hs ++ conts) = i + Z.of_nat (List.length hs) - 1.
Proof.
  revert i e. induction hs as [|h hs IH]; intros i e Hne Hhs Hconts; [contradiction|].
  simpl in Hhs. apply andb_true_iff in Hhs as [Hh Hhs].
  unfold headerLike in Hh. apply andb_true_iff in Hh as [Hh Hlen].
  apply andb_true_iff in Hh as [Hcont Hcolon]. apply negb_true_iff in Hcont.
  simpl app. simpl scanHeaderEnd. unfold classifyLine.
  rewrite Hcont, Hcolon, Hlen. simpl andb. cbv iota.
  destruct hs as [|h' hs].
  - simpl app. rewrite (scan_continuations conts _ _ Hconts). simpl. lia.
  - rewrite IH by (discriminate || assumption).
    simpl List.length. lia.
Qed.

(** X29.  In a message without empty line whose lines are header lines
    followed by continuation lines, the section of the headers ends with the
    last header line: the continuation lines that follow it are not part of
    its value, they are the body. *)
Theorem fallback_trailing_continuations (hs conts : list string) :
  hs <> [] ->
  forallb (fun l => noLF l && headerLike l) hs = true ->
  forallb (fun l => noLF l && isContinuation l) conts = true ->
  splitHeaderBody (JS.join nl (hs ++ conts))
  = (JS.join nl hs, cleanBody (JS.join nl conts)).
Proof.
  intros Hne Hhs Hconts.
  assert (forallb noLF hs = true /\ forallb headerLike hs = true) as [Hhs1 Hhs2].
  { clear Hne. induction hs as [|h hs IH]; [split; reflexivity|].
    simpl in Hhs. apply andb_true_iff in Hhs as [Hh Hhs].
    apply andb_true_iff in Hh as [H1 H2]. destruct (IH Hhs) as [I1 I2].
    simpl. rewrite H1, H2, I1, I2. split; reflexivity. }
  assert (forallb noLF conts = true /\ forallb isContinuation conts = true)
    as [Hc1 Hc2].
  { induction conts as [|l conts IH]; [split; reflexivity|].
    simpl in Hconts. apply andb_true_iff in Hconts as [Hl Hconts].
    apply andb_true_iff in Hl as [H1 H2]. destruct (IH Hconts) as [I1 I2].
    simpl. rewrite H1, H2, I1, I2. split; reflexivity. }
  assert (forallb (fun l => noLF l && JS.truthy l) (hs ++ conts) = true) as Hall.
  { rewrite forallb_app. apply andb_true_iff. split.
    - rewrite forallb_forall in Hhs |- *. intros l Hl. specialize (Hhs l Hl).
      apply andb_true_iff in Hhs as [H1 H2]. rewrite H1. simpl.
      unfold headerLike in H2. destruct l; [discriminate H2 | reflexivity].
    - rewrite forallb_forall in Hconts |- *. intros l Hl. specialize (Hconts l Hl).
      apply andb_true_iff in Hconts as [H1 H2]. rewrite H1. simpl.
      destruct l; [discriminate H2 | reflexivity]. }
  destruct (no_blank_line _ Hall) as [Hblank _].
  unfold splitHeaderBody. rewrite (indexOf_missing_iff _ _ Hblank).
  simpl negb. cbv iota zeta.
  rewrite split_join.
  2:{ destruct hs; [contradiction | discriminate]. }
  2:{ rewrite forallb_app, Hhs1, Hc1. reflexivity. }
  rewrite (scan_headers hs conts 0 (-1) Hne Hhs2 Hc2).
  assert ((0 <=? 0 + Z.of_nat (List.length hs) - 1) = true) as ->.
  { apply Z.leb_le. destruct hs; [contradiction | simpl List.length; lia]. }
  replace (Z.to_nat (0 + Z.of_nat (List.length hs) - 1 + 1)) with (List.length hs)
    by lia.
  rewrite firstn_app, Nat.sub_diag, firstn_all, firstn_O, app_nil_r.
  rewrite skipn_app, Nat.sub_diag, skipn_all, skipn_O. reflexivity.
Qed.

Lemma fallback_trailing_continuations_witness :
  splitHeaderBody (JS.join nl (["From: a@x.com"; "Subject: a long"] ++ [" subject"]))
  = (JS.join nl ["From: a@x.com"; "Subject: a long"], cleanBody (JS.join nl [" subject"])).
Proof.
  apply (fallback_trailing_continuations ["From: a@x.com"; "Subject: a long"] [" subject"]);
    [discriminate | reflexivity | reflexivity].
Defined.

(** ** Lists of recipients *)

Lemma mapNotNull_cons (f : string -> option string) (x : string) (l : list string) :
  mapNotNull f (x :: l) = mapNotNull f [x] ++ mapNotNull f l.
Proof.
  unfold mapNotNull.
  change (omap f (x :: l))
    with (match f x with Some y => y :: omap f l | None => omap f l end).
  change (omap f [x]) with (match f x with Some y => [y] | None => [] end).
  destruct (f x); reflexivity.
Qed.

(** X30.  The recipients of a field are handled one by one: what is found
    in a field is what is found in front of its first comma followed by what
    is found behind it, for addresses and for names; and the text in front
    of the comma gives at most one of each. *)
Theorem recipients_one_by_one (first others : string) :
  noComma first = true ->
  extractEmails (first +:+ "," +:+ others)
  = extractEmails first ++ extractEmails others
  /\ extractNames (first +:+ "," +:+ others)
     = extractNames first ++ extractNames others
  /\ (List.length (extractEmails first) <= 1)%nat
  /\ (List.length (extractNames first) <= 1)%nat.
Proof.
  intros H. unfold extractEmails, extractNames.
  change ("," +:+ others) with (String "," others).
  rewrite (split_at "," first others H), (split_none "," first H).
  split; [apply mapNotNull_cons|]. split; [apply mapNotNull_cons|].
  unfold mapNotNull. split.
  - change (omap (fun recipient => extractEmail (JS.trim recipient)) [first])
      with (match extractEmail (JS.trim first) with Some y => [y] | None => [] end).
    destruct (extractEmail (JS.trim first)); simpl; lia.
  - change (omap (fun recipient => extractName (JS.trim recipient)) [first])
      with (match extractName (JS.trim first) with Some y => [y] | None => [] end).
    destruct (extractName (JS.trim first)); simpl; lia.
Qed.

Lemma recipients_one_by_one_witness :
  extractEmails ("Bob <b@x.com>" +:+ "," +:+ " carol@x.com, Dave")
  = extractEmails "Bob <b@x.com>" ++ extractEmails " carol@x.com, Dave".
Proof.
  apply (recipients_one_by_one "Bob <b@x.com>" " carol@x.com, Dave"). reflexivity.
Defined.
